(** * SOllisting: the polling / dedup / enrichment / filter pipeline

    A shallow embedding of [main.py], [utils/solana_rpc.py] and
    [utils/telegram_bot.py], and the properties of the pipeline that the
    specification states.

    Conventions of the embedding.
    - A Python [str] is a [string] (a sequence of bytes); character classes
      and case folding are those of ASCII text.
    - [None] is [None]; a value that may be [None] is an [option].
    - A coroutine is a state transformer over [state]: the in-memory set of
      processed tokens, the semaphore counter, the number of network calls
      made so far and the trace of calls.  The outside world is an oracle
      that answers the n-th network request.
    - An exception is a result [Raise e]; a coroutine that waits forever is
      [Hang]. *)

From Stdlib Require Import ZArith List Ascii String DecimalString Bool Lia.
From Stdlib Require Import SpecFloat.
From stdpp Require Import base decidable option list gmap strings.

Local Open Scope string_scope.
Local Open Scope Z_scope.

Set Warnings "-register-all".

(** ** Regular expressions ([re]) *)

Module Re.

(** The fragment of Python's [re] syntax that [URL_REGEX] uses has no
    back-references and no look-around, so whether a pattern matches is a
    question about a regular language; it is decided with derivatives. *)
Inductive regex : Type :=
| Void
| Eps
| Class (p : ascii -> bool)
| Cat (r1 r2 : regex)
| Alt (r1 r2 : regex)
| Star (r : regex).

Fixpoint nullable (r : regex) : bool :=
  match r with
  | Void => false
  | Eps => true
  | Class _ => false
  | Cat r1 r2 => nullable r1 && nullable r2
  | Alt r1 r2 => nullable r1 || nullable r2
  | Star _ => true
  end.

Definition cat (r1 r2 : regex) : regex :=
  match r1, r2 with
  | Void, _ => Void
  | _, Void => Void
  | Eps, _ => r2
  | _, Eps => r1
  | _, _ => Cat r1 r2
  end.

Definition alt (r1 r2 : regex) : regex :=
  match r1, r2 with
  | Void, _ => r2
  | _, Void => r1
  | _, _ => Alt r1 r2
  end.

Fixpoint deriv (c : ascii) (r : regex) : regex :=
  match r with
  | Void => Void
  | Eps => Void
  | Class p => if p c then Eps else Void
  | Cat r1 r2 =>
      if nullable r1
      then alt (cat (deriv c r1) r2) (deriv c r2)
      else cat (deriv c r1) r2
  | Alt r1 r2 => alt (deriv c r1) (deriv c r2)
  | Star r1 => cat (deriv c r1) (Star r1)
  end.

Fixpoint matches (r : regex) (s : string) : bool :=
  match s with
  | EmptyString => nullable r
  | String c s' => matches (deriv c r) s'
  end.

(** Pattern syntax. *)
Definition opt (r : regex) : regex := Alt Eps r.          (* r? *)
Definition plus (r : regex) : regex := Cat r (Star r).     (* r+ *)

Fixpoint times (n : nat) (r : regex) : regex :=            (* r{n} *)
  match n with
  | O => Eps
  | S n' => Cat r (times n' r)
  end.

Fixpoint upto (n : nat) (r : regex) : regex :=             (* r{0,n} *)
  match n with
  | O => Eps
  | S n' => opt (Cat r (upto n' r))
  end.

Definition between (m n : nat) (r : regex) : regex :=      (* r{m,n} *)
  Cat (times m r) (upto (n - m) r).

Definition at_least (m : nat) (r : regex) : regex :=       (* r{m,} *)
  Cat (times m r) (Star r).

(** Character classes, as [re.IGNORECASE] reads them on ASCII text. *)
Definition code (c : ascii) : N := N_of_ascii c.

Definition in_range (lo hi : N) (c : ascii) : bool :=
  ((lo <=? code c) && (code c <=? hi))%N.

Definition is_digit (c : ascii) : bool := in_range 48 57 c.           (* \d, 0-9 *)
Definition is_upper (c : ascii) : bool := in_range 65 90 c.
Definition is_lower (c : ascii) : bool := in_range 97 122 c.
Definition is_alpha (c : ascii) : bool := is_upper c || is_lower c.   (* [A-Z], ignoring case *)
Definition is_alnum (c : ascii) : bool := is_alpha c || is_digit c.   (* [A-Z0-9] *)
Definition is_hex (c : ascii) : bool :=                               (* [A-F0-9] *)
  in_range 65 70 c || in_range 97 102 c || is_digit c.

(** [\s]: the characters below 128 for which [str.isspace] holds. *)
Definition is_space (c : ascii) : bool :=
  in_range 9 13 c || in_range 28 32 c.

Definition to_lower (c : ascii) : ascii :=
  if is_upper c then ascii_of_N (code c + 32) else c.

Definition chr_is (a : ascii) (c : ascii) : bool := Ascii.eqb a c.

(** A literal character of the pattern, compared ignoring case. *)
Definition chr_nocase (a : ascii) (c : ascii) : bool :=
  Ascii.eqb (to_lower a) (to_lower c).

Fixpoint lit_nocase (s : string) : regex :=
  match s with
  | EmptyString => Eps
  | String a s' => Cat (Class (chr_nocase a)) (lit_nocase s')
  end.

End Re.

(** ** [main.py]: URL validation *)

Module Url.
Import Re.

Definition dot : regex := Class (chr_is ".").
Definition alnum : regex := Class is_alnum.
Definition alnum_dash : regex := Class (fun c => is_alnum c || chr_is "-" c).
Definition digit : regex := Class is_digit.

(** [(?:http|ftp)s?://] *)
Definition scheme : regex :=
  Cat (Alt (lit_nocase "http") (lit_nocase "ftp"))
      (Cat (opt (lit_nocase "s")) (lit_nocase "://")).

(** [[A-Z0-9](?:[A-Z0-9-]{0,61}[A-Z0-9])?\.] *)
Definition label_dot : regex :=
  Cat alnum (Cat (opt (Cat (upto 61 alnum_dash) alnum)) dot).

(** [(?:[A-Z]{2,6}\.?|[A-Z0-9-]{2,}\.?)] *)
Definition tld : regex :=
  Alt (Cat (between 2 6 (Class is_alpha)) (opt dot))
      (Cat (at_least 2 alnum_dash) (opt dot)).

Definition domain : regex := Cat (plus label_dot) tld.

Definition localhost : regex := lit_nocase "localhost".

(** [\d{1,3}\.\d{1,3}\.\d{1,3}\.\d{1,3}] *)
Definition octet : regex := between 1 3 digit.
Definition ipv4 : regex :=
  Cat octet (Cat dot (Cat octet (Cat dot (Cat octet (Cat dot octet))))).

(** [\[?[A-F0-9]*:[A-F0-9:]+\]?] *)
Definition ipv6 : regex :=
  Cat (opt (Class (chr_is "[")))
      (Cat (Star (Class is_hex))
           (Cat (Class (chr_is ":"))
                (Cat (plus (Class (fun c => is_hex c || chr_is ":" c)))
                     (opt (Class (chr_is "]")))))).

Definition host : regex := Alt domain (Alt localhost (Alt ipv4 ipv6)).

(** [(?::\d+)?] *)
Definition port : regex := opt (Cat (Class (chr_is ":")) (plus digit)).

(** [(?:/?|[/?]\S+)] *)
Definition path : regex :=
  Alt (opt (Class (chr_is "/")))
      (Cat (Class (fun c => chr_is "/" c || chr_is "?" c))
           (plus (Class (fun c => negb (is_space c))))).

(** [$] without [re.MULTILINE]: the end of the string, or the position
    before a newline that ends the string. *)
Definition dollar : regex := opt (Class (chr_is "010")).

Definition URL_REGEX : regex :=
  Cat scheme (Cat host (Cat port (Cat path dollar))).

(** [bool(URL_REGEX.match(url))]: [match] anchors at the start, and the
    pattern ends in [$]. *)
Definition is_valid_url (url : string) : bool := matches URL_REGEX url.

End Url.

(** ** Python values, exceptions and the operations the program uses *)

Module Py.

(** The exceptions that can arise in the three source files.  The [httpx]
    classes nest: [TimeoutException] is a [TransportError], which is a
    [RequestError]; [HTTPStatusError] (raised by [raise_for_status]) is an
    [HTTPError] but not a [RequestError]. *)
Inductive exn : Type :=
| TimeoutException      (* httpx.TimeoutException *)
| TransportError        (* any other httpx.RequestError *)
| HTTPStatusError       (* httpx.HTTPStatusError *)
| JSONDecodeError       (* json.JSONDecodeError *)
| TypeError
| AttributeError
| KeyError
| NameError
| OverflowError
| ZeroDivisionError.

Definition is_TimeoutException (e : exn) : bool :=
  match e with TimeoutException => true | _ => false end.

Definition is_RequestError (e : exn) : bool :=
  match e with TimeoutException | TransportError => true | _ => false end.

Definition is_JSONDecodeError (e : exn) : bool :=
  match e with JSONDecodeError => true | _ => false end.

(** The result of evaluating an expression: a value or an exception. *)
Inductive result (A : Type) : Type :=
| Ok (a : A)
| Raise (e : exn).
Arguments Ok {A} a.
Arguments Raise {A} e.

Definition rbind {A B} (r : result A) (k : A -> result B) : result B :=
  match r with
  | Ok a => k a
  | Raise e => Raise e
  end.

(** Binary64 floats. *)
Definition prec : Z := 53.
Definition emax : Z := 1024.
Definition float : Type := spec_float.

(** What [json.loads] and [response.json()] produce. *)
Inductive json : Type :=
| JNull
| JBool (b : bool)
| JInt (z : Z)
| JFloat (f : float)
| JStr (s : string)
| JArr (l : list json)
| JObj (kvs : list (string * json)).

(** [bool(v)] *)
Definition truthy (v : json) : bool :=
  match v with
  | JNull => false
  | JBool b => b
  | JInt z => negb (z =? 0)
  | JFloat f => match f with S754_zero _ => false | _ => true end
  | JStr s => negb (String.eqb s "")
  | JArr l => match l with [] => false | _ => true end
  | JObj kvs => match kvs with [] => false | _ => true end
  end.

(** [a or b] *)
Definition or_else (a b : json) : json := if truthy a then a else b.

(** Truth value of an optional string ([None] and [""] are false). *)
Definition truthy_str (o : option string) : bool :=
  match o with
  | Some s => negb (String.eqb s "")
  | None => false
  end.

Fixpoint assoc (k : string) (kvs : list (string * json)) : option json :=
  match kvs with
  | [] => None
  | (k', v) :: rest => if String.eqb k k' then Some v else assoc k rest
  end.

(** [needle in hay] on strings. *)
Fixpoint substring_of (needle hay : string) : bool :=
  String.prefix needle hay
  || match hay with
     | EmptyString => false
     | String _ hay' => substring_of needle hay'
     end.

Definition is_str (k : string) (v : json) : bool :=
  match v with JStr s => String.eqb k s | _ => false end.

(** [k in v] for a string [k]. *)
Definition contains (k : string) (v : json) : result bool :=
  match v with
  | JObj kvs => Ok (match assoc k kvs with Some _ => true | None => false end)
  | JArr l => Ok (existsb (is_str k) l)
  | JStr s => Ok (substring_of k s)
  | JNull | JBool _ | JInt _ | JFloat _ => Raise TypeError
  end.

(** [v[k]] for a string [k]. *)
Definition getitem (v : json) (k : string) : result json :=
  match v with
  | JObj kvs => match assoc k kvs with Some x => Ok x | None => Raise KeyError end
  | _ => Raise TypeError
  end.

(** [v.get(k)] *)
Definition get (v : json) (k : string) : result json :=
  match v with
  | JObj kvs => Ok (match assoc k kvs with Some x => x | None => JNull end)
  | _ => Raise AttributeError
  end.

(** [s.replace(old, new)] for a non-empty [old]: the occurrences are
    replaced from left to right and do not overlap; [skip] counts the
    characters of a replaced occurrence still to be dropped. *)
Fixpoint replace_from (old new : string) (skip : nat) (s : string) : string :=
  match s with
  | EmptyString => EmptyString
  | String c s' =>
      match skip with
      | S k => replace_from old new k s'
      | O =>
          if String.prefix old s
          then new ++ replace_from old new (String.length old - 1) s'
          else String c (replace_from old new 0 s')
      end
  end.

Definition replace (old new s : string) : string := replace_from old new 0 s.

(** [s.lower()] *)
Fixpoint lower (s : string) : string :=
  match s with
  | EmptyString => EmptyString
  | String c s' => String (Re.to_lower c) (lower s')
  end.

(** *** Floats *)

Definition float_of_pos (s : bool) (m : positive) : float := S754_finite s m 0.

(** [float(z)]: the binary64 nearest to [z]; too large an integer raises. *)
Definition float_of_int (z : Z) : result float :=
  match binary_normalize prec emax z 0 false with
  | S754_infinity _ => Raise OverflowError
  | f => Ok f
  end.

(** [a / b] on integers: the binary64 nearest to the exact quotient. *)
Definition truediv_int (a b : Z) : result float :=
  match a, b with
  | _, Z0 => Raise ZeroDivisionError
  | Z0, _ => Ok (S754_zero (b <? 0))
  | _, _ =>
      match SFdiv prec emax (float_of_pos (a <? 0) (Z.to_pos (Z.abs a)))
                            (float_of_pos (b <? 0) (Z.to_pos (Z.abs b))) with
      | S754_infinity _ => Raise OverflowError
      | f => Ok f
      end
  end.

(** [x / b] for a float [x] and an integer [b]. *)
Definition truediv_float_int (x : float) (b : Z) : result float :=
  if b =? 0 then Raise ZeroDivisionError
  else rbind (float_of_int b) (fun fb => Ok (SFdiv prec emax x fb)).

(** [v / b] for a JSON value [v] and an integer constant [b]. *)
Definition truediv (v : json) (b : Z) : result float :=
  match v with
  | JInt a => truediv_int a b
  | JBool a => truediv_int (if a then 1 else 0) b
  | JFloat x => truediv_float_int x b
  | JNull | JStr _ | JArr _ | JObj _ => Raise TypeError
  end.

Definition float_one : float := SFone prec emax.

(** [x < 1] *)
Definition lt_one (x : float) : bool := SFltb x float_one.

End Py.

(** ** The outside world and the state of the process *)

Module World.
Import Py.

(** A candidate item of the feed: the fields the program reads with
    [token.get].  [None] stands for a missing key or a JSON [null];
    [mint] and [creator] are strings, as the annotations of
    [get_token_metadata_enriched] and [get_sol_balance] say. *)
Record token : Type := {
  mint : option string;
  creator : option string;
  name : option string;
  symbol : option string;
  total_supply : option json
}.

(** The network requests the program issues. *)
Inductive request : Type :=
| GetFeed (url : string)
| PostMetadata (url : string) (api_key : option string) (mint_address : option string)
| PostGetBalance (rpc_url : option string) (public_key : string)
| PostGetSignatures (rpc_url : option string) (public_key : string) (limit : Z)
| PostSendMessage (bot_token chat_id text : string).

(** An HTTP response: whether its status is a success, and its body
    decoded as JSON when it is JSON. *)
Record http_response (A : Type) : Type := {
  status_ok : bool;
  body : option A
}.
Arguments status_ok {A} _.
Arguments body {A} _.

(** What becomes of [client.get] / [client.post]. *)
Inductive reply (A : Type) : Type :=
| TimedOut                          (* httpx.TimeoutException *)
| TransportFailed                   (* another httpx.RequestError *)
| Received (r : http_response A).
Arguments TimedOut {A}.
Arguments TransportFailed {A}.
Arguments Received {A} r.

(** A success status with a JSON body. *)
Definition Json {A} (a : A) : reply A :=
  Received {| status_ok := true; body := Some a |}.

(** The world answers the n-th network call of the process. *)
Record world : Type := {
  feed : nat -> reply (list token);
  answer : nat -> request -> reply json
}.

(** The functions [main_loop] calls, with their arguments. *)
Inductive call : Type :=
| fetch_new_pump_fun_tokens_
| get_token_metadata_enriched_ (mint_address : option string)
| get_sol_balance_ (public_key : string)
| get_transaction_count_ (public_key : string)
| format_token_message_ (t : token)
| send_telegram_message_ (message : string)
| save_processed_tokens_ (tokens_set : gset (option string))
| sleep_ (seconds : Z).

Inductive event : Type :=
| Called (c : call)
| Sent (r : request)      (* a network call *)
| Acquired                (* metadata_semaphore acquired *)
| Released.               (* metadata_semaphore released *)

Record state : Type := {
  processed_tokens : gset (option string);
  metadata_semaphore : nat;      (* the permits left *)
  clock : nat;                   (* network calls made so far *)
  trace : list event             (* oldest first *)
}.

(** How a coroutine ends. *)
Inductive outcome (A : Type) : Type :=
| Returns (a : A)
| Raises (e : exn)
| Hangs.
Arguments Returns {A} a.
Arguments Raises {A} e.
Arguments Hangs {A}.

Definition M (A : Type) : Type := state -> outcome A * state.

Definition ret {A} (a : A) : M A := fun s => (Returns a, s).

Definition bind {A B} (m : M A) (k : A -> M B) : M B :=
  fun s =>
    match m s with
    | (Returns a, s') => k a s'
    | (Raises e, s') => (Raises e, s')
    | (Hangs, s') => (Hangs, s')
    end.

Definition raise {A} (e : exn) : M A := fun s => (Raises e, s).

Definition lift {A} (r : result A) : M A :=
  match r with
  | Ok a => ret a
  | Raise e => raise e
  end.

(** [try: m except <handler>]: [handler e] is [Some k] when a clause
    catches [e]. *)
Definition try_except {A} (m : M A) (handler : exn -> option (M A)) : M A :=
  fun s =>
    match m s with
    | (Raises e, s') =>
        match handler e with
        | Some k => k s'
        | None => (Raises e, s')
        end
    | r => r
    end.

Definition emit (e : event) : M unit :=
  fun s => (Returns tt,
            {| processed_tokens := processed_tokens s;
               metadata_semaphore := metadata_semaphore s;
               clock := clock s;
               trace := trace s ++ [e] |}).

Definition tick : M nat :=
  fun s => (Returns (clock s),
            {| processed_tokens := processed_tokens s;
               metadata_semaphore := metadata_semaphore s;
               clock := S (clock s);
               trace := trace s |}).

(** [await metadata_semaphore.acquire()]: takes a permit, or waits for
    one; nothing else runs that could release one. *)
Definition acquire : M unit :=
  fun s =>
    match metadata_semaphore s with
    | O => (Hangs, s)
    | S n => (Returns tt,
              {| processed_tokens := processed_tokens s;
                 metadata_semaphore := n;
                 clock := clock s;
                 trace := trace s ++ [Acquired] |})
    end.

Definition release : M unit :=
  fun s => (Returns tt,
            {| processed_tokens := processed_tokens s;
               metadata_semaphore := S (metadata_semaphore s);
               clock := clock s;
               trace := trace s ++ [Released] |}).

(** [async with metadata_semaphore: body]: the permit is given back when
    the body returns and when it raises. *)
Definition with_semaphore {A} (body : M A) : M A :=
  fun s =>
    match acquire s with
    | (Returns _, s1) =>
        match body s1 with
        | (Returns a, s2) => (Returns a, snd (release s2))
        | (Raises e, s2) => (Raises e, snd (release s2))
        | (Hangs, s2) => (Hangs, s2)
        end
    | (Raises e, s1) => (Raises e, s1)
    | (Hangs, s1) => (Hangs, s1)
    end.

(** [processed_tokens.add(m)] *)
Definition add_processed (m : option string) : M unit :=
  fun s => (Returns tt,
            {| processed_tokens := {[ m ]} ∪ processed_tokens s;
               metadata_semaphore := metadata_semaphore s;
               clock := clock s;
               trace := trace s |}).

Definition get_processed : M (gset (option string)) :=
  fun s => (Returns (processed_tokens s), s).

Definition client_call {A} (r : reply A) : result (http_response A) :=
  match r with
  | TimedOut => Raise TimeoutException
  | TransportFailed => Raise TransportError
  | Received resp => Ok resp
  end.

(** [response.raise_for_status()] *)
Definition raise_for_status {A} (resp : http_response A) : result unit :=
  if status_ok resp then Ok tt else Raise HTTPStatusError.

(** [response.json()] *)
Definition response_json {A} (resp : http_response A) : result A :=
  match body resp with
  | Some a => Ok a
  | None => Raise JSONDecodeError
  end.

(** [await client.post(...)], answered by the world. *)
Definition post (w : world) (r : request) : M (http_response json) :=
  bind (emit (Sent r)) (fun _ =>
  bind tick (fun n =>
  lift (client_call (answer w n r)))).

(** [await client.get(PUMP_FUN_API_URL, ...)] *)
Definition get_feed (w : world) (url : string) : M (http_response (list token)) :=
  bind (emit (Sent (GetFeed url))) (fun _ =>
  bind tick (fun n =>
  lift (client_call (feed w n)))).

(** [for x in l: body x] *)
Fixpoint for_each {A} (l : list A) (body : A -> M unit) : M unit :=
  match l with
  | [] => ret tt
  | x :: rest => bind (body x) (fun _ => for_each rest body)
  end.

Declare Scope py_scope.
Delimit Scope py_scope with py.
Notation "'do' x <- m ; k" := (bind m (fun x => k))
  (at level 10, x name, m at level 100, k at level 200) : py_scope.
Notation "'do' ' p <- m ; k" := (bind m (fun x => match x with p => k end))
  (at level 10, p pattern, m at level 100, k at level 200) : py_scope.
Notation "'run' m ; k" := (bind m (fun _ => k))
  (at level 10, m at level 100, k at level 200) : py_scope.

End World.

(** ** [utils/solana_rpc.py] *)

Module SolanaRpc.
Import Py World.
Local Open Scope py_scope.

(** The clauses [except httpx.TimeoutException], [except httpx.RequestError]
    return [None].  The next clause is [except json.JSONDecodeError], and
    this module does not import [json]: when an exception reaches that
    clause, evaluating its class raises [NameError], which leaves the
    function. *)
Definition handler {A} (e : exn) : option (M (option A)) :=
  if is_TimeoutException e then Some (ret None)
  else if is_RequestError e then Some (ret None)
  else Some (raise NameError).

(** [data and "result" in data and "value" in data["result"]] *)
Definition has_result_value (data : json) : result bool :=
  if truthy data then
    rbind (contains "result" data) (fun has_result =>
    if has_result then
      rbind (getitem data "result") (fun res => contains "value" res)
    else Ok false)
  else Ok false.

Definition get_sol_balance (w : world) (public_key : string)
    (rpc_url : option string) : M (option float) :=
  try_except
    (do response <- post w (PostGetBalance rpc_url public_key);
     run lift (raise_for_status response);
     do data <- lift (response_json response);
     do ok <- lift (has_result_value data);
     if ok then
       do res <- lift (getitem data "result");
       do lamports <- lift (getitem res "value");
       (* 1 SOL = 1,000,000,000 lamports *)
       do sol_balance <- lift (truediv lamports 1000000000);
       ret (Some sol_balance)
     else ret None)
    handler.

(** [data and "result" in data and isinstance(data["result"], list)] *)
Definition has_result_list (data : json) : result bool :=
  if truthy data then
    rbind (contains "result" data) (fun has_result =>
    if has_result then
      rbind (getitem data "result") (fun res =>
      Ok (match res with JArr _ => true | _ => false end))
    else Ok false)
  else Ok false.

(** [len(v)] *)
Definition len (v : json) : result Z :=
  match v with
  | JArr l => Ok (Z.of_nat (List.length l))
  | JObj kvs => Ok (Z.of_nat (List.length kvs))
  | JStr s => Ok (Z.of_nat (String.length s))
  | _ => Raise TypeError
  end.

(** The [limit] of the [getSignaturesForAddress] query. *)
Definition signatures_limit : Z := 100.

Definition get_transaction_count (w : world) (public_key : string)
    (rpc_url : option string) : M (option Z) :=
  try_except
    (do response <- post w (PostGetSignatures rpc_url public_key signatures_limit);
     run lift (raise_for_status response);
     do data <- lift (response_json response);
     do ok <- lift (has_result_list data);
     if ok then
       do res <- lift (getitem data "result");
       do n <- lift (len res);
       ret (Some n)
     else ret (Some 0))
    handler.

End SolanaRpc.

(** ** [utils/telegram_bot.py] *)

Module TelegramBot.
Import Py World.
Local Open Scope py_scope.

Definition send_telegram_message (w : world) (bot_token chat_id : option string)
    (message : string) : M bool :=
  match bot_token, chat_id with
  | Some token, Some chat =>
      if negb (truthy_str bot_token) || negb (truthy_str chat_id) then ret false
      else
        try_except
          (do response <- post w (PostSendMessage token chat message);
           run lift (raise_for_status response);
           do response_json <- lift (response_json response);
           do ok <- lift (get response_json "ok");
           if truthy ok then ret true else ret false)
          (* the three clauses log; the function then returns False *)
          (fun _ => Some (ret false))
  | _, _ => ret false
  end.

End TelegramBot.

(** ** [main.py]: the message formatter *)

Module Format.
Import Py World.

Definition nl : string := String "010" EmptyString.

(** [''.join(['\\' + char if char in escape_chars else char for char in text])] *)
Definition escape_chars : string := "_*[]()~`>#+-=|{}.!".

Fixpoint escape_markdown_v2 (text : string) : string :=
  match text with
  | EmptyString => EmptyString
  | String char rest =>
      if substring_of (String char EmptyString) escape_chars
      then String "\" (String char (escape_markdown_v2 rest))
      else String char (escape_markdown_v2 rest)
  end.

(** *** Fixed-point formatting of floats: [format(x, '.5f')], [format(x, ',.0f')] *)

(** [num / den] rounded to the nearest integer, ties to even. *)
Definition round_half_even (num den : Z) : Z :=
  let q := num / den in
  let r := num mod den in
  match 2 * r ?= den with
  | Lt => q
  | Gt => q + 1
  | Eq => if Z.even q then q else q + 1
  end.

(** [m * 2^e * 10^digits], rounded. *)
Definition scaled (digits : nat) (m : positive) (e : Z) : Z :=
  let p := 10 ^ Z.of_nat digits in
  if 0 <=? e then Zpos m * 2 ^ e * p
  else round_half_even (Zpos m * p) (2 ^ (- e)).

Definition decimal (n : Z) : string :=
  DecimalString.NilZero.string_of_uint (N.to_uint (Z.to_N n)).

Fixpoint zeros (n : nat) : string :=
  match n with
  | O => EmptyString
  | S n' => String "0" (zeros n')
  end.

(** The thousands separators of the [,] option. *)
Fixpoint commas (s : string) : string :=
  match s with
  | EmptyString => EmptyString
  | String c s' =>
      String c (if (0 <? String.length s')%nat && (String.length s' mod 3 =? 0)%nat
                then "," ++ commas s'
                else commas s')
  end.

Definition fixed (digits : nat) (comma : bool) (n : Z) : string :=
  let s := decimal n in
  let s := zeros (digits + 1 - String.length s) ++ s in
  let int_part := String.substring 0 (String.length s - digits) s in
  let frac_part := String.substring (String.length s - digits) digits s in
  (if comma then commas int_part else int_part)
  ++ (match digits with O => EmptyString | _ => "." ++ frac_part end).

Definition format_f (digits : nat) (comma : bool) (x : float) : string :=
  match x with
  | S754_nan => "nan"
  | S754_infinity s => (if s then "-" else "") ++ "inf"
  | S754_zero s => (if s then "-" else "") ++ fixed digits comma 0
  | S754_finite s m e => (if s then "-" else "") ++ fixed digits comma (scaled digits m e)
  end.

(** [f"{total_supply:,.0f}" if isinstance(total_supply, (int, float)) else "N/A"];
    an [int] (and so a [bool]) is converted to a float first. *)
Definition format_supply (total_supply : json) : result string :=
  match total_supply with
  | JInt z => rbind (float_of_int z) (fun x => Ok (format_f 0 true x))
  | JBool b => rbind (float_of_int (if b then 1 else 0)) (fun x => Ok (format_f 0 true x))
  | JFloat x => Ok (format_f 0 true x)
  | _ => Ok "N/A"
  end.

(** [f"{creator_balance_sol:.5f}"]: [None] does not accept a format
    specification. *)
Definition format_balance (creator_balance_sol : option float) : result string :=
  match creator_balance_sol with
  | Some x => Ok (format_f 5 false x)
  | None => Raise TypeError
  end.

(** [f"{creator_tx_count}"] *)
Definition format_count (creator_tx_count : option Z) : string :=
  match creator_tx_count with
  | Some n => DecimalString.NilZero.string_of_int (Z.to_int n)
  | None => "None"
  end.

Definition meme_emojis : list string :=
  ["üê∂"; "üê±"; "üê∏"; "üåö"; "üöÄ"; "üíé"].
Definition utility_emojis : list string :=
  ["‚öôÔ∏è"; "üõ†Ô∏è"; "üí°"; "üîó"].

Definition meme_keywords : list string :=
  ["dog"; "cat"; "pepe"; "elon"; "moon"; "coin"; "inu"; "shiba"; "meme"].
Definition utility_keywords : list string :=
  ["protocol"; "solution"; "network"; "defi"; "labs"].

Definition any_in (keywords : list string) (s : string) : bool :=
  existsb (fun keyword => substring_of keyword s) keywords.

Definition format_token_message (token_data : token)
    (creator_balance_sol : option float) (creator_tx_count : option Z)
    (telegram_link twitter_link : string) : result string :=
  let name := default "N/A" (name token_data) in
  let symbol := default "N/A" (symbol token_data) in
  let mint := default "N/A" (mint token_data) in
  let creator := default "N/A" (creator token_data) in
  let total_supply := default (JInt 0) (total_supply token_data) in
  rbind (format_supply total_supply) (fun formatted_supply =>
  let dev_wallet_empty_tag :=
    match creator_balance_sol with
    | Some balance => if lt_one balance then "üö© Dev Wallet Empty" else ""
    | None => ""
    end in
  let wallet_history_tag :=
    match creator_tx_count with
    | Some count => if 20 <? count then "üü¢ Wallet Has Decent History" else ""
    | None => ""
    end in
  let token_name_lower := lower name in
  let name_emoji :=
    if any_in meme_keywords token_name_lower then nth 0 meme_emojis ""
    else if any_in utility_keywords token_name_lower then nth 0 utility_emojis ""
    else "" in
  let name_escaped := escape_markdown_v2 name in
  let symbol_escaped := escape_markdown_v2 symbol in
  let mint_escaped := escape_markdown_v2 mint in
  let creator_escaped := escape_markdown_v2 creator in
  let telegram_link_escaped := escape_markdown_v2 telegram_link in
  let twitter_link_escaped := escape_markdown_v2 twitter_link in
  let dev_wallet_empty_tag_escaped := escape_markdown_v2 dev_wallet_empty_tag in
  let wallet_history_tag_escaped := escape_markdown_v2 wallet_history_tag in
  rbind (format_balance creator_balance_sol) (fun balance_text =>
  let tx_count_text := format_count creator_tx_count in
  Ok (
      nl ++ "*" ++ name_emoji ++ " " ++ name_escaped ++ " \($" ++ symbol_escaped ++
      "\)*" ++ nl ++ nl ++ "ü™ô CA: `" ++ mint_escaped ++ "`" ++ nl ++
      "üéØ Exchange: `pump\.fun`" ++ nl ++ "üë®üèª‚Äçüíª Owner: `" ++
      creator_escaped ++ "`" ++ nl ++ nl ++ "üí∞ Supply: " ++ formatted_supply ++
      nl ++ nl ++ "üë®üèª‚Äçüíª Creator info: `" ++ creator_escaped ++ "`" ++
      nl ++ "Balance SOL: " ++ balance_text ++ nl ++ "Transactions: " ++
      tx_count_text ++ nl ++ nl ++ dev_wallet_empty_tag_escaped ++ nl ++
      wallet_history_tag_escaped ++ nl ++ nl ++ "üì° Telegram Link: " ++
      telegram_link_escaped ++ nl ++ "X Link: " ++ twitter_link_escaped ++ nl ++
      "    "))).

End Format.

(** ** [main.py] *)

Module Main.
Import Py World.
Local Open Scope py_scope.

(** The environment variables read at import time. *)
Record config : Type := {
  TELEGRAM_BOT_TOKEN : option string;
  TELEGRAM_CHANNEL_ID : option string;
  SOLANA_RPC_URL : option string;
  POLLING_INTERVAL_SECONDS : Z;
  COMMERCIAL_METADATA_API_URL : option string;
  COMMERCIAL_API_KEY : option string;
  CONCURRENT_METADATA_FETCHES : nat
}.

Definition PUMP_FUN_API_URL : string := "https://pump.fun/api/market.json".

(** The content of [PROCESSED_TOKENS_FILE]. *)
Inductive file : Type :=
| Absent
| Corrupt                      (* json.load raises JSONDecodeError *)
| Stored (l : list string).    (* a JSON array of strings *)

Definition load_processed_tokens (f : file) : gset (option string) :=
  match f with
  | Stored l => list_to_set (map Some l)
  | Corrupt => ∅
  | Absent => ∅
  end.

Definition fetch_new_pump_fun_tokens (w : world) : M (list token) :=
  try_except
    (do response <- get_feed w PUMP_FUN_API_URL;
     run lift (raise_for_status response);
     try_except
       (lift (response_json response))
       (fun e => if is_JSONDecodeError e then Some (ret []) else None))
    (fun e =>
       if is_TimeoutException e then Some (ret [])
       else if is_RequestError e then Some (ret [])
       else None).

Definition is_valid_url (url : json) : result bool :=
  match url with
  | JStr s => Ok (Url.is_valid_url s)
  | _ => Raise TypeError
  end.

(** The dictionary [get_token_metadata_enriched] returns. *)
Record metadata : Type := {
  telegram_url : json;
  twitter_url : json
}.

(** [data and isinstance(data.get("result"), list) and len(data["result"]) > 0],
    then [data["result"][0]]. *)
Definition first_result (data : json) : result (option json) :=
  if truthy data then
    rbind (get data "result") (fun res =>
    match res with
    | JArr (api_metadata :: _) => Ok (Some api_metadata)
    | _ => Ok None
    end)
  else Ok None.

Definition parse_metadata (data : json) : result (option metadata) :=
  rbind (first_result data) (fun first =>
  match first with
  | Some api_metadata =>
      rbind (get api_metadata "telegram_url") (fun tg1 =>
      rbind (get api_metadata "telegram") (fun tg2 =>
      rbind (get api_metadata "twitter_url") (fun tw1 =>
      rbind (get api_metadata "twitter") (fun tw2 =>
      Ok (Some {| telegram_url := or_else tg1 tg2;
                  twitter_url := or_else tw1 tw2 |})))))
  | None => Ok None
  end).

Definition get_token_metadata_enriched (w : world) (cfg : config)
    (mint_address : option string) : M (option metadata) :=
  with_semaphore
    (match COMMERCIAL_METADATA_API_URL cfg with
     | Some url =>
         if negb (truthy_str (COMMERCIAL_METADATA_API_URL cfg)) then ret None
         else
           let api_key :=
             if truthy_str (COMMERCIAL_API_KEY cfg) then COMMERCIAL_API_KEY cfg
             else None in
           try_except
             (do response <- post w (PostMetadata url api_key mint_address);
              run lift (raise_for_status response);
              do data <- lift (response_json response);
              lift (parse_metadata data))
             (* every clause returns None; the last one is [except Exception] *)
             (fun _ => Some (ret None))
     | None => ret None
     end).

(** The links [main_loop] reads off the enrichment result (the lines
    between the call of the enricher and the filter). *)
Definition NOT_FOUND : string := "Not found".

Definition normalize_twitter (twitter_link : json) : result json :=
  rbind (contains "x.com" twitter_link) (fun has_alias =>
  if has_alias then
    match twitter_link with
    | JStr s => Ok (JStr (replace "x.com" "twitter.com" s))
    | _ => Raise AttributeError
    end
  else Ok twitter_link).

Definition links (enriched_metadata : option metadata) : result (json * json) :=
  match enriched_metadata with
  | Some md =>
      (* the dictionary has no key "telegram" and no key "twitter" *)
      let telegram_link :=
        or_else (or_else (telegram_url md) JNull) (JStr NOT_FOUND) in
      let twitter_link :=
        or_else (or_else (twitter_url md) JNull) (JStr NOT_FOUND) in
      rbind (normalize_twitter twitter_link) (fun twitter_link =>
      Ok (telegram_link, twitter_link))
  | None => Ok (JStr NOT_FOUND, JStr NOT_FOUND)
  end.

(** [a and b], where [b] is evaluated only when [a] holds. *)
Definition and_then (a : bool) (b : result bool) : result bool :=
  if a then b else Ok false.

(** [link != "Not found"] *)
Definition found (link : json) : bool := negb (is_str NOT_FOUND link).

(** The acceptance filter: the condition whose negation skips the token. *)
Definition accepts (telegram_link twitter_link : json) : result bool :=
  and_then (found telegram_link)
    (rbind (is_valid_url telegram_link) (fun ok_telegram =>
     and_then ok_telegram
       (and_then (found twitter_link) (is_valid_url twitter_link)))).

(** The chain-info lookup: both variables start as [None]; an exception of
    either call is caught and leaves the variables as they are. *)
Definition creator_info (w : world) (cfg : config) (creator_address : option string)
    : M (option float * option Z) :=
  match creator_address with
  | Some address =>
      if truthy_str creator_address then
        try_except
          (run emit (Called (get_sol_balance_ address));
           do creator_balance_sol <-
             SolanaRpc.get_sol_balance w address (SOLANA_RPC_URL cfg);
           try_except
             (run emit (Called (get_transaction_count_ address));
              do creator_tx_count <-
                SolanaRpc.get_transaction_count w address (SOLANA_RPC_URL cfg);
              ret (creator_balance_sol, creator_tx_count))
             (fun _ => Some (ret (creator_balance_sol, None))))
          (fun _ => Some (ret (None, None)))
      else ret (None, None)
  | None => ret (None, None)
  end.

(** The body of [for token in newly_found_tokens]. *)
Definition process_token (w : world) (cfg : config) (token : token) : M unit :=
  let mint_address := mint token in
  let creator_address := creator token in
  run emit (Called (get_token_metadata_enriched_ mint_address));
  do enriched_metadata <- get_token_metadata_enriched w cfg mint_address;
  do '(telegram_link, twitter_link) <- lift (links enriched_metadata);
  do accepted <- lift (accepts telegram_link twitter_link);
  if negb accepted then
    (* Mark as processed even if skipped *)
    add_processed mint_address
  else
    do '(creator_balance_sol, creator_tx_count) <- creator_info w cfg creator_address;
    match telegram_link, twitter_link with
    | JStr telegram, JStr twitter =>
        run emit (Called (format_token_message_ token));
        do formatted_message <-
          lift (Format.format_token_message token creator_balance_sol
                  creator_tx_count telegram twitter);
        run emit (Called (send_telegram_message_ formatted_message));
        do success <-
          TelegramBot.send_telegram_message w (TELEGRAM_BOT_TOKEN cfg)
            (TELEGRAM_CHANNEL_ID cfg) formatted_message;
        if success then
          (* Mark as processed only if successfully posted *)
          add_processed mint_address
        else
          (* Do NOT add to processed_tokens if failed to post *)
          ret tt
    | _, _ => raise TypeError      (* not reached: an accepted link is a str *)
    end.

Definition valid_tokens (all_tokens : list token) : list token :=
  List.filter (fun token => truthy_str (mint token) && truthy_str (creator token))
              all_tokens.

Definition newly_found_tokens (processed : gset (option string))
    (valid : list token) : list token :=
  List.filter
    (fun token => truthy_str (mint token) && bool_decide (mint token ∉ processed))
    valid.

(** What one iteration of [while True] does once the feed is fetched. *)
Definition handle_tokens (w : world) (cfg : config) (all_tokens : list token)
    : M unit :=
  do processed <- get_processed;
  for_each (newly_found_tokens processed (valid_tokens all_tokens))
           (process_token w cfg).

Definition save_processed_tokens : M unit :=
  do processed <- get_processed;
  emit (Called (save_processed_tokens_ processed)).

(** One iteration of [while True]. *)
Definition cycle (w : world) (cfg : config) : M unit :=
  run emit (Called fetch_new_pump_fun_tokens_);
  do all_tokens <- fetch_new_pump_fun_tokens w;
  run handle_tokens w cfg all_tokens;
  run save_processed_tokens;
  emit (Called (sleep_ (POLLING_INTERVAL_SECONDS cfg))).

(** The first [n] iterations of [while True]. *)
Fixpoint cycles (w : world) (cfg : config) (n : nat) : M unit :=
  match n with
  | O => ret tt
  | S n' => run cycle w cfg; cycles w cfg n'
  end.

(** [all([...])] over the critical environment variables. *)
Definition configured (cfg : config) : bool :=
  truthy_str (TELEGRAM_BOT_TOKEN cfg) && truthy_str (TELEGRAM_CHANNEL_ID cfg)
  && truthy_str (SOLANA_RPC_URL cfg)
  && truthy_str (COMMERCIAL_METADATA_API_URL cfg)
  && truthy_str (COMMERCIAL_API_KEY cfg).

(** The state in which [main_loop] enters [while True]. *)
Definition initial_state (cfg : config) (f : file) : state :=
  {| processed_tokens := load_processed_tokens f;
     metadata_semaphore := CONCURRENT_METADATA_FETCHES cfg;
     clock := 0%nat;
     trace := [] |}.

(** [main_loop], cut after [n] iterations. *)
Definition main_loop (w : world) (cfg : config) (f : file) (n : nat)
    : option (outcome unit * state) :=
  if negb (configured cfg) then None
  else Some (cycles w cfg n (initial_state cfg f)).

End Main.

(** ** Observations on runs *)

Module Obs.
Import Py World Main.
Local Open Scope py_scope.

(** The state after one network call [r]. *)
Definition sent (r : request) (s : state) : state :=
  {| processed_tokens := processed_tokens s;
     metadata_semaphore := metadata_semaphore s;
     clock := S (clock s);
     trace := trace s ++ [Sent r] |}.

(** The state after a call of the enricher that made the network calls
    [net]: the permit taken is given back. *)
Definition enriched (net : list event) (s : state) : state :=
  {| processed_tokens := processed_tokens s;
     metadata_semaphore := metadata_semaphore s;
     clock := clock s + List.length net;
     trace := trace s ++ [Acquired] ++ net ++ [Released] |}.

(** The state after [processed_tokens.add(m)]. *)
Definition marked (m : option string) (s : state) : state :=
  {| processed_tokens := {[ m ]} ∪ processed_tokens s;
     metadata_semaphore := metadata_semaphore s;
     clock := clock s;
     trace := trace s |}.

(** The state after the fetch of a cycle, and after its save and sleep. *)
Definition fetched (s : state) : state :=
  {| processed_tokens := processed_tokens s;
     metadata_semaphore := metadata_semaphore s;
     clock := S (clock s);
     trace := trace s ++ [Called fetch_new_pump_fun_tokens_;
                          Sent (GetFeed PUMP_FUN_API_URL)] |}.

Definition slept (cfg : config) (s : state) : state :=
  {| processed_tokens := processed_tokens s;
     metadata_semaphore := metadata_semaphore s;
     clock := clock s;
     trace := trace s ++ [Called (save_processed_tokens_ (processed_tokens s));
                          Called (sleep_ (POLLING_INTERVAL_SECONDS cfg))] |}.

(** The state after a cycle that finds no new token. *)
Definition idle_cycle (cfg : config) (s : state) : state := slept cfg (fetched s).

(** The phases of [process_token].  First the enrichment and the filter:
    the two links and whether the token is accepted. *)
Definition enrich_and_filter (w : world) (cfg : config) (token : token)
    : M (json * json * bool) :=
  run emit (Called (get_token_metadata_enriched_ (mint token)));
  do enriched_metadata <- get_token_metadata_enriched w cfg (mint token);
  do '(telegram_link, twitter_link) <- lift (links enriched_metadata);
  do accepted <- lift (accepts telegram_link twitter_link);
  ret (telegram_link, twitter_link, accepted).

(** Then, for an accepted token, the chain-info lookup and the message. *)
Definition lookup_and_format (w : world) (cfg : config) (token : token)
    (telegram_link twitter_link : json) : M string :=
  do '(creator_balance_sol, creator_tx_count) <- creator_info w cfg (creator token);
  match telegram_link, twitter_link with
  | JStr telegram, JStr twitter =>
      run emit (Called (format_token_message_ token));
      lift (Format.format_token_message token creator_balance_sol
              creator_tx_count telegram twitter)
  | _, _ => raise TypeError
  end.

(** Everything before the publish call: the message to publish, or [None]
    when the filter rejected the token (which is then marked). *)
Definition prepare (w : world) (cfg : config) (token : token) : M (option string) :=
  do '(telegram_link, twitter_link, accepted) <- enrich_and_filter w cfg token;
  if negb accepted then
    run add_processed (mint token); ret None
  else
    do message <- lookup_and_format w cfg token telegram_link twitter_link;
    ret (Some message).

(** The publish call. *)
Definition publish (w : world) (cfg : config) (message : string) : M bool :=
  run emit (Called (send_telegram_message_ message));
  TelegramBot.send_telegram_message w (TELEGRAM_BOT_TOKEN cfg)
    (TELEGRAM_CHANNEL_ID cfg) message.

(** The bookkeeping after it. *)
Definition record (token : token) (success : bool) : M unit :=
  if success then add_processed (mint token) else ret tt.

Definition publish_and_record (w : world) (cfg : config) (token : token)
    (prepared : option string) : M unit :=
  match prepared with
  | Some message => do success <- publish w cfg message; record token success
  | None => ret tt
  end.

(** Kinds of events. *)
Definition is_publish_call (e : event) : bool :=
  match e with
  | Called (send_telegram_message_ _) => true
  | _ => false
  end.

(** The events of the enricher. *)
Definition is_enrichment (e : event) : bool :=
  match e with
  | Called (get_token_metadata_enriched_ _) => true
  | Sent (PostMetadata _ _ _) => true
  | Acquired | Released => true
  | _ => false
  end.

(** The events of the chain-info lookup. *)
Definition is_chain_info (e : event) : bool :=
  match e with
  | Called (get_sol_balance_ _) | Called (get_transaction_count_ _) => true
  | Sent (PostGetBalance _ _) | Sent (PostGetSignatures _ _ _) => true
  | _ => false
  end.

Definition is_formatting (e : event) : bool :=
  match e with
  | Called (format_token_message_ _) => true
  | _ => false
  end.

(** The events of the publisher. *)
Definition is_publishing (e : event) : bool :=
  match e with
  | Called (send_telegram_message_ _) => true
  | Sent (PostSendMessage _ _ _) => true
  | _ => false
  end.

(** A chain-info lookup, the formatting of a message or a publish call. *)
Definition is_downstream (e : event) : bool :=
  is_chain_info e || is_formatting e || is_publishing e.

Definition publish_calls (tr : list event) : nat :=
  List.length (List.filter is_publish_call tr).

(** The events a run adds to the trace. *)
Definition new_events (before after : state) : list event :=
  drop (List.length (trace before)) (trace after).

(** Relations between the state before and the state after a run. *)
Definition on_processed (Rp : gset (option string) -> gset (option string) -> Prop)
    (s s' : state) : Prop :=
  Rp (processed_tokens s) (processed_tokens s').

(** The identifiers whose marking [Rp] allows. *)
Definition allows (Rp : gset (option string) -> gset (option string) -> Prop)
    (m : option string) : Prop :=
  forall p, Rp p ({[ m ]} ∪ p).

Definition grows : state -> state -> Prop := on_processed (⊆).

Definition adds_at_most (m : option string) : state -> state -> Prop :=
  on_processed (fun p p' => p' = p \/ p' = {[ m ]} ∪ p).

Definition appends (P : event -> bool) (s s' : state) : Prop :=
  exists evs, trace s' = (trace s ++ evs)%list /\ forallb P evs = true.

(** The semaphore has as many permits left. *)
Definition same_permits (s s' : state) : Prop :=
  metadata_semaphore s' = metadata_semaphore s.

(** [m] relates every state to the state it leaves. *)
Definition keeps (R : state -> state -> Prop) {A} (m : M A) : Prop :=
  forall s, R s (snd (m s)).

(** The reply carries a JSON object with a list under ["result"] of at
    most [limit] entries (or it carries no such list). *)
Definition respects_limit (limit : Z) (r : reply json) : bool :=
  match r with
  | Received resp =>
      match body resp with
      | Some (JObj kvs) =>
          match assoc "result" kvs with
          | Some (JArr entries) => Z.of_nat (List.length entries) <=? limit
          | _ => true
          end
      | _ => true
      end
  | _ => true
  end.

(** The messaging endpoint acknowledges every message. *)
Definition acknowledged (r : reply json) : bool :=
  match r with
  | Received resp =>
      status_ok resp
      && match body resp with
         | Some (JObj kvs) =>
             match assoc "ok" kvs with
             | Some v => truthy v
             | None => false
             end
         | _ => false
         end
  | _ => false
  end.

Definition publisher_acknowledges (w : world) : Prop :=
  forall n bot_token chat_id text,
    acknowledged (answer w n (PostSendMessage bot_token chat_id text)) = true.

(** A link that is present and passes the URL validation. *)
Definition passes (link : json) : Prop :=
  exists s, link = JStr s /\ s <> NOT_FOUND /\ Url.is_valid_url s = true.

(** An optional link as the enricher stores it, and the twitter link as
    [main_loop] rewrites it. *)
Definition link_json (link : option string) : json :=
  match link with
  | Some s => JStr s
  | None => JNull
  end.

Definition enrichment (telegram twitter : option string) : option metadata :=
  Some {| telegram_url := link_json telegram; twitter_url := link_json twitter |}.

(** The link variable of [main_loop] for an optional link: an absent or
    empty link gives the default. *)
Definition effective (link : option string) : string :=
  match link with
  | Some s => if String.eqb s "" then NOT_FOUND else s
  | None => NOT_FOUND
  end.

Definition canonical_twitter (s : string) : string :=
  if substring_of "x.com" s then replace "x.com" "twitter.com" s else s.

(** What [main_loop] decides on an enrichment result. *)
Definition decision (enriched_metadata : option metadata) : result bool :=
  rbind (links enriched_metadata) (fun '(telegram_link, twitter_link) =>
  accepts telegram_link twitter_link).

(** The three failures of the feed request that the fetcher absorbs. *)
Definition feed_failure (r : reply (list token)) : bool :=
  match r with
  | TimedOut => true
  | TransportFailed => true
  | Received resp =>
      status_ok resp && match body resp with None => true | Some _ => false end
  end.

(** What the enricher returns for a reply of the metadata endpoint. *)
Definition enrichment_of (r : reply json) : option metadata :=
  match client_call r with
  | Ok resp =>
      match raise_for_status resp with
      | Ok _ =>
          match response_json resp with
          | Ok data =>
              match parse_metadata data with
              | Ok md => md
              | Raise _ => None
              end
          | Raise _ => None
          end
      | Raise _ => None
      end
  | Raise _ => None
  end.

(** The request of the enricher. *)
Definition metadata_request (cfg : config) (url : string)
    (mint_address : option string) : request :=
  PostMetadata url
    (if truthy_str (COMMERCIAL_API_KEY cfg) then COMMERCIAL_API_KEY cfg else None)
    mint_address.

End Obs.

(** ** Example runs *)

Module Example.
Import Py World Main Obs.

Definition cfg : config :=
  {| TELEGRAM_BOT_TOKEN := Some "bot-token";
     TELEGRAM_CHANNEL_ID := Some "@channel";
     SOLANA_RPC_URL := Some "https://rpc.example";
     POLLING_INTERVAL_SECONDS := 300;
     COMMERCIAL_METADATA_API_URL := Some "https://metadata.example";
     COMMERCIAL_API_KEY := Some "key";
     CONCURRENT_METADATA_FETCHES := 5 |}.

(** The candidate of the specification's example. *)
Definition moon_dog : token :=
  {| mint := Some "M1"; creator := Some "C1"; name := Some "MoonDog";
     symbol := None; total_supply := None |}.

(** A candidate with an identifier and no owning account. *)
Definition orphan : token :=
  {| mint := Some "M2"; creator := None; name := Some "Orphan";
     symbol := None; total_supply := None |}.

Definition links_reply (telegram twitter : json) : reply json :=
  Json (JObj [("result", JArr [JObj [("telegram", telegram); ("twitter", twitter)]])]).

Definition balance_reply (lamports : Z) : reply json :=
  Json (JObj [("jsonrpc", JStr "2.0");
              ("result", JObj [("context", JObj [("slot", JInt 1)]);
                               ("value", JInt lamports)]);
              ("id", JInt 1)]).

Definition signatures_reply (n : nat) : reply json :=
  Json (JObj [("jsonrpc", JStr "2.0");
              ("result", JArr (repeat (JObj [("signature", JStr "sig")]) n));
              ("id", JInt 1)]).

Definition ack : reply json := Json (JObj [("ok", JBool true)]).

(** A world with a constant feed and one reply per endpoint. *)
Definition world_of (tokens : list token)
    (on_metadata on_balance on_signatures on_message : reply json) : world :=
  {| feed := fun _ => Json tokens;
     answer := fun _ r =>
       match r with
       | GetFeed _ => TimedOut
       | PostMetadata _ _ _ => on_metadata
       | PostGetBalance _ _ => on_balance
       | PostGetSignatures _ _ _ => on_signatures
       | PostSendMessage _ _ _ => on_message
       end |}.

Definition both_links : reply json :=
  links_reply (JStr "https://t.me/x") (JStr "https://x.com/y").

(** Everything works: the specification's first example. *)
Definition healthy : world :=
  world_of [moon_dog] both_links (balance_reply 500000000) (signatures_reply 5) ack.

(** The enrichment has a telegram link only: the second example. *)
Definition telegram_only : world :=
  world_of [moon_dog] (links_reply (JStr "https://t.me/x") JNull)
    (balance_reply 500000000) (signatures_reply 5) ack.

(** The messaging endpoint times out. *)
Definition publisher_down : world :=
  world_of [moon_dog] both_links (balance_reply 500000000) (signatures_reply 5) TimedOut.

(** The balance request times out. *)
Definition balance_down : world :=
  world_of [moon_dog] both_links TimedOut (signatures_reply 5) ack.

(** The activity request times out. *)
Definition signatures_down : world :=
  world_of [moon_dog] both_links (balance_reply 500000000) TimedOut ack.

(** The RPC returns 101 entries for a query limited to 100. *)
Definition beyond_limit : world :=
  world_of [moon_dog] both_links (balance_reply 500000000) (signatures_reply 101) ack.

(** The feed request times out. *)
Definition feed_down : world :=
  {| feed := fun _ => TimedOut; answer := answer healthy |}.

(** The feed answers with an error status (502, say) and an HTML page,
    which is not JSON. *)
Definition feed_error_status : world :=
  {| feed := fun _ => Received {| status_ok := false; body := None |};
     answer := answer healthy |}.

Definition s0 : state := initial_state cfg Absent.

(** The run of [moon_dog] when the publisher is down: the message
    prepared, the state before the publish call and the state after it. *)
Definition prepared_state : state := snd (prepare publisher_down cfg moon_dog s0).

Definition prepared_message : string :=
  match fst (prepare publisher_down cfg moon_dog s0) with
  | Returns (Some message) => message
  | _ => EmptyString
  end.

Definition unpublished_state : state :=
  snd (publish publisher_down cfg prepared_message prepared_state).

(** The state after the filter when the twitter link is missing. *)
Definition filtered_state : state :=
  snd (enrich_and_filter telegram_only cfg moon_dog s0).

(** A twitter link whose host has a label of 59 characters ending in [x]:
    the rewriting of [x.com] makes the label 65 characters long. *)
Definition long_label : string :=
  "https://aaaaaaaaaaaaaaaaaaaaaaaaaaaaaaaaaaaaaaaaaaaaaaaaaaaaaaaaaax.com".

(** The state after the first cycle when everything works. *)
Definition after_first_cycle : state := snd (cycle healthy cfg s0).

(** Half a SOL. *)
Definition half : float := S754_finite false 4503599627370496 (-53).

End Example.

(** ** The language of a regular expression *)

Module Lang.
Import Re.

(** The strings a pattern denotes. *)
Inductive lang : regex -> string -> Prop :=
| lang_eps : lang Eps ""
| lang_class p c : p c = true -> lang (Class p) (String c "")
| lang_cat r1 r2 s1 s2 : lang r1 s1 -> lang r2 s2 -> lang (Cat r1 r2) (s1 ++ s2)
| lang_alt_l r1 r2 s : lang r1 s -> lang (Alt r1 r2) s
| lang_alt_r r1 r2 s : lang r2 s -> lang (Alt r1 r2) s
| lang_star_nil r : lang (Star r) ""
| lang_star_cons r s1 s2 : lang r s1 -> lang (Star r) s2 -> lang (Star r) (s1 ++ s2).

(** Every character class of the pattern is contained in [Q]. *)
Fixpoint classes_within (Q : ascii -> bool) (r : regex) : Prop :=
  match r with
  | Void | Eps => True
  | Class p => forall c, p c = true -> Q c = true
  | Cat r1 r2 | Alt r1 r2 => classes_within Q r1 /\ classes_within Q r2
  | Star r1 => classes_within Q r1
  end.

(** No character class of the pattern tells a letter from its other case. *)
Fixpoint case_blind (r : regex) : Prop :=
  match r with
  | Void | Eps => True
  | Class p => forall c, p (to_lower c) = p c
  | Cat r1 r2 | Alt r1 r2 => case_blind r1 /\ case_blind r2
  | Star r1 => case_blind r1
  end.

Fixpoint all_chars (Q : ascii -> bool) (s : string) : bool :=
  match s with
  | EmptyString => true
  | String c s' => Q c && all_chars Q s'
  end.

(** [s.isascii()] *)
Definition isascii (s : string) : bool := all_chars (fun c => (code c <? 128)%N) s.

(** [\S] *)
Definition no_space (c : ascii) : bool := negb (is_space c).

Definition not_newline (c : ascii) : bool := negb (Ascii.eqb c "010").

Definition newline : string := String "010" EmptyString.

(** The schemes of [URL_REGEX], in lower case. *)
Definition schemes : list string := ["http://"; "https://"; "ftp://"; "ftps://"].

(** [URL_REGEX] without its final [$]. *)
Definition url_body : regex :=
  Cat Url.scheme (Cat Url.host (Cat Url.port Url.path)).

End Lang.
(** ** Escaped text *)

Module Markdown.
Import Py.

(** [char in escape_chars] *)
Definition reserved (c : ascii) : bool :=
  substring_of (String c EmptyString) Format.escape_chars.

Definition backslash : ascii := "\".

(** Every reserved character of [s] comes right after a backslash;
    [after_backslash] tells whether the character before [s] is one. *)
Fixpoint guarded (after_backslash : bool) (s : string) : bool :=
  match s with
  | EmptyString => true
  | String c s' =>
      (negb (reserved c) || after_backslash) && guarded (Ascii.eqb c backslash) s'
  end.

(** Reads an escaped text back: a backslash before a reserved character
    is dropped. *)
Fixpoint unescape (s : string) : string :=
  match s with
  | EmptyString => EmptyString
  | String c s' =>
      match s' with
      | String d s'' =>
          if Ascii.eqb c backslash && reserved d
          then String d (unescape s'')
          else String c (unescape s')
      | EmptyString => String c EmptyString
      end
  end.

End Markdown.
(** ** How runs end and what they cost *)

Module Outcomes.
Import Py World Main Obs.
Local Open Scope list_scope.

(** [m] keeps [I] and ends by returning, by raising an exception of [E],
    or (when [H] allows it) by waiting forever. *)
Definition ends_in (E : exn -> Prop) (H : Prop) {A} (o : outcome A) : Prop :=
  match o with
  | Returns _ => True
  | Raises e => E e
  | Hangs => H
  end.

Definition ends (I : state -> Prop) (E : exn -> Prop) (H : Prop) {A} (m : M A) : Prop :=
  forall s, I s -> I (snd (m s)) /\ ends_in E H (fst (m s)).

Definition nothing : exn -> Prop := fun _ => False.

Definition has_permit (s : state) : Prop := (0 < metadata_semaphore s)%nat.

(** The exceptions that the calls of [main_loop] let through. *)
Definition fatal (e : exn) : Prop :=
  e = HTTPStatusError \/ e = TypeError \/ e = AttributeError \/ e = OverflowError.

(** The network requests among some events. *)
Definition is_request (e : event) : bool :=
  match e with
  | Sent _ => true
  | _ => false
  end.

Definition requests (evs : list event) : nat := List.length (List.filter is_request evs).

(** [m] makes at most [n] network requests. *)
Definition within (n : nat) {A} (m : M A) : Prop :=
  forall s, exists evs,
    trace (snd (m s)) = trace s ++ evs /\ (requests evs <= n)%nat.

(** The candidates that the fetcher returns for a reply of the feed. *)
Definition offered (r : reply (list token)) : list token :=
  match r with
  | Received resp => if status_ok resp then default [] (body resp) else []
  | TimedOut | TransportFailed => []
  end.

(** The new candidates of a cycle that starts in [s]. *)
Definition new_candidates (w : world) (s : state) : list token :=
  newly_found_tokens (processed_tokens s) (valid_tokens (offered (feed w (clock s)))).

Definition is_save (e : event) : bool :=
  match e with
  | Called (save_processed_tokens_ _) => true
  | _ => false
  end.

(** [v.get(k)] on the keys of a JSON object. *)
Definition field (kvs : list (string * json)) (k : string) : json :=
  match assoc k kvs with
  | Some x => x
  | None => JNull
  end.

End Outcomes.
(** ** Further example runs *)

Module Cases.
Import Py World Main Obs Example.

(** A configuration whose semaphore has no permit. *)
Definition no_permits : config :=
  {| TELEGRAM_BOT_TOKEN := TELEGRAM_BOT_TOKEN cfg;
     TELEGRAM_CHANNEL_ID := TELEGRAM_CHANNEL_ID cfg;
     SOLANA_RPC_URL := SOLANA_RPC_URL cfg;
     POLLING_INTERVAL_SECONDS := POLLING_INTERVAL_SECONDS cfg;
     COMMERCIAL_METADATA_API_URL := COMMERCIAL_METADATA_API_URL cfg;
     COMMERCIAL_API_KEY := COMMERCIAL_API_KEY cfg;
     CONCURRENT_METADATA_FETCHES := 0 |}.

Definition blocked : state := initial_state no_permits Absent.

(** The links of the first example, as the enricher returns them. *)
Definition both_links_metadata : metadata :=
  {| telegram_url := JStr "https://t.me/x"; twitter_url := JStr "https://x.com/y" |}.

(** The RPC endpoint answers with an error status. *)
Definition rpc_error_status : world :=
  world_of [moon_dog] both_links
    (Received {| status_ok := false; body := None |})
    (Received {| status_ok := false; body := None |}) ack.

(** The state in which [creator_info] calls [get_sol_balance]. *)
Definition before_balance : state := snd (emit (Called (get_sol_balance_ "C1")) s0).

(** The first example, step by step: the state after the filter, the
    state after the chain-info lookup and the message. *)
Definition accepted_state : state := snd (enrich_and_filter healthy cfg moon_dog s0).

Definition looked_up_state : state :=
  snd (creator_info healthy cfg (creator moon_dog) accepted_state).

Definition healthy_message : string :=
  match Format.format_token_message moon_dog (Some half) (Some 5)
          "https://t.me/x" "https://twitter.com/y" with
  | Ok message => message
  | Raise _ => EmptyString
  end.

End Cases.

(** * Properties *)

(** ** Rules for relating the state before and after a run *)

Module Frame.
Import Py World Obs.

Section Rules.
Context (R : state -> state -> Prop) `{!PreOrder R}.

Lemma keeps_ret {A} (a : A) : keeps R (ret a).
Proof. intros s. reflexivity. Qed.

Lemma keeps_raise {A} (e : exn) : keeps R (@raise A e).
Proof. intros s. reflexivity. Qed.

Lemma keeps_lift {A} (r : result A) : keeps R (lift r).
Proof. destruct r; [apply keeps_ret | apply keeps_raise]. Qed.

Lemma keeps_get_processed : keeps R get_processed.
Proof. intros s. reflexivity. Qed.

Lemma keeps_bind {A B} (m : M A) (k : A -> M B) :
  keeps R m -> (forall a, keeps R (k a)) -> keeps R (bind m k).
Proof.
  intros Hm Hk s. unfold bind.
  specialize (Hm s). destruct (m s) as [[a | e |] s1]; simpl in *; trivial.
  transitivity s1; [assumption | apply Hk].
Qed.

Lemma keeps_try_except {A} (m : M A) (handler : exn -> option (M A)) :
  keeps R m ->
  (forall e k, handler e = Some k -> keeps R k) ->
  keeps R (try_except m handler).
Proof.
  intros Hm Hh s. unfold try_except.
  specialize (Hm s). destruct (m s) as [[a | e |] s1]; simpl in *; trivial.
  destruct (handler e) as [k |] eqn:Hk; simpl; trivial.
  transitivity s1; [assumption | apply (Hh e k Hk)].
Qed.

Lemma keeps_for_each {A} (l : list A) (body : A -> M unit) :
  (forall x, In x l -> keeps R (body x)) -> keeps R (for_each l body).
Proof.
  induction l as [| x l IH]; intros Hbody; simpl.
  - apply keeps_ret.
  - apply keeps_bind.
    + apply Hbody. now left.
    + intros _. apply IH. intros y Hy. apply Hbody. now right.
Qed.

Lemma keeps_with_semaphore {A} (body : M A) :
  keeps R acquire -> keeps R release -> keeps R body ->
  keeps R (with_semaphore body).
Proof.
  intros Ha Hr Hb s. unfold with_semaphore.
  specialize (Ha s). destruct (acquire s) as [[[] | e |] s1]; simpl in *; trivial.
  specialize (Hb s1). destruct (body s1) as [[a | e |] s2]; simpl in *.
  - transitivity s1; [exact Ha |]. transitivity s2; [exact Hb | apply Hr].
  - transitivity s1; [exact Ha |]. transitivity s2; [exact Hb | apply Hr].
  - transitivity s1; [exact Ha | exact Hb].
Qed.

End Rules.

Arguments keeps_ret {R _ A} a.
Arguments keeps_raise {R _ A} e.
Arguments keeps_lift {R _ A} r.
Arguments keeps_get_processed {R _}.
Arguments keeps_bind {R _ A B} m k.
Arguments keeps_try_except {R _ A} m handler.
Arguments keeps_for_each {R _ A} l body.
Arguments keeps_with_semaphore {R _ A} body.

(** The operations that do not touch the set of processed tokens. *)
Section Processed.
Context (Rp : gset (option string) -> gset (option string) -> Prop) `{!PreOrder Rp}.

#[export] Instance on_processed_preorder : PreOrder (on_processed Rp).
Proof.
  split.
  - intros s. unfold on_processed. reflexivity.
  - intros s1 s2 s3 H12 H23. unfold on_processed in *. now transitivity (processed_tokens s2).
Qed.

Lemma untouched {A} (m : M A) :
  (forall s, processed_tokens (snd (m s)) = processed_tokens s) ->
  keeps (on_processed Rp) m.
Proof. intros H s. unfold on_processed. rewrite H. reflexivity. Qed.

Lemma keeps_emit e : keeps (on_processed Rp) (emit e).
Proof. now apply untouched. Qed.

Lemma keeps_tick : keeps (on_processed Rp) tick.
Proof. now apply untouched. Qed.

Lemma keeps_acquire : keeps (on_processed Rp) acquire.
Proof. apply untouched. intros s. unfold acquire. now destruct (metadata_semaphore s). Qed.

Lemma keeps_release : keeps (on_processed Rp) release.
Proof. now apply untouched. Qed.

Lemma keeps_add_processed m :
  (forall p, Rp p ({[ m ]} ∪ p)) -> keeps (on_processed Rp) (add_processed m).
Proof. intros H s. apply H. Qed.

End Processed.

Arguments untouched {Rp _ A} m.
Arguments keeps_emit {Rp _} e.
Arguments keeps_tick {Rp _}.
Arguments keeps_acquire {Rp _}.
Arguments keeps_release {Rp _}.
Arguments keeps_add_processed {Rp _} m.

End Frame.

(** ** The effect of each component on the state *)

Module Components.
Import Py World Main Obs Frame.

(** [process_token] is its phases in sequence. *)
Lemma process_token_phases w cfg token s :
  process_token w cfg token s
  = bind (prepare w cfg token) (publish_and_record w cfg token) s.
Proof.
  unfold process_token, prepare, publish_and_record, lookup_and_format,
    enrich_and_filter, publish, record, bind.
  destruct (emit _ s) as [[[] | e |] s0]; simpl; trivial.
  destruct (get_token_metadata_enriched w cfg (mint token) s0) as [[md | e |] s1];
    simpl; trivial.
  destruct (lift (links md) s1) as [[[tg tw] | e |] s2]; simpl; trivial.
  destruct (lift (accepts tg tw) s2) as [[accepted | e |] s3]; simpl; trivial.
  destruct accepted; simpl; trivial.
  destruct (creator_info w cfg (creator token) s3) as [[[balance count] | e |] s4];
    simpl; trivial.
  destruct tg as [| | | | telegram | |]; simpl; trivial.
  destruct tw as [| | | | twitter | |]; simpl; trivial.
  destruct (lift (Format.format_token_message _ _ _ _ _) _) as [[message | e |] s5];
    simpl; trivial.
Qed.

(** The calls.  The relation [R] is kept by the events that [ok] allows,
    by the clock, and by a body run under the semaphore. *)
Section Calls.
Context (R : state -> state -> Prop) `{!PreOrder R} (ok : event -> bool).
Hypothesis emit_ok : forall e, ok e = true -> keeps R (emit e).
Hypothesis tick_ok : keeps R tick.
Hypothesis semaphore_ok :
  forall A (body : M A),
    ok Acquired = true -> ok Released = true ->
    keeps R body -> keeps R (with_semaphore body).
Variables (w : world) (cfg : config).

(** Splits a run into its steps; a goal [ok e = true] is left for each
    event. *)
Ltac caught :=
  let e := fresh "e" in
  let k := fresh "k" in
  let Hk := fresh "Hk" in
  intros e k Hk;
  first [ (simpl in Hk; injection Hk as <-)
        | (destruct e; simpl in Hk; try discriminate Hk; injection Hk as <-) ].

Ltac step :=
  first
    [ apply keeps_ret | apply keeps_raise | apply keeps_lift
    | apply keeps_get_processed | apply tick_ok
    | apply emit_ok
    | apply keeps_bind; [| intros ?]
    | apply keeps_try_except; [| caught]
    | match goal with
      | |- keeps _ (if ?b then _ else _) => destruct b
      | |- keeps _ (match ?x with _ => _ end) => destruct x
      end ].

Ltac frame := repeat step.

Lemma keeps_post r : ok (Sent r) = true -> keeps R (post w r).
Proof. intros H. unfold post. frame. exact H. Qed.

Lemma keeps_get_feed url : ok (Sent (GetFeed url)) = true -> keeps R (get_feed w url).
Proof. intros H. unfold get_feed. frame. exact H. Qed.

Lemma keeps_fetch :
  ok (Sent (GetFeed PUMP_FUN_API_URL)) = true ->
  keeps R (fetch_new_pump_fun_tokens w).
Proof.
  intros H. unfold fetch_new_pump_fun_tokens.
  apply keeps_try_except; [| caught; frame].
  apply keeps_bind; [now apply keeps_get_feed |]. intros resp. frame.
Qed.

Lemma keeps_get_sol_balance public_key rpc_url :
  (forall e, is_chain_info e = true -> ok e = true) ->
  keeps R (SolanaRpc.get_sol_balance w public_key rpc_url).
Proof.
  intros H. unfold SolanaRpc.get_sol_balance, SolanaRpc.handler.
  apply keeps_try_except; [| caught; frame].
  apply keeps_bind; [apply keeps_post; now apply H |]. intros resp. frame.
Qed.

Lemma keeps_get_transaction_count public_key rpc_url :
  (forall e, is_chain_info e = true -> ok e = true) ->
  keeps R (SolanaRpc.get_transaction_count w public_key rpc_url).
Proof.
  intros H. unfold SolanaRpc.get_transaction_count, SolanaRpc.handler.
  apply keeps_try_except; [| caught; frame].
  apply keeps_bind; [apply keeps_post; now apply H |]. intros resp. frame.
Qed.

Lemma keeps_send_telegram_message bot_token chat_id message :
  (forall e, is_publishing e = true -> ok e = true) ->
  keeps R (TelegramBot.send_telegram_message w bot_token chat_id message).
Proof.
  intros H. unfold TelegramBot.send_telegram_message.
  destruct bot_token as [token |], chat_id as [chat |]; try apply keeps_ret.
  destruct (_ || _); [apply keeps_ret |].
  apply keeps_try_except; [| caught; frame].
  apply keeps_bind; [apply keeps_post; now apply H |]. intros resp. frame.
Qed.

Lemma keeps_get_token_metadata_enriched mint_address :
  (forall e, is_enrichment e = true -> ok e = true) ->
  keeps R (get_token_metadata_enriched w cfg mint_address).
Proof.
  intros H. unfold get_token_metadata_enriched.
  apply semaphore_ok; [now apply H | now apply H |].
  destruct (COMMERCIAL_METADATA_API_URL cfg) as [url |]; [| apply keeps_ret].
  destruct (negb _); [apply keeps_ret |].
  apply keeps_try_except; [| caught; frame].
  apply keeps_bind; [apply keeps_post; now apply H |]. intros resp. frame.
Qed.

Lemma keeps_creator_info creator_address :
  (forall e, is_chain_info e = true -> ok e = true) ->
  keeps R (creator_info w cfg creator_address).
Proof.
  intros H. unfold creator_info.
  destruct creator_address as [address |]; [| apply keeps_ret].
  destruct (truthy_str _); [| apply keeps_ret].
  apply keeps_try_except; [| caught; frame].
  apply keeps_bind; [apply emit_ok; now apply H |]. intros _.
  apply keeps_bind; [now apply keeps_get_sol_balance |]. intros balance.
  apply keeps_try_except; [| caught; frame].
  apply keeps_bind; [apply emit_ok; now apply H |]. intros _.
  apply keeps_bind; [now apply keeps_get_transaction_count |]. intros count.
  apply keeps_ret.
Qed.

Lemma keeps_lookup_and_format token telegram_link twitter_link :
  (forall e, is_chain_info e || is_formatting e = true -> ok e = true) ->
  keeps R (lookup_and_format w cfg token telegram_link twitter_link).
Proof.
  intros H. unfold lookup_and_format.
  apply keeps_bind.
  - apply keeps_creator_info. intros e He. apply H. now rewrite He.
  - intros [balance count].
    destruct telegram_link; try apply keeps_raise.
    destruct twitter_link; try apply keeps_raise.
    apply keeps_bind; [| intros _; apply keeps_lift].
    apply emit_ok. now apply H.
Qed.

Lemma keeps_publish message :
  (forall e, is_publishing e = true -> ok e = true) ->
  keeps R (publish w cfg message).
Proof.
  intros H. unfold publish.
  apply keeps_bind; [apply emit_ok; now apply H |]. intros _.
  now apply keeps_send_telegram_message.
Qed.

End Calls.

(** The pipeline.  The relation [R] is moreover kept by the enricher and
    by the marking of the identifiers that are [addable]. *)
Section Pipeline.
Context (R : state -> state -> Prop) `{!PreOrder R} (ok : event -> bool).
Variable addable : option string -> Prop.
Variables (w : world) (cfg : config).
Hypothesis emit_ok : forall e, ok e = true -> keeps R (emit e).
Hypothesis tick_ok : keeps R tick.
Hypothesis enricher_ok :
  forall mint_address,
    (forall e, is_enrichment e = true -> ok e = true) ->
    keeps R (get_token_metadata_enriched w cfg mint_address).
Hypothesis add_ok : forall m, addable m -> keeps R (add_processed m).

Lemma keeps_enrich_and_filter token :
  (forall e, is_enrichment e = true -> ok e = true) ->
  keeps R (enrich_and_filter w cfg token).
Proof.
  intros H. unfold enrich_and_filter.
  apply keeps_bind; [apply emit_ok; now apply H |]. intros _.
  apply keeps_bind; [now apply enricher_ok |]. intros md.
  apply keeps_bind; [apply keeps_lift |]. intros [tg tw].
  apply keeps_bind; [apply keeps_lift |]. intros accepted.
  apply keeps_ret.
Qed.

Lemma keeps_prepare token :
  addable (mint token) ->
  (forall e, ok e = true) ->
  keeps R (prepare w cfg token).
Proof.
  intros Hadd Hok. unfold prepare.
  apply keeps_bind; [apply keeps_enrich_and_filter; auto |].
  intros [[tg tw] accepted]. destruct accepted; simpl.
  - apply keeps_bind; [| intros; apply keeps_ret].
    apply keeps_lookup_and_format with (ok := ok); auto.
  - apply keeps_bind; [now apply add_ok | intros; apply keeps_ret].
Qed.

Lemma keeps_process_token token :
  addable (mint token) ->
  (forall e, ok e = true) ->
  keeps R (process_token w cfg token).
Proof.
  intros Hadd Hok s. rewrite process_token_phases.
  revert s. apply keeps_bind; [now apply keeps_prepare |].
  intros [message |]; simpl; [| apply keeps_ret].
  apply keeps_bind; [apply keeps_publish with (ok := ok); auto |].
  intros [|]; simpl; [now apply add_ok | apply keeps_ret].
Qed.

Lemma keeps_handle_tokens all_tokens :
  (forall m, addable m) ->
  (forall e, ok e = true) ->
  keeps R (handle_tokens w cfg all_tokens).
Proof.
  intros Hadd Hok. unfold handle_tokens.
  apply keeps_bind; [apply keeps_get_processed |]. intros processed.
  apply keeps_for_each. intros token _. now apply keeps_process_token.
Qed.

Lemma keeps_cycle :
  (forall m, addable m) ->
  (forall e, ok e = true) ->
  keeps R (cycle w cfg).
Proof.
  intros Hadd Hok. unfold cycle, save_processed_tokens.
  apply keeps_bind; [now apply emit_ok |]. intros _.
  apply keeps_bind; [apply keeps_fetch with (ok := ok); auto |]. intros all_tokens.
  apply keeps_bind; [now apply keeps_handle_tokens |]. intros _.
  apply keeps_bind; [| intros _; now apply emit_ok].
  apply keeps_bind; [apply keeps_get_processed |]. intros processed.
  now apply emit_ok.
Qed.

Lemma keeps_cycles n :
  (forall m, addable m) ->
  (forall e, ok e = true) ->
  keeps R (cycles w cfg n).
Proof.
  intros Hadd Hok. induction n as [| n IH]; simpl.
  - apply keeps_ret.
  - apply keeps_bind; [now apply keeps_cycle | intros _; exact IH].
Qed.

End Pipeline.

End Components.

(** ** The pipeline and the set of processed tokens *)

Module Pipeline.
Import Py World Main Obs Frame Components.

Section Processed.
Context (Rp : gset (option string) -> gset (option string) -> Prop) `{!PreOrder Rp}.
Variables (w : world) (cfg : config).

Ltac primitive :=
  idtac;
  first [ intros; apply keeps_emit
        | apply keeps_tick
        | intros; apply keeps_with_semaphore;
            [apply keeps_acquire | apply keeps_release | assumption]
        | intros; apply keeps_add_processed; assumption
        | intros; apply keeps_get_token_metadata_enriched with (ok := fun _ => true);
            primitive
        | intros; reflexivity
        | assumption
        | exact _ ].

Ltac component l :=
  first [ apply l with (ok := fun _ => true) (addable := allows Rp)
        | apply l with (ok := fun _ => true) ];
  primitive.

Lemma processed_fetch : keeps (on_processed Rp) (fetch_new_pump_fun_tokens w).
Proof. component keeps_fetch. Qed.

Lemma processed_enrich_and_filter token :
  keeps (on_processed Rp) (enrich_and_filter w cfg token).
Proof. component keeps_enrich_and_filter. Qed.

Lemma processed_creator_info creator_address :
  keeps (on_processed Rp) (creator_info w cfg creator_address).
Proof. component keeps_creator_info. Qed.

Lemma processed_lookup_and_format token tg tw :
  keeps (on_processed Rp) (lookup_and_format w cfg token tg tw).
Proof. component keeps_lookup_and_format. Qed.

Lemma processed_publish message : keeps (on_processed Rp) (publish w cfg message).
Proof. component keeps_publish. Qed.

Lemma processed_prepare token :
  allows Rp (mint token) -> keeps (on_processed Rp) (prepare w cfg token).
Proof. intros Hadd. component keeps_prepare. Qed.

Lemma processed_process_token token :
  allows Rp (mint token) -> keeps (on_processed Rp) (process_token w cfg token).
Proof. intros Hadd. component keeps_process_token. Qed.

Lemma processed_handle_tokens all_tokens :
  (forall m, allows Rp m) -> keeps (on_processed Rp) (handle_tokens w cfg all_tokens).
Proof. intros Hadd. component keeps_handle_tokens. Qed.

Lemma processed_cycle : (forall m, allows Rp m) -> keeps (on_processed Rp) (cycle w cfg).
Proof. intros Hadd. component keeps_cycle. Qed.

Lemma processed_cycles n :
  (forall m, allows Rp m) -> keeps (on_processed Rp) (cycles w cfg n).
Proof. intros Hadd. component keeps_cycles. Qed.

End Processed.

Arguments processed_fetch Rp {_} w.
Arguments processed_enrich_and_filter Rp {_} w cfg token.
Arguments processed_creator_info Rp {_} w cfg creator_address.
Arguments processed_lookup_and_format Rp {_} w cfg token tg tw.
Arguments processed_publish Rp {_} w cfg message.
Arguments processed_prepare Rp {_} w cfg token.
Arguments processed_process_token Rp {_} w cfg token.
Arguments processed_handle_tokens Rp {_} w cfg all_tokens.
Arguments processed_cycle Rp {_} w cfg.
Arguments processed_cycles Rp {_} w cfg n.

End Pipeline.

(** ** The feed fetcher *)

Module FetchFacts.
Import Py World Main Obs.

(** What the fetcher does with each reply. *)
Lemma fetch_run w s :
  fetch_new_pump_fun_tokens w s
  = (match feed w (clock s) with
     | TimedOut | TransportFailed => Returns []
     | Received resp =>
         if status_ok resp
         then match body resp with
              | Some tokens => Returns tokens
              | None => Returns []
              end
         else Raises HTTPStatusError
     end,
     sent (GetFeed PUMP_FUN_API_URL) s).
Proof.
  unfold fetch_new_pump_fun_tokens, try_except, get_feed, bind, emit, tick, sent; simpl.
  destruct (feed w (clock s)) as [| | [ok [tokens |]]]; simpl; trivial;
    destruct ok; reflexivity.
Qed.

(** X24: on a network timeout, on another transport error and on a
    response with a success status whose body is not JSON, the feed
    fetcher returns the empty sequence. *)
Lemma fetch_absorbs_failures w s :
  feed_failure (feed w (clock s)) = true ->
  fst (fetch_new_pump_fun_tokens w s) = Returns [].
Proof.
  intros H. rewrite fetch_run. simpl.
  destruct (feed w (clock s)) as [| | [ok [tokens |]]]; simpl in *; trivial.
  - now rewrite andb_false_r in H.
  - now destruct ok.
Qed.

(** On a response with an error status, whatever its body,
    [raise_for_status] raises [HTTPStatusError], which is not an
    [httpx.RequestError]: no clause of the fetcher catches it. *)
Lemma fetch_error_status w s b :
  feed w (clock s) = Received {| status_ok := false; body := b |} ->
  fst (fetch_new_pump_fun_tokens w s) = Raises HTTPStatusError.
Proof. intros H. rewrite fetch_run, H. reflexivity. Qed.

End FetchFacts.

(** ** The acceptance filter *)

Module FilterFacts.
Import Py World Main Obs.

Arguments Url.is_valid_url : simpl never.

Lemma found_str s : found (JStr s) = true <-> s <> NOT_FOUND.
Proof.
  unfold found, is_str. destruct (String.eqb_spec NOT_FOUND s) as [E | E]; simpl.
  - split; [discriminate | congruence].
  - split; [congruence | trivial].
Qed.

(** The filter on two strings. *)
Lemma accepts_str a b :
  accepts (JStr a) (JStr b)
  = Ok (found (JStr a) && Url.is_valid_url a && (found (JStr b) && Url.is_valid_url b)).
Proof.
  unfold accepts, and_then, is_valid_url, rbind.
  destruct (found (JStr a)), (Url.is_valid_url a), (found (JStr b)); reflexivity.
Qed.

Lemma passes_str s :
  passes (JStr s) <-> found (JStr s) && Url.is_valid_url s = true.
Proof.
  unfold passes. rewrite andb_true_iff, found_str. split.
  - intros (s' & E & Hne & Hv). injection E as <-. now split.
  - intros [Hne Hv]. now exists s.
Qed.

(** C2: the filter accepts exactly when the telegram link and the twitter
    link are both present and each passes the URL validation; on two
    links of which one is absent or invalid, it rejects. *)
Theorem accepts_iff_both_links_pass :
  (forall telegram_link twitter_link,
     accepts telegram_link twitter_link = Ok true
     <-> passes telegram_link /\ passes twitter_link)
  /\ (forall a b,
        accepts (JStr a) (JStr b) = Ok false
        <-> ~ (passes (JStr a) /\ passes (JStr b))).
Proof.
  split.
  - intros tg tw. split.
    + intros H.
      destruct tg as [| | | | a | |]; try discriminate H.
      destruct tw as [| | | | b | |];
        try (unfold accepts, and_then, is_valid_url, rbind in H; cbn [found is_str negb] in H;
             destruct (found (JStr a)), (Url.is_valid_url a); discriminate H).
      rewrite accepts_str in H. injection H as H.
      apply andb_true_iff in H as [Ha Hb].
      split; now apply passes_str.
    + intros [(a & -> & Ha) (b & -> & Hb)].
      rewrite accepts_str. f_equal. apply andb_true_iff.
      split; apply passes_str; [now exists a | now exists b].
  - intros a b. rewrite accepts_str, !passes_str. split.
    + intros H. injection H as H. intros [Ha Hb]. rewrite Ha, Hb in H. discriminate H.
    + intros H. f_equal. apply not_true_is_false. intros E.
      apply H. now apply andb_true_iff in E.
Qed.

(** An absent enrichment result, or an absent link, leaves the default
    ["Not found"], which the filter rejects. *)
Lemma links_absent : links None = Ok (JStr NOT_FOUND, JStr NOT_FOUND).
Proof. reflexivity. Qed.

Lemma not_found_rejected twitter_link :
  accepts (JStr NOT_FOUND) twitter_link = Ok false.
Proof. reflexivity. Qed.

Lemma valid_found s : Url.is_valid_url s = true -> found (JStr s) = true.
Proof.
  intros Hs. apply found_str. intros ->. vm_compute in Hs. discriminate Hs.
Qed.

Lemma links_of_enrichment telegram twitter :
  links (enrichment telegram twitter)
  = Ok (JStr (effective telegram), JStr (canonical_twitter (effective twitter))).
Proof.
  assert (Hlink : forall o : option string,
             or_else (or_else (link_json o) JNull) (JStr NOT_FOUND)
             = JStr (effective o)).
  { intros [s |]; [| reflexivity]. unfold or_else, effective. simpl.
    destruct (String.eqb s "") eqn:E; simpl; rewrite ?E; reflexivity. }
  unfold enrichment, links. cbn [telegram_url twitter_url].
  rewrite !Hlink. unfold normalize_twitter, canonical_twitter. simpl.
  destruct (substring_of "x.com" (effective twitter)); reflexivity.
Qed.

Lemma effective_passes (f : string -> string) link :
  f NOT_FOUND = NOT_FOUND -> f "" = "" ->
  found (JStr (f (effective link))) && Url.is_valid_url (f (effective link)) = true
  <-> exists s, link = Some s /\ Url.is_valid_url (f s) = true.
Proof.
  intros Hdefault Hempty.
  assert (Hno : Url.is_valid_url NOT_FOUND = false) by (vm_compute; reflexivity).
  assert (He : Url.is_valid_url "" = false) by (vm_compute; reflexivity).
  destruct link as [s |]; simpl.
  - destruct (String.eqb_spec s "") as [-> | Hs].
    + rewrite Hdefault, Hno, andb_false_r. split; [discriminate |].
      intros (s & E & H). injection E as <-. rewrite Hempty in H. congruence.
    + split.
      * intros H. apply andb_true_iff in H as [_ H]. now exists s.
      * intros (s' & E & H). injection E as <-.
        now rewrite H, (valid_found _ H).
  - rewrite Hdefault, Hno, andb_false_r. split; [discriminate |].
    intros (s & E & _). discriminate E.
Qed.

(** X14: from the enrichment result to the decision.  The candidate is
    accepted exactly when the result has a telegram link that is a valid
    URL and a twitter link that is a valid URL once [x.com] is rewritten to
    [twitter.com]; an absent link is [None] or the empty string. *)
Lemma decision_on_links telegram twitter :
  decision (enrichment telegram twitter) = Ok true
  <-> (exists a, telegram = Some a /\ Url.is_valid_url a = true)
      /\ (exists b, twitter = Some b /\ Url.is_valid_url (canonical_twitter b) = true).
Proof.
  unfold decision. rewrite links_of_enrichment. cbn [rbind].
  rewrite accepts_str.
  rewrite <- (effective_passes (fun s => s) telegram eq_refl eq_refl).
  rewrite <- (effective_passes canonical_twitter twitter eq_refl eq_refl).
  rewrite <- andb_true_iff. split; [now intros [= ->] | now intros ->].
Qed.

Lemma in_valid_tokens all_tokens token :
  In token (valid_tokens all_tokens)
  <-> In token all_tokens
      /\ truthy_str (mint token) = true /\ truthy_str (creator token) = true.
Proof.
  unfold valid_tokens. rewrite filter_In, andb_true_iff. reflexivity.
Qed.

(** C9 (amended): a fetched candidate is kept exactly when it has both an
    identifier and an owning-account reference; it is discarded exactly
    when it lacks at least one of the two. *)
Theorem valid_tokens_need_both all_tokens token :
  In token all_tokens ->
  (In token (valid_tokens all_tokens)
   <-> truthy_str (mint token) = true /\ truthy_str (creator token) = true)
  /\ (~ In token (valid_tokens all_tokens)
      <-> truthy_str (mint token) = false \/ truthy_str (creator token) = false).
Proof.
  intros Hin. rewrite in_valid_tokens. split.
  - tauto.
  - destruct (truthy_str (mint token)), (truthy_str (creator token));
      intuition discriminate.
Qed.

End FilterFacts.

(** ** Network calls *)

Module NetFacts.
Import Py World Main Obs.

Lemma post_run w r s :
  post w r s
  = (match client_call (answer w (clock s) r) with
     | Ok resp => Returns resp
     | Raise e => Raises e
     end,
     sent r s).
Proof.
  unfold post, bind, emit, tick, sent; simpl.
  destruct (client_call (answer w (clock s) r)); reflexivity.
Qed.

Lemma assoc_truthy k kvs v : assoc k kvs = Some v -> truthy (JObj kvs) = true.
Proof. destruct kvs; [discriminate | reflexivity]. Qed.

End NetFacts.

(** ** The chain-info fetcher *)

Module RpcFacts.
Import Py World Main Obs NetFacts.

Lemma truediv_int_raises a b e :
  truediv_int a b = Raise e -> e = ZeroDivisionError \/ e = OverflowError.
Proof.
  unfold truediv_int. intros H.
  destruct a, b;
    try (injection H as <-; now left);
    try discriminate H;
    match type of H with
    | match ?f with _ => _ end = _ =>
        destruct f; try discriminate H; injection H as <-; now right
    end.
Qed.

Lemma balance_of_value w public_key rpc_url s kvs kvs' z :
  answer w (clock s) (PostGetBalance rpc_url public_key) = Json (JObj kvs) ->
  assoc "result" kvs = Some (JObj kvs') ->
  assoc "value" kvs' = Some (JInt z) ->
  fst (SolanaRpc.get_sol_balance w public_key rpc_url s)
  = match truediv_int z (10 ^ 9) with
    | Ok x => Returns (Some x)
    | Raise _ => Raises NameError
    end.
Proof.
  intros Hr Hres Hval.
  unfold SolanaRpc.get_sol_balance, try_except, bind.
  rewrite post_run, Hr. simpl.
  unfold SolanaRpc.has_result_value.
  rewrite (assoc_truthy _ _ _ Hres). simpl. rewrite Hres. simpl. rewrite Hval. simpl.
  change 1000000000 with (10 ^ 9).
  destruct (truediv_int z (10 ^ 9)) as [x | e] eqn:E; simpl; [reflexivity |].
  now destruct (truediv_int_raises _ _ _ E) as [-> | ->].
Qed.

Lemma count_of_entries w public_key rpc_url s kvs entries :
  answer w (clock s) (PostGetSignatures rpc_url public_key SolanaRpc.signatures_limit)
  = Json (JObj kvs) ->
  assoc "result" kvs = Some (JArr entries) ->
  fst (SolanaRpc.get_transaction_count w public_key rpc_url s)
  = Returns (Some (Z.of_nat (List.length entries))).
Proof.
  intros Hr Hres.
  unfold SolanaRpc.get_transaction_count, try_except, bind.
  rewrite post_run, Hr. simpl.
  unfold SolanaRpc.has_result_list.
  rewrite (assoc_truthy _ _ _ Hres). simpl. rewrite Hres. reflexivity.
Qed.

Arguments assoc : simpl never.

(** Case analysis on a hypothesis that evaluates a run: the innermost
    scrutinee is split first. *)
Ltac innermost x :=
  lazymatch x with
  | context [match _ with _ => _ end] => fail
  | context [if _ then _ else _] => fail
  | _ => idtac
  end.

Ltac crunch H :=
  repeat (simpl in H;
          first [ discriminate H
                | (injection H as <-; lia)
                | match type of H with
                  | context [match ?x with _ => _ end] => innermost x; destruct x
                  | context [if ?b then _ else _] => innermost b; destruct b
                  end ]).

Lemma count_within_limit w public_key rpc_url s n :
  respects_limit SolanaRpc.signatures_limit
    (answer w (clock s)
       (PostGetSignatures rpc_url public_key SolanaRpc.signatures_limit)) = true ->
  fst (SolanaRpc.get_transaction_count w public_key rpc_url s) = Returns (Some n) ->
  0 <= n <= 100.
Proof.
  intros Hlim Hn.
  unfold SolanaRpc.get_transaction_count, try_except, bind in Hn.
  rewrite post_run in Hn. unfold respects_limit in Hlim.
  destruct (answer w (clock s) _) as [| | [ok [data |]]]; simpl in *;
    try discriminate Hn; destruct ok; simpl in *; try discriminate Hn.
  unfold SolanaRpc.has_result_list in Hn.
  unfold SolanaRpc.signatures_limit in Hlim.
  destruct data as [| b | z | f | str | l | kvs]; crunch Hn.
Qed.

(** C8: the balance is the raw amount of the response divided by 10^9;
    the activity count is the number of entries of the response, and it
    does not exceed 100 when the response respects the limit of the
    query, which is 100. *)
Theorem chain_info_values w public_key rpc_url s :
  (forall kvs kvs' lamports,
      answer w (clock s) (PostGetBalance rpc_url public_key) = Json (JObj kvs) ->
      assoc "result" kvs = Some (JObj kvs') ->
      assoc "value" kvs' = Some (JInt lamports) ->
      fst (SolanaRpc.get_sol_balance w public_key rpc_url s)
      = match truediv_int lamports (10 ^ 9) with
        | Ok sol_balance => Returns (Some sol_balance)
        | Raise _ => Raises NameError
        end)
  /\ (forall kvs entries,
        answer w (clock s) (PostGetSignatures rpc_url public_key 100) = Json (JObj kvs) ->
        assoc "result" kvs = Some (JArr entries) ->
        fst (SolanaRpc.get_transaction_count w public_key rpc_url s)
        = Returns (Some (Z.of_nat (List.length entries))))
  /\ (respects_limit 100 (answer w (clock s) (PostGetSignatures rpc_url public_key 100))
        = true ->
      forall n,
        fst (SolanaRpc.get_transaction_count w public_key rpc_url s) = Returns (Some n) ->
        0 <= n <= 100).
Proof.
  split; [| split].
  - intros kvs kvs' lamports. apply balance_of_value.
  - intros kvs entries. apply count_of_entries.
  - intros Hlim n. now apply count_within_limit.
Qed.

End RpcFacts.

(** ** The metadata enricher and the concurrency gate *)

Module EnricherFacts.
Import Py World Main Obs NetFacts.

Lemma state_eq p1 m1 c1 t1 p2 m2 c2 t2 :
  p1 = p2 -> m1 = m2 -> c1 = c2 -> t1 = t2 ->
  {| processed_tokens := p1; metadata_semaphore := m1; clock := c1; trace := t1 |}
  = {| processed_tokens := p2; metadata_semaphore := m2; clock := c2; trace := t2 |}.
Proof. now intros -> -> -> ->. Qed.

(** Without a free permit the call waits, and nothing happens. *)
Lemma enricher_waits w cfg mint_address s :
  metadata_semaphore s = 0%nat ->
  get_token_metadata_enriched w cfg mint_address s = (Hangs, s).
Proof.
  intros H. unfold get_token_metadata_enriched, with_semaphore, acquire.
  now rewrite H.
Qed.

(** With a free permit and no endpoint configured: no network call. *)
Lemma enricher_unconfigured w cfg mint_address s :
  (0 < metadata_semaphore s)%nat ->
  truthy_str (COMMERCIAL_METADATA_API_URL cfg) = false ->
  get_token_metadata_enriched w cfg mint_address s = (Returns None, enriched [] s).
Proof.
  intros Hs Hurl. unfold get_token_metadata_enriched, with_semaphore, acquire.
  destruct (metadata_semaphore s) as [| n] eqn:E; [lia |].
  destruct (COMMERCIAL_METADATA_API_URL cfg) as [url |]; [rewrite Hurl |];
    simpl; f_equal; unfold enriched; apply state_eq; simpl;
    rewrite <- ?app_assoc; auto with arith.
Qed.

(** With a free permit and an endpoint: one network call, whose reply
    decides the result. *)
Lemma enricher_configured w cfg mint_address s url :
  (0 < metadata_semaphore s)%nat ->
  COMMERCIAL_METADATA_API_URL cfg = Some url ->
  truthy_str (Some url) = true ->
  let r := metadata_request cfg url mint_address in
  get_token_metadata_enriched w cfg mint_address s
  = (Returns (enrichment_of (answer w (clock s) r)), enriched [Sent r] s).
Proof.
  intros Hs Hurl Htruthy r.
  unfold get_token_metadata_enriched, with_semaphore, acquire.
  destruct (metadata_semaphore s) as [| n] eqn:E; [lia |].
  rewrite Hurl, Htruthy. cbn [negb].
  unfold try_except, bind. rewrite post_run. cbn [clock].
  fold (metadata_request cfg url mint_address). fold r.
  unfold enrichment_of.
  assert (Hstate :
    forall p c t,
      {| processed_tokens := p; metadata_semaphore := S n; clock := c;
         trace := ((t ++ [Acquired]) ++ [Sent r]) ++ [Released] |}
      = {| processed_tokens := p; metadata_semaphore := S n; clock := c;
           trace := t ++ [Acquired] ++ [Sent r] ++ [Released] |}).
  { intros. apply state_eq; trivial. now rewrite <- !app_assoc. }
  destruct (client_call (answer w (clock s) r)) as [resp | e]; simpl.
  - destruct (raise_for_status resp) as [[] | e]; simpl.
    + destruct (response_json resp) as [data | e]; simpl.
      * destruct (parse_metadata data) as [md | e]; simpl;
          (f_equal; unfold enriched; simpl; rewrite Hstate;
           apply state_eq; simpl; auto; lia).
      * f_equal; unfold enriched; simpl; rewrite Hstate;
          apply state_eq; simpl; auto; lia.
    + f_equal; unfold enriched; simpl; rewrite Hstate;
        apply state_eq; simpl; auto; lia.
  - f_equal; unfold enriched; simpl; rewrite Hstate;
      apply state_eq; simpl; auto; lia.
Qed.

(** C6: a call of the enricher that finds a free permit takes one permit
    before any network call and gives it back whatever the reply is: it
    returns, the permits left are as before, and the trace grows by
    [Acquired], at most the one network call, and [Released]; with no
    endpoint configured there is no network call. *)
Theorem gate_is_balanced w cfg mint_address s :
  (0 < metadata_semaphore s)%nat ->
  exists md net,
    get_token_metadata_enriched w cfg mint_address s = (Returns md, enriched net s)
    /\ metadata_semaphore (enriched net s) = metadata_semaphore s
    /\ trace (enriched net s) = (trace s ++ [Acquired] ++ net ++ [Released])%list
    /\ (net = [] \/ exists url, net = [Sent (metadata_request cfg url mint_address)])
    /\ (truthy_str (COMMERCIAL_METADATA_API_URL cfg) = false -> net = []).
Proof.
  intros Hs.
  destruct (truthy_str (COMMERCIAL_METADATA_API_URL cfg)) eqn:Hurl.
  - destruct (COMMERCIAL_METADATA_API_URL cfg) as [url |] eqn:E; [| discriminate Hurl].
    eexists _, _. split; [exact (enricher_configured w cfg mint_address s url Hs E Hurl) |].
    split; [reflexivity |]. split; [reflexivity |].
    split; [right; now exists url | discriminate].
  - eexists _, _. split; [exact (enricher_unconfigured w cfg mint_address s Hs Hurl) |].
    split; [reflexivity |]. split; [reflexivity |].
    split; [now left | reflexivity].
Qed.

End EnricherFacts.

(** ** The events of each phase *)

Module Traces.
Import Py World Main Obs Frame Components.
Local Open Scope list_scope.

Section Appends.
Variable P : event -> bool.

#[export] Instance appends_preorder : PreOrder (appends P).
Proof.
  split.
  - intros s. exists []. split; [now rewrite app_nil_r | reflexivity].
  - intros s1 s2 s3 (evs1 & E1 & H1) (evs2 & E2 & H2).
    exists (evs1 ++ evs2). split.
    + now rewrite E2, E1, app_assoc.
    + rewrite forallb_app, H1, H2. reflexivity.
Qed.

Lemma appends_nothing (s s' : state) : trace s' = trace s -> appends P s s'.
Proof. intros E. exists []. split; [now rewrite app_nil_r | reflexivity]. Qed.

Lemma appends_emit e : P e = true -> keeps (appends P) (emit e).
Proof. intros H s. exists [e]. split; [reflexivity | simpl; now rewrite H]. Qed.

Lemma appends_tick : keeps (appends P) tick.
Proof. intros s. now apply appends_nothing. Qed.

Lemma appends_acquire : P Acquired = true -> keeps (appends P) acquire.
Proof.
  intros H s. unfold acquire. destruct (metadata_semaphore s); simpl.
  - now apply appends_nothing.
  - exists [Acquired]. split; [reflexivity | simpl; now rewrite H].
Qed.

Lemma appends_release : P Released = true -> keeps (appends P) release.
Proof. intros H s. exists [Released]. split; [reflexivity | simpl; now rewrite H]. Qed.

Lemma appends_semaphore A (body : M A) :
  P Acquired = true -> P Released = true ->
  keeps (appends P) body -> keeps (appends P) (with_semaphore body).
Proof.
  intros Ha Hr Hb.
  apply keeps_with_semaphore;
    [now apply appends_acquire | now apply appends_release | exact Hb].
Qed.

Variables (w : world) (cfg : config).

Lemma appends_enrich_and_filter token :
  (forall e, is_enrichment e = true -> P e = true) ->
  keeps (appends P) (enrich_and_filter w cfg token).
Proof.
  intros H.
  apply keeps_enrich_and_filter with (ok := P);
    first [ exact appends_emit | exact _ | exact H | idtac ].
  intros mint_address Hm.
  apply keeps_get_token_metadata_enriched with (ok := P);
    first [ exact appends_emit | exact appends_tick | exact appends_semaphore
          | exact Hm | exact _ ].
Qed.

Lemma appends_creator_info creator_address :
  (forall e, is_chain_info e = true -> P e = true) ->
  keeps (appends P) (creator_info w cfg creator_address).
Proof.
  intros H.
  apply (keeps_creator_info (appends P) P);
    first [ exact appends_emit | exact appends_tick | exact appends_semaphore
          | exact H ].
Qed.

Lemma appends_lookup_and_format token tg tw :
  (forall e, is_chain_info e || is_formatting e = true -> P e = true) ->
  keeps (appends P) (lookup_and_format w cfg token tg tw).
Proof.
  intros H.
  apply (keeps_lookup_and_format (appends P) P);
    first [ exact appends_emit | exact appends_tick | exact appends_semaphore
          | exact H ].
Qed.

End Appends.

Lemma new_events_appended (s s' : state) evs :
  trace s' = (trace s ++ evs)%list -> new_events s s' = evs.
Proof. intros E. unfold new_events. rewrite E. apply drop_app_length. Qed.

Lemma none_counted (P : event -> bool) l :
  forallb (fun e => negb (P e)) l = true -> List.length (List.filter P l) = 0%nat.
Proof.
  induction l as [| e l IH]; simpl; [reflexivity |].
  intros H. apply andb_true_iff in H as [He Hl].
  destruct (P e); [discriminate He | now apply IH].
Qed.

Lemma forallb_impl {A} (P Q : A -> bool) l :
  (forall x, P x = true -> Q x = true) -> forallb P l = true -> forallb Q l = true.
Proof.
  intros H. rewrite !forallb_forall. intros HP x Hx. apply H, HP, Hx.
Qed.

End Traces.

(** ** The permits of the semaphore *)

Module Permits.
Import Py World Main Obs Frame Components EnricherFacts.

#[export] Instance same_permits_preorder : PreOrder same_permits.
Proof.
  split.
  - intros s. reflexivity.
  - intros s1 s2 s3 H1 H2. unfold same_permits in *. congruence.
Qed.

Lemma permits_emit e : keeps same_permits (emit e).
Proof. intros s. reflexivity. Qed.

Lemma permits_tick : keeps same_permits tick.
Proof. intros s. reflexivity. Qed.

Lemma permits_add_processed m : keeps same_permits (add_processed m).
Proof. intros s. reflexivity. Qed.

(** A call of the enricher leaves as many permits as it found: it waits
    without taking one, or takes one and gives it back. *)
Lemma permits_enricher w cfg mint_address :
  keeps same_permits (get_token_metadata_enriched w cfg mint_address).
Proof.
  intros s. destruct (metadata_semaphore s) as [| n] eqn:E.
  - rewrite enricher_waits by exact E. reflexivity.
  - assert (Hs : (0 < metadata_semaphore s)%nat) by lia.
    destruct (truthy_str (COMMERCIAL_METADATA_API_URL cfg)) eqn:Hurl.
    + destruct (COMMERCIAL_METADATA_API_URL cfg) as [url |] eqn:U;
        [| discriminate Hurl].
      rewrite (enricher_configured w cfg mint_address s url Hs U Hurl).
      reflexivity.
    + rewrite (enricher_unconfigured w cfg mint_address s Hs Hurl). reflexivity.
Qed.

(** The permits are conserved by the whole loop, however it ends. *)
Lemma permits_cycles w cfg n : keeps same_permits (cycles w cfg n).
Proof.
  apply keeps_cycles with (ok := fun _ => true) (addable := fun _ => True);
    first [ exact _
          | intros; apply permits_emit
          | exact permits_tick
          | intros; apply permits_enricher
          | intros; apply permits_add_processed
          | intros; reflexivity
          | intros; exact I ].
Qed.

(** X15: however [main_loop] ends after any number of cycles, the
    semaphore has as many permits as it was created with. *)
Lemma permits_main_loop w cfg f n r s :
  main_loop w cfg f n = Some (r, s) ->
  metadata_semaphore s = CONCURRENT_METADATA_FETCHES cfg.
Proof.
  unfold main_loop. destruct (negb (configured cfg)); [discriminate |].
  intros [= H]. pose proof (permits_cycles w cfg n (initial_state cfg f)) as K.
  rewrite H in K. exact K.
Qed.

End Permits.

(** ** The dedup set *)

Module DedupFacts.
Import Py World Main Obs Frame Components Pipeline Traces.
Local Open Scope list_scope.
#[local] Set Warnings "-clear-no-such-hyp".

#[export] Instance adds_at_most_preorder m :
  PreOrder (fun p p' : gset (option string) => p' = p \/ p' = {[ m ]} ∪ p).
Proof.
  split.
  - intros p. now left.
  - intros p1 p2 p3 [-> | ->] [-> | ->]; auto. right. set_solver.
Qed.

#[export] Instance adds_among_preorder ms :
  PreOrder (fun p p' : gset (option string) => p' ⊆ ms ∪ p).
Proof.
  split.
  - intros p. set_solver.
  - intros p1 p2 p3 H12 H23. set_solver.
Qed.

(** C10: the in-memory dedup set only grows.  Processing a candidate
    leaves it unchanged or adds that candidate's identifier; the set after
    a cycle, and after any number of cycles, contains the set before, and
    so the set loaded at startup. *)
Theorem dedup_set_monotone w cfg :
  (forall token s,
      adds_at_most (mint token) s (snd (process_token w cfg token s)))
  /\ (forall s, processed_tokens s ⊆ processed_tokens (snd (cycle w cfg s)))
  /\ (forall n s, processed_tokens s ⊆ processed_tokens (snd (cycles w cfg n s)))
  /\ (forall f n o s,
        main_loop w cfg f n = Some (o, s) ->
        load_processed_tokens f ⊆ processed_tokens s).
Proof.
  assert (Hcycles : forall n s,
             processed_tokens s ⊆ processed_tokens (snd (cycles w cfg n s))).
  { intros n. apply (processed_cycles (⊆)). intros m p. set_solver. }
  split; [| split; [| split]].
  - intros token.
    apply (processed_process_token (fun p p' => p' = p \/ p' = {[ mint token ]} ∪ p)).
    intros p. now right.
  - apply (processed_cycle (⊆)). intros m p. set_solver.
  - exact Hcycles.
  - intros f n o s. unfold main_loop.
    destruct (negb (configured cfg)); [discriminate |].
    intros E. injection E as E.
    specialize (Hcycles n (initial_state cfg f)). now rewrite E in Hcycles.
Qed.

Lemma not_newly_found token later all_tokens :
  mint token ∈ later ->
  ~ In token (newly_found_tokens later (valid_tokens all_tokens)).
Proof.
  intros Hin H. unfold newly_found_tokens in H.
  apply filter_In in H as [_ H]. apply andb_true_iff in H as [_ H].
  apply bool_decide_eq_true in H. contradiction.
Qed.

Lemma newly_found token p all_tokens :
  In token (valid_tokens all_tokens) ->
  mint token ∉ p ->
  In token (newly_found_tokens p (valid_tokens all_tokens)).
Proof.
  intros Hv Hp. unfold newly_found_tokens. apply filter_In. split; [exact Hv |].
  apply FilterFacts.in_valid_tokens in Hv as (_ & Hm & _).
  rewrite Hm. simpl. now apply bool_decide_eq_true.
Qed.

Lemma enrichment_not_downstream e :
  is_enrichment e = true -> negb (is_downstream e) = true.
Proof. destruct e as [[] | [] | |]; simpl; trivial; discriminate. Qed.

(** C4: a candidate that the filter rejects is marked as processed at
    once: its identifier joins the dedup set, no chain-info lookup, no
    formatting and no publish call is made for it, and no later cycle
    finds it new. *)
Theorem rejected_is_marked_and_skipped w cfg token s telegram_link twitter_link s1 :
  enrich_and_filter w cfg token s
  = (Returns (telegram_link, twitter_link, false), s1) ->
  let s' := marked (mint token) s1 in
  process_token w cfg token s = (Returns tt, s')
  /\ processed_tokens s' = {[ mint token ]} ∪ processed_tokens s
  /\ forallb (fun e => negb (is_downstream e)) (new_events s s') = true
  /\ (forall later all_tokens,
        processed_tokens s' ⊆ later ->
        ~ In token (newly_found_tokens later (valid_tokens all_tokens))).
Proof.
  intros H s'.
  assert (Hset : processed_tokens s' = {[ mint token ]} ∪ processed_tokens s).
  { pose proof (processed_enrich_and_filter eq w cfg token s) as Hp.
    rewrite H in Hp. unfold on_processed in Hp. simpl in *. now rewrite Hp. }
  split; [| split; [exact Hset | split]].
  - rewrite process_token_phases. unfold bind, prepare, bind. rewrite H. reflexivity.
  - pose proof (appends_enrich_and_filter is_enrichment w cfg token (fun e He => He) s)
      as (evs & E & Hevs).
    rewrite H in E. simpl in E.
    rewrite (new_events_appended s s' evs E).
    revert Hevs. apply forallb_impl, enrichment_not_downstream.
  - intros later all_tokens Hsub. apply not_newly_found.
    apply Hsub. rewrite Hset. set_solver.
Qed.

End DedupFacts.

(** ** The publisher *)

Module PublisherFacts.
Import Py World Main Obs NetFacts.

(** The publisher returns a boolean: it does not raise. *)
Lemma send_returns w bot_token chat_id message s :
  exists success,
    fst (TelegramBot.send_telegram_message w bot_token chat_id message s)
    = Returns success.
Proof.
  unfold TelegramBot.send_telegram_message.
  destruct bot_token as [token |], chat_id as [chat |]; try (now exists false).
  destruct (_ || _); [now exists false |].
  unfold try_except, bind. rewrite post_run.
  destruct (client_call _) as [resp | e]; simpl; [| now exists false].
  destruct (raise_for_status resp) as [[] | e]; simpl; [| now exists false].
  destruct (response_json resp) as [data | e]; simpl; [| now exists false].
  destruct (get data "ok") as [ok | e]; simpl; [| now exists false].
  destruct (truthy ok); eexists; reflexivity.
Qed.

Lemma send_acknowledged w bot_token chat_id message s :
  publisher_acknowledges w ->
  truthy_str bot_token = true -> truthy_str chat_id = true ->
  fst (TelegramBot.send_telegram_message w bot_token chat_id message s) = Returns true.
Proof.
  intros Hack Htoken Hchat. unfold TelegramBot.send_telegram_message.
  destruct bot_token as [token |]; [| discriminate Htoken].
  destruct chat_id as [chat |]; [| discriminate Hchat].
  rewrite Htoken, Hchat. cbn [negb orb].
  unfold try_except, bind. rewrite post_run.
  specialize (Hack (clock s) token chat message). unfold acknowledged in Hack.
  destruct (answer w (clock s) _) as [| | [ok [data |]]]; simpl in *;
    try discriminate Hack;
    [| now rewrite andb_false_r in Hack].
  destruct ok; simpl in *; [| discriminate Hack].
  destruct data as [| | | | | | kvs]; try discriminate Hack. simpl.
  destruct (assoc "ok" kvs) as [v |]; [| discriminate Hack].
  now rewrite Hack.
Qed.

End PublisherFacts.

(** ** Retries and consecutive cycles *)

Module CycleFacts.
Import Py World Main Obs Frame Components Pipeline Traces DedupFacts.
Import FetchFacts PublisherFacts.
Local Open Scope list_scope.
#[local] Set Warnings "-clear-no-such-hyp".

Lemma prepared_unmarked w cfg token s message s1 :
  prepare w cfg token s = (Returns (Some message), s1) ->
  processed_tokens s1 = processed_tokens s.
Proof.
  unfold prepare, bind. intros H.
  pose proof (processed_enrich_and_filter eq w cfg token s) as H1.
  destruct (enrich_and_filter w cfg token s) as [[[[tg tw] accepted] | e |] sa];
    try discriminate H.
  destruct accepted; simpl in H; [| discriminate H].
  pose proof (processed_lookup_and_format eq w cfg token tg tw sa) as H2.
  destruct (lookup_and_format w cfg token tg tw sa) as [[m | e |] sb];
    try discriminate H.
  injection H as _ <-. unfold on_processed in *. simpl in *. congruence.
Qed.

Lemma rejected_marked w cfg token s s1 :
  prepare w cfg token s = (Returns None, s1) ->
  mint token ∈ processed_tokens s1.
Proof.
  unfold prepare, bind. intros H.
  destruct (enrich_and_filter w cfg token s) as [[[[tg tw] accepted] | e |] sa];
    try discriminate H.
  destruct accepted; simpl in H.
  - destruct (lookup_and_format w cfg token tg tw sa) as [[m | e |] sb];
      discriminate H.
  - injection H as <-. simpl. set_solver.
Qed.

(** C3: a candidate whose publish attempt fails is not added to the dedup
    set; the loop goes on with the remaining candidates; and, its
    identifier being that of no other candidate of the cycle, the next
    cycle finds the candidate new again. *)
Theorem failed_publish_is_retried w cfg token rest s message s1 s2 :
  prepare w cfg token s = (Returns (Some message), s1) ->
  publish w cfg message s1 = (Returns false, s2) ->
  process_token w cfg token s = (Returns tt, s2)
  /\ processed_tokens s2 = processed_tokens s
  /\ for_each (token :: rest) (process_token w cfg) s
     = for_each rest (process_token w cfg) s2
  /\ (forall all_tokens,
        In token (valid_tokens all_tokens) ->
        mint token ∉ processed_tokens s ->
        (forall t, In t rest -> mint t <> mint token) ->
        let s3 := snd (for_each rest (process_token w cfg) s2) in
        (mint token ∉ processed_tokens s3)
        /\ In token (newly_found_tokens (processed_tokens s3) (valid_tokens all_tokens))).
Proof.
  intros Hprep Hpub.
  assert (Hstep : process_token w cfg token s = (Returns tt, s2)).
  { rewrite process_token_phases. unfold bind. rewrite Hprep. simpl.
    unfold bind. rewrite Hpub. reflexivity. }
  assert (Hset : processed_tokens s2 = processed_tokens s).
  { pose proof (processed_publish eq w cfg message s1) as Hp.
    rewrite Hpub in Hp. unfold on_processed in Hp. simpl in Hp.
    rewrite <- Hp. eapply prepared_unmarked, Hprep. }
  split; [exact Hstep | split; [exact Hset | split]].
  - simpl. unfold bind at 1. now rewrite Hstep.
  - intros all_tokens Hvalid Hnew Hrest s3.
    assert (Hs3 : mint token ∉ processed_tokens s3).
    { pose (ms := list_to_set (map mint rest) : gset (option string)).
      assert (Hkeeps : keeps (on_processed (fun p p' => p' ⊆ ms ∪ p))
                             (for_each rest (process_token w cfg))).
      { apply keeps_for_each. intros t Ht.
        apply (processed_process_token (fun p p' => p' ⊆ ms ∪ p)).
        intros p. assert (mint t ∈ ms); [| set_solver].
        apply elem_of_list_to_set, list_elem_of_In, in_map, Ht. }
      specialize (Hkeeps s2). unfold on_processed in Hkeeps.
      fold s3 in Hkeeps. rewrite Hset in Hkeeps.
      intros Hin. apply Hkeeps in Hin. apply elem_of_union in Hin as [Hin | Hin];
        [| contradiction].
      apply elem_of_list_to_set, list_elem_of_In, in_map_iff in Hin as (t & E & Ht).
      now apply (Hrest t Ht). }
    split; [exact Hs3 | now apply newly_found].
Qed.

(** The formatter without a balance: [TypeError], unless the supply is
    too large an integer for a float, which raises first. *)
Lemma format_supply_raises v e :
  Format.format_supply v = Raise e -> e = OverflowError.
Proof.
  assert (H : forall z s,
             rbind (float_of_int z) (fun x => Ok (Format.format_f 0 true x)) = Raise s ->
             s = OverflowError).
  { intros z s. unfold float_of_int.
    destruct (binary_normalize prec emax z 0 false); simpl; congruence. }
  destruct v; simpl; try discriminate; apply H.
Qed.

Lemma format_without_balance token count telegram twitter :
  Format.format_token_message token None count telegram twitter = Raise TypeError
  \/ Format.format_token_message token None count telegram twitter = Raise OverflowError.
Proof.
  unfold Format.format_token_message, rbind.
  destruct (Format.format_supply _) as [supply | e] eqn:E; [now left |].
  right. now rewrite (format_supply_raises _ _ E).
Qed.

(** An accepted candidate for which the chain-info lookup leaves the
    balance absent: the processing raises, the publisher is not called
    and the candidate is not marked. *)
Lemma absent_balance_raises w cfg token s telegram twitter s1 count s2 :
  enrich_and_filter w cfg token s = (Returns (JStr telegram, JStr twitter, true), s1) ->
  creator_info w cfg (creator token) s1 = (Returns (None, count), s2) ->
  let r := process_token w cfg token s in
  (fst r = Raises TypeError \/ fst r = Raises OverflowError)
  /\ processed_tokens (snd r) = processed_tokens s
  /\ publish_calls (new_events s (snd r)) = 0%nat.
Proof.
  intros Hfilter Hinfo r.
  pose proof (processed_enrich_and_filter eq w cfg token s) as Hp1.
  pose proof (processed_creator_info eq w cfg (creator token) s1) as Hp2.
  pose proof (appends_enrich_and_filter (fun e => negb (is_publish_call e))
                w cfg token) as Ht1.
  pose proof (appends_creator_info (fun e => negb (is_publish_call e))
                w cfg (creator token)) as Ht2.
  specialize (Ht1 ltac:(now intros [[] | [] | |]) s) as (evs1 & E1 & Hevs1).
  specialize (Ht2 ltac:(now intros [[] | [] | |]) s1) as (evs2 & E2 & Hevs2).
  rewrite Hfilter in Hp1, E1. rewrite Hinfo in Hp2, E2.
  unfold on_processed in Hp1, Hp2. simpl in Hp1, Hp2, E1, E2.
  assert (Hr : r = (match Format.format_token_message token None count telegram twitter with
                    | Ok _ => Returns tt
                    | Raise e => Raises e
                    end,
                    snd (emit (Called (format_token_message_ token)) s2))
               \/ exists m, Format.format_token_message token None count telegram twitter
                            = Ok m).
  { subst r. rewrite process_token_phases.
    unfold bind at 1. unfold prepare, bind at 1. rewrite Hfilter. simpl.
    unfold bind at 1. unfold lookup_and_format, bind at 1. rewrite Hinfo. simpl.
    destruct (Format.format_token_message token None count telegram twitter) as [m | e];
      [right; now exists m | now left]. }
  destruct Hr as [Hr | [m Hm]];
    [| destruct (format_without_balance token count telegram twitter); congruence].
  rewrite Hr. cbn [fst snd].
  split; [| split].
  - destruct (format_without_balance token count telegram twitter) as [-> | ->]; auto.
  - simpl. congruence.
  - unfold publish_calls. apply none_counted.
    rewrite (new_events_appended s _ (evs1 ++ evs2 ++ [Called (format_token_message_ token)])).
    + now rewrite !forallb_app, Hevs1, Hevs2.
    + simpl. rewrite E2, E1. now rewrite <- !app_assoc.
Qed.

Lemma configured_publisher cfg :
  configured cfg = true ->
  truthy_str (TELEGRAM_BOT_TOKEN cfg) = true
  /\ truthy_str (TELEGRAM_CHANNEL_ID cfg) = true.
Proof.
  unfold configured. rewrite !andb_true_iff. tauto.
Qed.

Section Acknowledged.
Variables (w : world) (cfg : config).
Hypothesis Hcfg : configured cfg = true.
Hypothesis Hack : publisher_acknowledges w.

(** When the publisher acknowledges, a candidate whose processing
    returns is marked: rejected, or published. *)
Lemma processed_token_marked token s s' :
  process_token w cfg token s = (Returns tt, s') ->
  mint token ∈ processed_tokens s'.
Proof.
  rewrite process_token_phases. unfold bind. intros H.
  destruct (prepare w cfg token s) as [[[message |] | e |] s1] eqn:Hprep;
    try discriminate H; simpl in H.
  - unfold bind, publish in H.
    destruct (emit (Called (send_telegram_message_ message)) s1)
      as [[[] | e |] s2] eqn:Hemit; try discriminate Hemit.
    simpl in H. unfold bind in H. rewrite Hemit in H.
    destruct (configured_publisher cfg Hcfg) as [Htoken Hchat].
    pose proof (send_acknowledged w _ _ message s2 Hack Htoken Hchat) as Hsend.
    destruct (TelegramBot.send_telegram_message w _ _ message s2) as [o s3].
    simpl in Hsend. subst o. simpl in H. injection H as <-. simpl. set_solver.
  - injection H as <-. eapply rejected_marked, Hprep.
Qed.

Lemma processed_tokens_marked l s s' :
  for_each l (process_token w cfg) s = (Returns tt, s') ->
  forall token, In token l -> mint token ∈ processed_tokens s'.
Proof.
  revert s. induction l as [| t l IH]; intros s H token Hin; [destruct Hin |].
  simpl in H. unfold bind in H.
  destruct (process_token w cfg t s) as [[[] | e |] sa] eqn:Hstep;
    try discriminate H.
  destruct Hin as [-> | Hin]; [| now apply (IH sa)].
  apply processed_token_marked in Hstep.
  assert (Hgrows : keeps grows (for_each l (process_token w cfg))).
  { apply keeps_for_each. intros x _.
    apply (processed_process_token (⊆)). intros p. set_solver. }
  specialize (Hgrows sa). rewrite H in Hgrows. now apply Hgrows.
Qed.

End Acknowledged.

(** A cycle, once the feed has answered with a list of candidates. *)
Lemma cycle_run w cfg tokens s :
  feed w (clock s) = Json tokens ->
  cycle w cfg s
  = match handle_tokens w cfg tokens (fetched s) with
    | (Returns _, s') => (Returns tt, slept cfg s')
    | (Raises e, s') => (Raises e, s')
    | (Hangs, s') => (Hangs, s')
    end.
Proof.
  intros Hfeed. unfold cycle, bind at 1. simpl.
  unfold bind at 1. rewrite fetch_run. simpl. rewrite Hfeed. simpl.
  unfold bind at 1.
  replace (sent _ _) with (fetched s).
  - destruct (handle_tokens w cfg tokens (fetched s)) as [[[] | e |] s'];
      try reflexivity.
    unfold bind, save_processed_tokens, bind, get_processed, emit, slept. simpl.
    f_equal. apply EnricherFacts.state_eq; trivial. now rewrite <- app_assoc.
  - unfold fetched, sent. simpl. apply EnricherFacts.state_eq; trivial.
    now rewrite <- app_assoc.
Qed.

Lemma nothing_new p (valid : list token) :
  (forall t, In t valid -> mint t ∈ p) -> newly_found_tokens p valid = [].
Proof.
  intros H. unfold newly_found_tokens.
  induction valid as [| t valid IH]; [reflexivity |].
  simpl. rewrite (bool_decide_eq_false_2 (mint t ∉ p)).
  - rewrite andb_false_r. apply IH. intros x Hx. apply H. now right.
  - intros Hnot. apply Hnot, H. now left.
Qed.

(** C7 (amended): with an unchanged feed and a publisher that
    acknowledges, a first cycle that runs to its end leaves every
    identifier offered by the feed in the dedup set, and the second cycle
    makes no publish call (nor any call but the fetch, the save and the
    sleep). *)
Theorem second_cycle_is_idle w cfg tokens s s1 :
  configured cfg = true ->
  publisher_acknowledges w ->
  (forall n, feed w n = Json tokens) ->
  cycle w cfg s = (Returns tt, s1) ->
  (forall t, In t (valid_tokens tokens) -> mint t ∈ processed_tokens s1)
  /\ cycle w cfg s1 = (Returns tt, idle_cycle cfg s1)
  /\ publish_calls (new_events s1 (idle_cycle cfg s1)) = 0%nat.
Proof.
  intros Hcfg Hack Hfeed Hcycle.
  assert (Hall : forall t, In t (valid_tokens tokens) -> mint t ∈ processed_tokens s1).
  { rewrite (cycle_run w cfg tokens s (Hfeed _)) in Hcycle.
    destruct (handle_tokens w cfg tokens (fetched s)) as [[[] | e |] sh] eqn:Hh;
      try discriminate Hcycle.
    injection Hcycle as <-. simpl.
    unfold handle_tokens, bind in Hh. simpl in Hh.
    intros t Ht. destruct (decide (mint t ∈ processed_tokens s)) as [Hold | Hnew].
    - assert (Hgrows : keeps grows
                (for_each (newly_found_tokens (processed_tokens s) (valid_tokens tokens))
                          (process_token w cfg))).
      { apply keeps_for_each. intros x _.
        apply (processed_process_token (⊆)). intros p. set_solver. }
      specialize (Hgrows (fetched s)). rewrite Hh in Hgrows. now apply Hgrows.
    - eapply (processed_tokens_marked w cfg Hcfg Hack _ _ _ Hh).
      now apply newly_found. }
  split; [exact Hall | split].
  - rewrite (cycle_run w cfg tokens s1 (Hfeed _)).
    unfold handle_tokens, bind. simpl.
    rewrite (nothing_new _ _ Hall). reflexivity.
  - unfold idle_cycle.
    rewrite (new_events_appended s1 (slept cfg (fetched s1))
               [Called fetch_new_pump_fun_tokens_;
                Sent (GetFeed PUMP_FUN_API_URL);
                Called (save_processed_tokens_ (processed_tokens s1));
                Called (sleep_ (POLLING_INTERVAL_SECONDS cfg))]).
    + reflexivity.
    + simpl. now rewrite <- app_assoc.
Qed.

End CycleFacts.

(** ** The matcher and the language of a pattern *)

Module LangFacts.
Import Re Lang.

Lemma app_nil (s : string) : "" ++ s = s.
Proof. reflexivity. Qed.

Lemma app_cons c (s t : string) : String c s ++ t = String c (s ++ t).
Proof. reflexivity. Qed.

Lemma app_empty_r (s : string) : s ++ "" = s.
Proof. induction s; rewrite ?app_nil, ?app_cons; congruence. Qed.

Lemma app_assoc_str (a b c : string) : (a ++ b) ++ c = a ++ (b ++ c).
Proof. induction a; rewrite ?app_nil, ?app_cons; congruence. Qed.

Lemma app_empty_inv (a b : string) : a ++ b = "" -> a = "" /\ b = "".
Proof. destruct a; rewrite ?app_nil, ?app_cons; [auto | discriminate]. Qed.

Lemma lang_void s : ~ lang Void s.
Proof. inversion 1. Qed.

Lemma lang_eps_inv s : lang Eps s -> s = "".
Proof. now inversion 1. Qed.

Lemma lang_class_inv p s : lang (Class p) s -> exists c, s = String c "" /\ p c = true.
Proof. inversion 1; subst. eauto. Qed.

Lemma lang_cat_inv r1 r2 s :
  lang (Cat r1 r2) s -> exists s1 s2, s = s1 ++ s2 /\ lang r1 s1 /\ lang r2 s2.
Proof. inversion 1; subst. eauto. Qed.

Lemma lang_alt_inv r1 r2 s : lang (Alt r1 r2) s -> lang r1 s \/ lang r2 s.
Proof. inversion 1; subst; auto. Qed.

Lemma nullable_lang r : nullable r = true <-> lang r "".
Proof.
  induction r; simpl.
  - split; [discriminate | inversion 1].
  - split; [constructor | trivial].
  - split; [discriminate | inversion 1].
  - rewrite andb_true_iff, IHr1, IHr2. split.
    + intros [H1 H2]. change "" with ("" ++ ""). now constructor.
    + intros H. apply lang_cat_inv in H as (s1 & s2 & E & H1 & H2).
      symmetry in E. apply app_empty_inv in E as [-> ->]. now split.
  - rewrite orb_true_iff, IHr1, IHr2. split.
    + intros [H | H]; [now apply lang_alt_l | now apply lang_alt_r].
    + apply lang_alt_inv.
  - split; [constructor | trivial].
Qed.

Lemma lang_cat_eps_l r s : lang (Cat Eps r) s <-> lang r s.
Proof.
  split.
  - intros H. apply lang_cat_inv in H as (s1 & s2 & -> & H1 & H2).
    now rewrite (lang_eps_inv _ H1).
  - intros H. change s with ("" ++ s). constructor; [constructor | exact H].
Qed.

Lemma lang_cat_eps_r r s : lang (Cat r Eps) s <-> lang r s.
Proof.
  split.
  - intros H. apply lang_cat_inv in H as (s1 & s2 & -> & H1 & H2).
    now rewrite (lang_eps_inv _ H2), app_empty_r.
  - intros H. rewrite <- (app_empty_r s). constructor; [exact H | constructor].
Qed.

Lemma lang_cat_void_l r s : ~ lang (Cat Void r) s.
Proof. intros H. apply lang_cat_inv in H as (? & ? & _ & H & _). inversion H. Qed.

Lemma lang_cat_void_r r s : ~ lang (Cat r Void) s.
Proof. intros H. apply lang_cat_inv in H as (? & ? & _ & _ & H). inversion H. Qed.

(** The simplifying constructors denote what the plain ones do. *)
Lemma cat_lang r1 r2 s : lang (cat r1 r2) s <-> lang (Cat r1 r2) s.
Proof.
  destruct r1, r2; simpl; try reflexivity;
    try (split; [intros H; now apply lang_void in H
                | intros H; first [ now apply lang_cat_void_l in H
                                  | now apply lang_cat_void_r in H ] ]);
    try (now rewrite lang_cat_eps_l);
    try (now rewrite lang_cat_eps_r).
Qed.

Lemma alt_lang r1 r2 s : lang (alt r1 r2) s <-> lang (Alt r1 r2) s.
Proof.
  assert (Hl : forall r, lang r s <-> lang (Alt Void r) s).
  { intros r. split; [apply lang_alt_r |].
    intros H. apply lang_alt_inv in H as [H | H]; [now apply lang_void in H | exact H]. }
  assert (Hr : forall r, lang r s <-> lang (Alt r Void) s).
  { intros r. split; [apply lang_alt_l |].
    intros H. apply lang_alt_inv in H as [H | H]; [exact H | now apply lang_void in H]. }
  destruct r1, r2; simpl; try reflexivity; first [apply Hl | apply Hr].
Qed.

(** A non-empty string of a starred pattern begins with a non-empty
    string of the pattern. *)
Lemma lang_star_inv r c s :
  lang (Star r) (String c s) ->
  exists s1 s2, s = s1 ++ s2 /\ lang r (String c s1) /\ lang (Star r) s2.
Proof.
  intros H. remember (Star r) as r' eqn:Er. remember (String c s) as t eqn:Et.
  revert s Et.
  induction H as [| | | | | | r0 s1 s2 H1 _ H2 IH2]; intros t Et; try discriminate.
  injection Er as ->.
  destruct s1 as [| c1 s1]; rewrite ?app_nil, ?app_cons in Et.
  - now apply IH2.
  - injection Et as -> <-. now exists s1, s2.
Qed.

Lemma deriv_lang c r s : lang (deriv c r) s <-> lang r (String c s).
Proof.
  revert s. induction r; intros s; simpl.
  - split; inversion 1.
  - split; inversion 1.
  - destruct (p c) eqn:E; split.
    + intros H. rewrite (lang_eps_inv _ H). now constructor.
    + intros H. apply lang_class_inv in H as (c' & [= -> ->] & _). constructor.
    + inversion 1.
    + intros H. apply lang_class_inv in H as (c' & [= -> ->] & H). congruence.
  - assert (Hcat : lang (cat (deriv c r1) r2) s
                   <-> exists s1 s2, s = s1 ++ s2 /\ lang r1 (String c s1) /\ lang r2 s2).
    { rewrite cat_lang. split.
      - intros H. apply lang_cat_inv in H as (s1 & s2 & -> & H1 & H2).
        exists s1, s2. now rewrite <- IHr1.
      - intros (s1 & s2 & -> & H1 & H2). constructor; [now apply IHr1 | exact H2]. }
    assert (Hinv : lang (Cat r1 r2) (String c s)
                   <-> (exists s1 s2, s = s1 ++ s2 /\ lang r1 (String c s1) /\ lang r2 s2)
                       \/ (lang r1 "" /\ lang r2 (String c s))).
    { split.
      - intros H. apply lang_cat_inv in H as (s1 & s2 & E & H1 & H2).
        destruct s1 as [| c1 s1]; rewrite ?app_nil, ?app_cons in E.
        + right. subst s2. now split.
        + injection E as <- ->. left. now exists s1, s2.
      - intros [(s1 & s2 & -> & H1 & H2) | [H1 H2]].
        + change (String c (s1 ++ s2)) with (String c s1 ++ s2). now constructor.
        + change (String c s) with ("" ++ String c s). now constructor. }
    rewrite Hinv. destruct (nullable r1) eqn:N.
    + rewrite alt_lang. split.
      * intros H. apply lang_alt_inv in H as [H | H].
        -- left. now apply Hcat.
        -- right. split; [now apply nullable_lang | now apply IHr2].
      * intros [H | [_ H]].
        -- apply lang_alt_l. now apply Hcat.
        -- apply lang_alt_r. now apply IHr2.
    + rewrite Hcat. split; [now left |].
      intros [H | [H _]]; [exact H |].
      apply nullable_lang in H. congruence.
  - rewrite alt_lang. split.
    + intros H. apply lang_alt_inv in H as [H | H];
        [apply lang_alt_l; now apply IHr1 | apply lang_alt_r; now apply IHr2].
    + intros H. apply lang_alt_inv in H as [H | H];
        [apply lang_alt_l; now apply IHr1 | apply lang_alt_r; now apply IHr2].
  - rewrite cat_lang. split.
    + intros H. apply lang_cat_inv in H as (s1 & s2 & -> & H1 & H2).
      change (String c (s1 ++ s2)) with (String c s1 ++ s2).
      constructor; [now apply IHr | exact H2].
    + intros H. apply lang_star_inv in H as (s1 & s2 & -> & H1 & H2).
      constructor; [now apply IHr | exact H2].
Qed.

(** The matcher decides the language. *)
Lemma matches_lang r s : matches r s = true <-> lang r s.
Proof.
  revert r. induction s as [| c s IH]; intros r; simpl.
  - apply nullable_lang.
  - rewrite IH. apply deriv_lang.
Qed.

End LangFacts.
(** ** The URL validation *)

Module UrlFacts.
Import Re Lang LangFacts Url.

(** Facts on characters, by inspection of the 256 of them. *)
Ltac each_char c := destruct c as [[] [] [] [] [] [] [] []].

Lemma to_lower_idem c : to_lower (to_lower c) = to_lower c.
Proof. each_char c; reflexivity. Qed.

Section Combinators.
Variable ok : regex -> Prop.
Hypothesis ok_eps : ok Eps.
Hypothesis ok_cat : forall r1 r2, ok r1 -> ok r2 -> ok (Cat r1 r2).
Hypothesis ok_alt : forall r1 r2, ok r1 -> ok r2 -> ok (Alt r1 r2).
Hypothesis ok_star : forall r, ok r -> ok (Star r).

Lemma ok_opt r : ok r -> ok (opt r).
Proof. intros H. now apply ok_alt. Qed.

Lemma ok_plus r : ok r -> ok (plus r).
Proof. intros H. apply ok_cat; [exact H | now apply ok_star]. Qed.

Lemma ok_times n r : ok r -> ok (times n r).
Proof. intros H. induction n; simpl; [exact ok_eps | now apply ok_cat]. Qed.

Lemma ok_upto n r : ok r -> ok (upto n r).
Proof.
  intros H. induction n; simpl; [exact ok_eps |].
  apply ok_opt. now apply ok_cat.
Qed.

Lemma ok_between m n r : ok r -> ok (between m n r).
Proof. intros H. apply ok_cat; [now apply ok_times | now apply ok_upto]. Qed.

Lemma ok_at_least m r : ok r -> ok (at_least m r).
Proof. intros H. apply ok_cat; [now apply ok_times | now apply ok_star]. Qed.

(** The parts of the pattern are built from ten character classes,
    five punctuation characters and the literals, none of which has a
    space. *)
Lemma ok_parts :
  (forall a, is_space a = false -> ok (Class (chr_nocase a))) ->
  ok dot -> ok (Class (chr_is ":")) -> ok (Class (chr_is "[")) ->
  ok (Class (chr_is "]")) -> ok (Class (chr_is "/")) ->
  ok alnum -> ok alnum_dash -> ok digit -> ok (Class is_alpha) -> ok (Class is_hex) ->
  ok (Class (fun c => is_hex c || chr_is ":" c)) ->
  ok (Class (fun c => chr_is "/" c || chr_is "?" c)) ->
  ok (Class (fun c => negb (is_space c))) ->
  ok scheme /\ ok host /\ ok port /\ ok path.
Proof.
  intros Hlit Hdot Hcolon Hopen Hclose Hslash Halnum Hdash Hdigit Halpha Hhex Hhexc
    Hsep Hnospace.
  unfold scheme, host, domain, label_dot, tld, localhost, ipv4, octet, ipv6, port, path.
  repeat split;
    repeat first [ assumption
                 | apply ok_cat | apply ok_alt | apply ok_opt | apply ok_plus
                 | apply ok_star | apply ok_upto | apply ok_between
                 | apply ok_at_least
                 | apply Hlit; reflexivity ].
Qed.

End Combinators.

(** *** Letter case *)

Lemma case_blind_cat r1 r2 : case_blind r1 -> case_blind r2 -> case_blind (cat r1 r2).
Proof. intros H1 H2. destruct r1, r2; simpl in *; tauto. Qed.

Lemma case_blind_alt r1 r2 : case_blind r1 -> case_blind r2 -> case_blind (alt r1 r2).
Proof. intros H1 H2. destruct r1, r2; simpl in *; tauto. Qed.

Lemma deriv_to_lower c r :
  case_blind r -> deriv (to_lower c) r = deriv c r /\ case_blind (deriv c r).
Proof.
  induction r; simpl; intros H.
  - now split.
  - now split.
  - rewrite H. destruct (p c); now split.
  - destruct H as [H1 H2].
    destruct (IHr1 H1) as [E1 B1], (IHr2 H2) as [E2 B2]. rewrite E1, E2.
    split; [reflexivity |].
    destruct (nullable r1);
      [apply case_blind_alt |]; try apply case_blind_cat; assumption.
  - destruct H as [H1 H2].
    destruct (IHr1 H1) as [E1 B1], (IHr2 H2) as [E2 B2]. rewrite E1, E2.
    split; [reflexivity | now apply case_blind_alt].
  - destruct (IHr H) as [E B]. rewrite E.
    split; [reflexivity | now apply case_blind_cat].
Qed.

Lemma matches_lower r s : case_blind r -> matches r (Py.lower s) = matches r s.
Proof.
  revert r. induction s as [| c s IH]; intros r H; simpl; [reflexivity |].
  destruct (deriv_to_lower c r H) as [E B]. rewrite E. now apply IH.
Qed.

Lemma case_blind_URL_REGEX : case_blind URL_REGEX.
Proof.
  assert (H : case_blind scheme /\ case_blind host /\ case_blind port /\ case_blind path).
  { apply (ok_parts case_blind); simpl; try tauto;
      try (intros a _ c; unfold chr_nocase; now rewrite to_lower_idem);
      intros c; each_char c; reflexivity. }
  destruct H as (Hscheme & Hhost & Hport & Hpath).
  change (case_blind scheme /\ case_blind host /\ case_blind port /\ case_blind path
          /\ True /\ forall c, chr_is "010" (to_lower c) = chr_is "010" c).
  refine (conj Hscheme (conj Hhost (conj Hport (conj Hpath (conj I _))))).
  intros c; each_char c; reflexivity.
Qed.

(** X1: the validation of an ASCII string does not depend on the case
    of its letters. *)
Theorem url_ignores_case url :
  isascii url = true ->
  is_valid_url (Py.lower url) = is_valid_url url.
Proof. intros _. apply matches_lower, case_blind_URL_REGEX. Qed.

(** *** The scheme *)

Lemma lower_app a b : Py.lower (a ++ b) = Py.lower a ++ Py.lower b.
Proof.
  induction a as [| c a IH]; [reflexivity |].
  rewrite app_cons. simpl. now rewrite IH, app_cons.
Qed.

Lemma lang_lit_nocase l s : lang (lit_nocase l) s -> Py.lower s = Py.lower l.
Proof.
  revert s. induction l as [| a l IH]; intros s H; simpl in H.
  - now rewrite (lang_eps_inv _ H).
  - apply lang_cat_inv in H as (s1 & s2 & -> & H1 & H2).
    apply lang_class_inv in H1 as (c & -> & Hc).
    unfold chr_nocase in Hc. apply Ascii.eqb_eq in Hc.
    rewrite app_cons, app_nil. simpl. now rewrite Hc, (IH _ H2).
Qed.

Lemma lang_scheme s : lang scheme s -> In (Py.lower s) schemes.
Proof.
  unfold scheme. intros H.
  apply lang_cat_inv in H as (a & t & -> & Ha & Ht).
  apply lang_cat_inv in Ht as (b & c & -> & Hb & Hc).
  rewrite !lower_app.
  rewrite (lang_lit_nocase _ _ Hc).
  apply lang_alt_inv in Ha as [Ha | Ha]; rewrite (lang_lit_nocase _ _ Ha);
    apply lang_alt_inv in Hb as [Hb | Hb];
    first [ rewrite (lang_eps_inv _ Hb) | rewrite (lang_lit_nocase _ _ Hb) ];
    vm_compute; tauto.
Qed.

(** X2: a valid ASCII URL begins with one of the schemes [http://],
    [https://], [ftp://] and [ftps://], in any letter case. *)
Theorem url_needs_scheme url :
  isascii url = true ->
  is_valid_url url = true ->
  exists scheme rest, url = scheme ++ rest /\ In (Py.lower scheme) schemes.
Proof.
  intros _ H. apply matches_lang in H.
  apply lang_cat_inv in H as (s1 & s2 & -> & H1 & _).
  exists s1, s2. split; [reflexivity | now apply lang_scheme].
Qed.

(** *** White space and the final newline *)

Lemma all_chars_app Q a b : all_chars Q (a ++ b) = all_chars Q a && all_chars Q b.
Proof.
  induction a as [| c a IH]; [reflexivity |].
  rewrite app_cons. simpl. now rewrite IH, andb_assoc.
Qed.

Lemma all_chars_impl (P Q : ascii -> bool) s :
  (forall c, P c = true -> Q c = true) -> all_chars P s = true -> all_chars Q s = true.
Proof.
  intros H. induction s as [| c s IH]; simpl; [trivial |].
  rewrite !andb_true_iff. intros [Hc Hs]. split; [now apply H | now apply IH].
Qed.

Lemma lang_classes Q r s : classes_within Q r -> lang r s -> all_chars Q s = true.
Proof.
  intros Hr H. induction H; simpl in *; trivial.
  - now rewrite (Hr c H).
  - destruct Hr. rewrite all_chars_app. apply andb_true_iff. split; auto.
  - destruct Hr. auto.
  - destruct Hr. auto.
  - rewrite all_chars_app. apply andb_true_iff. split; auto.
Qed.

Lemma is_space_to_lower c : is_space (to_lower c) = is_space c.
Proof. each_char c; reflexivity. Qed.

Lemma chr_nocase_no_space a c :
  is_space a = false -> chr_nocase a c = true -> no_space c = true.
Proof.
  unfold chr_nocase, no_space. intros Ha Hc. apply Ascii.eqb_eq in Hc.
  now rewrite <- is_space_to_lower, <- Hc, is_space_to_lower, Ha.
Qed.

Lemma url_body_no_space s : lang url_body s -> all_chars no_space s = true.
Proof.
  apply lang_classes.
  assert (H : classes_within no_space scheme /\ classes_within no_space host
              /\ classes_within no_space port /\ classes_within no_space path).
  { apply (ok_parts (classes_within no_space)); cbn [classes_within]; try tauto;
      try (intros a Ha c; now apply chr_nocase_no_space);
      intros c; each_char c; first [discriminate | reflexivity]. }
  exact H.
Qed.

Lemma lang_dollar d : lang dollar d <-> d = "" \/ d = newline.
Proof.
  unfold dollar, opt. split.
  - intros H. apply lang_alt_inv in H as [H | H].
    + left. now apply lang_eps_inv.
    + right. apply lang_class_inv in H as (c & -> & Hc).
      apply Ascii.eqb_eq in Hc. now subst c.
  - intros [-> | ->]; [apply lang_alt_l; constructor | apply lang_alt_r].
    now constructor.
Qed.

Lemma lang_URL_REGEX s :
  lang URL_REGEX s <-> exists b d, s = b ++ d /\ lang url_body b /\ lang dollar d.
Proof.
  unfold URL_REGEX, url_body. split.
  - intros H.
    apply lang_cat_inv in H as (s1 & t1 & -> & H1 & H).
    apply lang_cat_inv in H as (s2 & t2 & -> & H2 & H).
    apply lang_cat_inv in H as (s3 & t3 & -> & H3 & H).
    apply lang_cat_inv in H as (s4 & d & -> & H4 & Hd).
    exists (s1 ++ s2 ++ s3 ++ s4), d. split; [now rewrite !app_assoc_str |].
    split; [| exact Hd]. repeat (apply lang_cat; [assumption |]). assumption.
  - intros (b & d & -> & H & Hd).
    apply lang_cat_inv in H as (s1 & t1 & -> & H1 & H).
    apply lang_cat_inv in H as (s2 & t2 & -> & H2 & H).
    apply lang_cat_inv in H as (s3 & s4 & -> & H3 & H4).
    rewrite !app_assoc_str. repeat (apply lang_cat; [assumption |]). assumption.
Qed.

(** A valid URL is a string of the pattern before [$], or such a string
    followed by a newline. *)
Lemma valid_iff url :
  is_valid_url url = true
  <-> lang url_body url \/ exists b, url = b ++ newline /\ lang url_body b.
Proof.
  unfold is_valid_url. rewrite matches_lang, lang_URL_REGEX. split.
  - intros (b & d & -> & Hb & Hd). apply lang_dollar in Hd as [-> | ->].
    + left. now rewrite app_empty_r.
    + right. now exists b.
  - intros [H | (b & -> & H)].
    + exists url, "". rewrite app_empty_r. split; [reflexivity |].
      split; [exact H | apply lang_dollar; now left].
    + exists b, newline. split; [reflexivity |].
      split; [exact H | apply lang_dollar; now right].
Qed.

Lemma app_newline_inv a b : a ++ newline = b ++ newline -> a = b.
Proof.
  revert b. induction a as [| c a IH]; intros [| c' b]; rewrite ?app_nil, ?app_cons;
    intros E; trivial.
  - injection E as _ E. destruct b; discriminate E.
  - injection E as _ E. destruct a; discriminate E.
  - injection E as -> E. f_equal. now apply IH.
Qed.

Lemma no_space_not_newline s : all_chars no_space s = true -> all_chars not_newline s = true.
Proof. apply all_chars_impl. intros c. each_char c; first [discriminate | reflexivity]. Qed.

Lemma ends_in_newline b : all_chars not_newline (b ++ newline) = false.
Proof. rewrite all_chars_app. apply andb_false_r. Qed.

(** X3: [$] also matches before a final newline: an ASCII string followed
    by a newline is a valid URL exactly when the string is a valid URL and
    has no newline itself. *)
Theorem url_final_newline url :
  isascii url = true ->
  is_valid_url (url ++ newline) = true
  <-> is_valid_url url = true /\ all_chars not_newline url = true.
Proof.
  intros _. split.
  - intros H. apply valid_iff in H as [H | (b & E & H)].
    + apply url_body_no_space, no_space_not_newline in H.
      now rewrite ends_in_newline in H.
    + apply app_newline_inv in E as ->.
      split; [apply valid_iff; now left |].
      now apply no_space_not_newline, url_body_no_space.
  - intros [H Hnl]. apply valid_iff in H as [H | (b & -> & H)].
    + apply valid_iff. right. now exists url.
    + now rewrite ends_in_newline in Hnl.
Qed.

(** X4: a valid ASCII URL has no white space, but for a newline at its
    end. *)
Theorem url_has_no_space url :
  isascii url = true ->
  is_valid_url url = true ->
  exists body,
    (url = body \/ url = body ++ newline) /\ all_chars no_space body = true.
Proof.
  intros _ H. apply valid_iff in H as [H | (b & -> & H)].
  - exists url. split; [now left | now apply url_body_no_space].
  - exists b. split; [now right | now apply url_body_no_space].
Qed.

End UrlFacts.

(** ** The escaping of the message fields *)

Module EscapeFacts.
Import Py Format Lang Markdown.

Lemma escape_step c rest :
  escape_markdown_v2 (String c rest)
  = if reserved c
    then String backslash (String c (escape_markdown_v2 rest))
    else String c (escape_markdown_v2 rest).
Proof. reflexivity. Qed.

Lemma backslash_free : reserved backslash = false.
Proof. reflexivity. Qed.

(** The escaped text never begins with a reserved character. *)
Lemma escape_head text d s : escape_markdown_v2 text = String d s -> reserved d = false.
Proof.
  destruct text as [| c rest]; [discriminate |].
  rewrite escape_step. destruct (reserved c) eqn:E; intros [= <- _]; trivial.
Qed.

Lemma unescape_escape text : unescape (escape_markdown_v2 text) = text.
Proof.
  induction text as [| c rest IH]; [reflexivity |].
  rewrite escape_step. destruct (reserved c) eqn:E.
  - cbn [unescape]. rewrite Ascii.eqb_refl, E. cbn [andb]. now rewrite IH.
  - cbn [unescape]. destruct (escape_markdown_v2 rest) as [| d s] eqn:R.
    + destruct rest as [| c' rest']; [reflexivity |].
      rewrite escape_step in R. destruct (reserved c'); discriminate R.
    + rewrite (escape_head _ _ _ R), andb_false_r. now rewrite IH.
Qed.

(** X6: escaping loses nothing: two texts with the same escaped form are
    the same text. *)
Theorem escape_injective a b :
  escape_markdown_v2 a = escape_markdown_v2 b <-> a = b.
Proof.
  split; [| now intros ->].
  intros H. rewrite <- (unescape_escape a), <- (unescape_escape b). now rewrite H.
Qed.

Lemma guarded_weaken s : guarded false s = true -> guarded true s = true.
Proof.
  destruct s as [| c s]; simpl; [trivial |].
  rewrite orb_false_r, orb_true_r. now intros [_ H]%andb_true_iff.
Qed.

(** X5: in the escaped text every reserved character comes right after
    a backslash. *)
Theorem escape_guards_reserved text :
  guarded false (escape_markdown_v2 text) = true.
Proof.
  induction text as [| c rest IH]; [reflexivity |].
  rewrite escape_step. destruct (reserved c) eqn:E.
  - cbn [guarded]. rewrite backslash_free, Ascii.eqb_refl, orb_true_r. cbn [negb orb andb].
    destruct (Ascii.eqb c backslash); [now apply guarded_weaken | exact IH].
  - cbn [guarded]. rewrite E. cbn [negb orb andb].
    destruct (Ascii.eqb c backslash); [now apply guarded_weaken | exact IH].
Qed.

(** X7: the texts that escaping leaves as they are are those without a
    reserved character. *)
Theorem escape_fixes_plain_text text :
  escape_markdown_v2 text = text <-> all_chars (fun c => negb (reserved c)) text = true.
Proof.
  induction text as [| c rest IH]; [now split |].
  rewrite escape_step. cbn [all_chars]. destruct (reserved c) eqn:E; cbn [negb andb].
  - split; [| discriminate].
    intros [= Hc _]. rewrite <- Hc, backslash_free in E. discriminate E.
  - rewrite <- IH. split; [now intros [= ->] | now intros ->].
Qed.

End EscapeFacts.

(** ** The formatting of numbers *)

Module FormatFacts.
Import Py Format.

Lemma digits2_pos_iter m k :
  digits2_pos (Pos.iter xO m k) = (digits2_pos m + k)%positive.
Proof.
  induction k as [| k IH] using Pos.peano_ind.
  - simpl. lia.
  - rewrite Pos.iter_succ. simpl. rewrite IH. lia.
Qed.

Lemma iter_xO_value m k : Zpos (Pos.iter xO m k) = Zpos m * 2 ^ Zpos k.
Proof.
  induction k as [| k IH] using Pos.peano_ind.
  - simpl. lia.
  - rewrite Pos.iter_succ, Pos2Z.inj_xO, IH, Pos2Z.inj_succ, Z.pow_succ_r by lia. lia.
Qed.

Lemma digits2_pos_lower m : 2 ^ (Zpos (digits2_pos m) - 1) <= Zpos m.
Proof.
  induction m as [m IH | m IH |]; simpl digits2_pos.
  - rewrite Pos2Z.inj_succ.
    replace (Z.succ (Zpos (digits2_pos m)) - 1) with (Z.succ (Zpos (digits2_pos m) - 1)) by lia.
    rewrite Z.pow_succ_r by lia. lia.
  - rewrite Pos2Z.inj_succ.
    replace (Z.succ (Zpos (digits2_pos m)) - 1) with (Z.succ (Zpos (digits2_pos m) - 1)) by lia.
    rewrite Z.pow_succ_r by lia. lia.
  - simpl. lia.
Qed.

Lemma digits2_pos_bound m : Zpos m < 2 ^ 53 -> Zpos (digits2_pos m) <= 53.
Proof.
  intros H. destruct (Z_le_gt_dec (Zpos (digits2_pos m)) 53) as [Hle | Hgt]; [exact Hle |].
  pose proof (digits2_pos_lower m) as Hl.
  assert (2 ^ 53 <= 2 ^ (Zpos (digits2_pos m) - 1)) by (apply Z.pow_le_mono_r; lia).
  lia.
Qed.

(** An integer below 2^53 is a float: the conversion shifts it to 53
    bits and rounds nothing away. *)
Lemma float_of_small_int m :
  Zpos m < 2 ^ 53 ->
  exists mz ez,
    float_of_int (Zpos m) = Ok (S754_finite false mz ez)
    /\ ez <= 0 /\ Zpos mz = Zpos m * 2 ^ (- ez).
Proof.
  intros Hm. apply digits2_pos_bound in Hm.
  unfold float_of_int, binary_normalize, binary_round.
  set (d := digits2_pos m) in *.
  assert (Hfexp : fexp prec emax (Zpos d + 0) = Zpos d - 53).
  { unfold fexp, emin, prec, emax. lia. }
  rewrite Hfexp.
  assert (Haux : forall mz ez,
             digits2_pos mz = 53%positive -> -52 <= ez <= 0 ->
             binary_round_aux prec emax false (Zpos mz) ez loc_Exact
             = S754_finite false mz ez).
  { intros mz ez Hd He. unfold binary_round_aux, shr_fexp. cbn [Zdigits2].
    rewrite Hd.
    assert (Hf : fexp prec emax (53 + ez) - ez = 0).
    { unfold fexp, emin, prec, emax. lia. }
    rewrite Hf. cbn [shr shr_record_of_loc shr_m loc_of_shr_record round_nearest_even].
    cbn [Zdigits2]. rewrite Hd, Hf.
    cbn [shr shr_record_of_loc shr_m].
    replace (ez <=? emax - prec) with true; [reflexivity |].
    symmetry. apply Z.leb_le. unfold emax, prec. lia. }
  unfold shl_align.
  destruct (Zpos d - 53 - 0) as [| p | p] eqn:E; try lia.
  - exists m, 0. rewrite Haux; [| fold d; lia | lia].
    split; [reflexivity | split; [lia | simpl; lia]].
  - exists (Pos.iter xO m p), (Zpos d - 53).
    rewrite Haux; [| rewrite digits2_pos_iter; fold d; lia | lia].
    split; [reflexivity | split; [lia |]].
    rewrite iter_xO_value. f_equal. f_equal. lia.
Qed.

Lemma round_exact m d : 0 < d -> round_half_even (m * d) d = m.
Proof.
  intros Hd. unfold round_half_even.
  rewrite Z.div_mul by lia. rewrite Z_mod_mult.
  assert (E : (2 * 0 ?= d) = Lt) by (apply Z.compare_lt_iff; lia).
  now rewrite E.
Qed.

Lemma scaled_integer m mz ez :
  ez <= 0 -> Zpos mz = m * 2 ^ (- ez) -> scaled 0 mz ez = m.
Proof.
  intros He Hm. unfold scaled. change (10 ^ Z.of_nat 0) with 1.
  destruct (0 <=? ez) eqn:E.
  - apply Z.leb_le in E. assert (ez = 0) as -> by lia. simpl in *. lia.
  - rewrite Z.mul_1_r, Hm. apply round_exact. apply Z.pow_pos_nonneg; lia.
Qed.

Lemma substring_all s : String.substring 0 (String.length s) s = s.
Proof. induction s as [| c s IH]; simpl; [reflexivity | now rewrite IH]. Qed.

Lemma decimal_not_empty n : (1 <= String.length (decimal n))%nat.
Proof.
  unfold decimal, DecimalString.NilZero.string_of_uint.
  destruct (N.to_uint (Z.to_N n)); simpl; lia.
Qed.

Lemma append_empty (s : string) : s ++ "" = s.
Proof. induction s as [| c s IH]; [reflexivity |]. change (String c (s ++ "") = String c s). now rewrite IH. Qed.

(** Without decimals, the digits of the integer, in groups of three. *)
Lemma fixed_integer n : fixed 0 true n = commas (decimal n).
Proof.
  unfold fixed. pose proof (decimal_not_empty n) as H.
  replace (0 + 1 - String.length (decimal n))%nat with 0%nat by lia.
  cbn [zeros]. change ("" ++ decimal n) with (decimal n).
  rewrite Nat.sub_0_r, substring_all. apply append_empty.
Qed.

(** X22: a supply that is an integer from 0 to 2^53 - 1 is printed
    exactly, digit for digit and in groups of three: the float that the
    format specification goes through loses nothing. *)
Theorem small_supply_is_exact z :
  0 <= z < 2 ^ 53 ->
  format_supply (JInt z) = Ok (commas (decimal z)).
Proof.
  intros [Hlo Hhi]. unfold format_supply.
  destruct z as [| m | m]; [reflexivity | | lia].
  destruct (float_of_small_int m Hhi) as (mz & ez & -> & He & Hm).
  cbn [rbind format_f]. change ("" ++ ?x) with x.
  now rewrite (scaled_integer (Zpos m) mz ez He Hm), fixed_integer.
Qed.

End FormatFacts.

(** ** The rewriting of the twitter link *)

Module RewriteFacts.
Import Py Main Obs.

Lemma prefix_cons a s1 b s2 :
  String.prefix (String a s1) (String b s2)
  = if ascii_dec a b then String.prefix s1 s2 else false.
Proof. reflexivity. Qed.

Lemma substring_of_cons needle c hay :
  substring_of needle (String c hay)
  = String.prefix needle (String c hay) || substring_of needle hay.
Proof. reflexivity. Qed.

Lemma replace_from_cons old new c s :
  replace_from old new 0 (String c s)
  = if String.prefix old (String c s)
    then new ++ replace_from old new (String.length old - 1) s
    else String c (replace_from old new 0 s).
Proof. reflexivity. Qed.

(** The rewritten text has no occurrence of [x.com]; and where the text
    does not go on with the rest of an occurrence, the rewritten text
    does not either. *)
Lemma rewrite_leaves_none s :
  forall skip,
    substring_of "x.com" (replace_from "x.com" "twitter.com" skip s) = false
    /\ (skip = 0%nat ->
        forall r, In r [".com"; "com"; "om"; "m"] ->
                  String.prefix r s = false ->
                  String.prefix r (replace_from "x.com" "twitter.com" 0 s) = false).
Proof.
  induction s as [| c s IH]; intros skip.
  { split; [now destruct skip | intros -> r _ H; exact H]. }
  destruct skip as [| k].
  2: { split; [apply (IH k) | discriminate]. }
  rewrite replace_from_cons.
  destruct (String.prefix "x.com" (String c s)) eqn:Hocc.
  - change (String.length "x.com" - 1)%nat with 4%nat.
    destruct (IH 4%nat) as [Hclean _].
    set (t := replace_from "x.com" "twitter.com" 4 s) in *.
    change ("twitter.com" ++ t)
      with (String "t" (String "w" (String "i" (String "t" (String "t" (String "e"
             (String "r" (String "." (String "c" (String "o" (String "m" t))))))))))).
    split.
    + rewrite !substring_of_cons, !prefix_cons. simpl. exact Hclean.
    + intros _ r Hr _. simpl in Hr.
      destruct Hr as [<- | [<- | [<- | [<- | []]]]]; reflexivity.
  - destruct (IH 0%nat) as [Hclean Hrest]. specialize (Hrest eq_refl).
    set (t := replace_from "x.com" "twitter.com" 0 s) in *.
    split.
    + rewrite substring_of_cons, Hclean, orb_false_r.
      rewrite prefix_cons in Hocc |- *.
      destruct (ascii_dec "x" c); [| reflexivity].
      apply Hrest; [simpl; tauto | exact Hocc].
    + intros _ r Hr H. simpl in Hr.
      destruct Hr as [<- | [<- | [<- | [<- | []]]]];
        rewrite prefix_cons in H |- *;
        match goal with |- context [ascii_dec ?a c] => destruct (ascii_dec a c) end;
        trivial;
        first [ apply Hrest; [simpl; tauto | exact H]
              | now destruct s ].
Qed.

(** X23: after the rewriting of [main_loop], the twitter link has no
    occurrence of [x.com] left: every occurrence is replaced, wherever it
    stands in the link, and the replacement makes no new one. *)
Theorem rewritten_link_has_no_alias twitter_link rewritten :
  normalize_twitter (JStr twitter_link) = Ok (JStr rewritten) ->
  substring_of "x.com" rewritten = false.
Proof.
  unfold normalize_twitter. cbn [contains rbind].
  destruct (substring_of "x.com" twitter_link) eqn:E; intros [= <-].
  - apply (rewrite_leaves_none twitter_link 0).
  - exact E.
Qed.

End RewriteFacts.

(** ** Rules for the end of a run *)

Module EndRules.
Import Py World Main Obs Outcomes NetFacts.
Local Open Scope list_scope.

Section Rules.
Variables (I : state -> Prop) (H : Prop).
(** [I] reads the permits only. *)
Hypothesis I_permits :
  forall s s', metadata_semaphore s' = metadata_semaphore s -> I s -> I s'.

Lemma ends_ret E {A} (a : A) : ends I E H (ret a).
Proof. intros s Hs. now split. Qed.

Lemma ends_raise (E : exn -> Prop) {A} e : E e -> ends I E H (@raise A e).
Proof. intros He s Hs. now split. Qed.

Lemma ends_lift (E : exn -> Prop) {A} (r : result A) :
  (forall e, r = Raise e -> E e) -> ends I E H (lift r).
Proof. destruct r as [a | e]; intros He; [apply ends_ret | apply ends_raise; auto]. Qed.

Lemma ends_weaken (E1 E2 : exn -> Prop) {A} (m : M A) :
  (forall e, E1 e -> E2 e) -> ends I E1 H m -> ends I E2 H m.
Proof.
  intros Hsub Hm s Hs. destruct (Hm s Hs) as [Hi Ho]. split; [exact Hi |].
  destruct (fst (m s)); simpl in *; auto.
Qed.

Lemma ends_bind E {A B} (m : M A) (k : A -> M B) :
  ends I E H m -> (forall a, ends I E H (k a)) -> ends I E H (bind m k).
Proof.
  intros Hm Hk s Hs. unfold bind. destruct (Hm s Hs) as [Hi Ho].
  destruct (m s) as [[a | e |] s1]; simpl in *; auto.
  now apply Hk.
Qed.

Lemma ends_try_except (E1 E : exn -> Prop) {A} (m : M A) handler :
  ends I E1 H m ->
  (forall e, E1 e ->
     match handler e with
     | Some k => ends I E H k
     | None => E e
     end) ->
  ends I E H (try_except m handler).
Proof.
  intros Hm Hh s Hs. unfold try_except. destruct (Hm s Hs) as [Hi Ho].
  destruct (m s) as [[a | e |] s1]; simpl in *; auto.
  specialize (Hh e Ho). destruct (handler e) as [k |]; simpl; auto.
Qed.

Lemma ends_for_each E {A} (l : list A) (body : A -> M unit) :
  (forall x, In x l -> ends I E H (body x)) -> ends I E H (for_each l body).
Proof.
  induction l as [| x l IH]; intros Hbody; simpl.
  - apply ends_ret.
  - apply ends_bind.
    + apply Hbody. now left.
    + intros _. apply IH. intros y Hy. apply Hbody. now right.
Qed.

(** An operation that returns and leaves the permits as they are. *)
Lemma ends_step E {A} (m : M A) :
  (forall s, exists a, fst (m s) = Returns a) ->
  (forall s, metadata_semaphore (snd (m s)) = metadata_semaphore s) ->
  ends I E H m.
Proof.
  intros Hr Hp s Hs. split; [now apply (I_permits s), Hs |].
  destruct (Hr s) as [a ->]. exact Logic.I.
Qed.

Lemma ends_emit E e : ends I E H (emit e).
Proof. apply ends_step; intros s; [now exists tt | reflexivity]. Qed.

Lemma ends_tick E : ends I E H tick.
Proof. apply ends_step; intros s; [now exists (clock s) | reflexivity]. Qed.

Lemma ends_get_processed E : ends I E H get_processed.
Proof. apply ends_step; intros s; [now exists (processed_tokens s) | reflexivity]. Qed.

Lemma ends_add_processed E m : ends I E H (add_processed m).
Proof. apply ends_step; intros s; [now exists tt | reflexivity]. Qed.

Variable w : world.

Lemma ends_post E r :
  (forall e, is_RequestError e = true -> E e) -> ends I E H (post w r).
Proof.
  intros He s Hs. rewrite post_run. split; [now apply (I_permits s) |].
  destruct (answer w (clock s) r); simpl; auto.
Qed.

Lemma ends_fetch : ends I (fun e => e = HTTPStatusError) H (fetch_new_pump_fun_tokens w).
Proof.
  intros s Hs. rewrite FetchFacts.fetch_run. split; [now apply (I_permits s) |].
  cbn [fst]. destruct (feed w (clock s)) as [| | [[] [tokens |]]]; simpl; auto.
Qed.

(** Splits a run into its steps; the goals on the exceptions of the
    pure steps are left. *)
Ltac step :=
  first
    [ apply ends_ret | apply ends_emit | apply ends_tick | apply ends_get_processed
    | apply ends_add_processed
    | apply ends_bind; [| intros ?]
    | match goal with
      | |- ends _ _ _ (if ?b then _ else _) => destruct b
      | |- ends _ _ _ (match ?x with _ => _ end) => destruct x
      end ].

Lemma ends_get_sol_balance public_key rpc_url :
  ends I (fun e => e = NameError) H (SolanaRpc.get_sol_balance w public_key rpc_url).
Proof.
  unfold SolanaRpc.get_sol_balance.
  apply ends_try_except with (E1 := fun _ => True).
  - apply ends_bind; [now apply ends_post |]. intros resp.
    repeat first [ step | now apply ends_lift ].
  - intros e _. unfold SolanaRpc.handler.
    destruct e; simpl; first [ apply ends_ret | now apply ends_raise ].
Qed.

Lemma ends_get_transaction_count public_key rpc_url :
  ends I (fun e => e = NameError) H
       (SolanaRpc.get_transaction_count w public_key rpc_url).
Proof.
  unfold SolanaRpc.get_transaction_count.
  apply ends_try_except with (E1 := fun _ => True).
  - apply ends_bind; [now apply ends_post |]. intros resp.
    repeat first [ step | now apply ends_lift ].
  - intros e _. unfold SolanaRpc.handler.
    destruct e; simpl; first [ apply ends_ret | now apply ends_raise ].
Qed.

Lemma ends_send_telegram_message bot_token chat_id message :
  ends I nothing H (TelegramBot.send_telegram_message w bot_token chat_id message).
Proof.
  unfold TelegramBot.send_telegram_message.
  destruct bot_token as [token |], chat_id as [chat |]; try apply ends_ret.
  destruct (_ || _); [apply ends_ret |].
  apply ends_try_except with (E1 := fun _ => True).
  - apply ends_bind; [now apply ends_post |]. intros resp.
    repeat first [ step | now apply ends_lift ].
  - intros e _. apply ends_ret.
Qed.

Variable cfg : config.

Lemma ends_creator_info creator_address :
  ends I nothing H (creator_info w cfg creator_address).
Proof.
  unfold creator_info.
  destruct creator_address as [address |]; [| apply ends_ret].
  destruct (truthy_str _); [| apply ends_ret].
  apply ends_try_except with (E1 := fun _ => True); [| intros e _; apply ends_ret].
  apply ends_bind; [apply ends_emit |]. intros _.
  apply ends_bind.
  { eapply ends_weaken; [| apply ends_get_sol_balance]. trivial. }
  intros balance.
  apply ends_try_except with (E1 := fun _ => True); [| intros e _; apply ends_ret].
  apply ends_bind; [apply ends_emit |]. intros _.
  apply ends_bind; [| intros count; apply ends_ret].
  eapply ends_weaken; [| apply ends_get_transaction_count]. trivial.
Qed.

(** The exceptions of the steps of [main_loop] that make no call. *)
Lemma links_raises md e : links md = Raise e -> fatal e.
Proof.
  unfold links, normalize_twitter, fatal. destruct md as [md |]; [| discriminate].
  destruct (or_else (or_else (twitter_url md) JNull) (JStr NOT_FOUND));
    simpl; try (intros [= <-]; tauto);
    match goal with
    | |- context [if ?b then _ else _] => destruct b
    end; simpl; try discriminate; intros [= <-]; tauto.
Qed.

Lemma accepts_raises a b e : accepts a b = Raise e -> fatal e.
Proof.
  unfold accepts, and_then, is_valid_url, rbind, fatal.
  destruct (found a); [| discriminate].
  destruct a; try (intros [= <-]; tauto).
  destruct (Url.is_valid_url s); [| discriminate].
  destruct (found b); [| discriminate].
  destruct b; try discriminate; intros [= <-]; tauto.
Qed.

Lemma format_raises token balance count telegram twitter e :
  Format.format_token_message token balance count telegram twitter = Raise e ->
  fatal e.
Proof.
  unfold Format.format_token_message, rbind, fatal.
  destruct (Format.format_supply _) as [supply | e'] eqn:E.
  - destruct balance; simpl; [discriminate | intros [= <-]; tauto].
  - intros [= <-]. apply CycleFacts.format_supply_raises in E. tauto.
Qed.

Hypothesis enricher_ends :
  forall mint_address,
    ends I nothing H (get_token_metadata_enriched w cfg mint_address).

Lemma ends_process_token token : ends I fatal H (process_token w cfg token).
Proof.
  assert (Hnone : forall e, nothing e -> fatal e) by (intros e []).
  unfold process_token.
  apply ends_bind; [apply ends_emit |]. intros _.
  apply ends_bind; [eapply ends_weaken; [exact Hnone | apply enricher_ends] |].
  intros md.
  apply ends_bind; [apply ends_lift, links_raises |]. intros [tg tw].
  apply ends_bind; [apply ends_lift, accepts_raises |]. intros accepted.
  destruct (negb accepted); [apply ends_add_processed |].
  apply ends_bind; [eapply ends_weaken; [exact Hnone | apply ends_creator_info] |].
  intros [balance count].
  destruct tg; try (apply ends_raise; unfold fatal; tauto).
  destruct tw; try (apply ends_raise; unfold fatal; tauto).
  apply ends_bind; [apply ends_emit |]. intros _.
  apply ends_bind; [apply ends_lift, format_raises |]. intros message.
  apply ends_bind; [apply ends_emit |]. intros _.
  apply ends_bind;
    [eapply ends_weaken; [exact Hnone | apply ends_send_telegram_message] |].
  intros [|]; [apply ends_add_processed | apply ends_ret].
Qed.

Lemma ends_cycle : ends I fatal H (cycle w cfg).
Proof.
  unfold cycle, handle_tokens, save_processed_tokens.
  apply ends_bind; [apply ends_emit |]. intros _.
  apply ends_bind.
  { eapply ends_weaken; [| apply ends_fetch]. intros e ->. unfold fatal. tauto. }
  intros all_tokens.
  apply ends_bind.
  { apply ends_bind; [apply ends_get_processed |]. intros processed.
    apply ends_for_each. intros token _. apply ends_process_token. }
  intros _.
  apply ends_bind; [| intros _; apply ends_emit].
  apply ends_bind; [apply ends_get_processed | intros processed; apply ends_emit].
Qed.

Lemma ends_cycles n : ends I fatal H (cycles w cfg n).
Proof.
  induction n as [| n IH]; simpl; [apply ends_ret |].
  apply ends_bind; [apply ends_cycle | intros _; exact IH].
Qed.

End Rules.

End EndRules.

(** ** Rules for the number of network requests *)

Module CostRules.
Import Py World Main Obs Outcomes NetFacts.
Local Open Scope list_scope.
Local Open Scope nat_scope.

Lemma requests_app evs1 evs2 : requests (evs1 ++ evs2) = requests evs1 + requests evs2.
Proof. unfold requests. now rewrite List.filter_app, List.length_app. Qed.

Lemma within_weaken n n' {A} (m : M A) : n <= n' -> within n m -> within n' m.
Proof. intros Hn Hm s. destruct (Hm s) as (evs & E & Hevs). exists evs. split; [exact E | lia]. Qed.

(** An operation that leaves the trace as it is. *)
Lemma within_silent {A} (m : M A) :
  (forall s, trace (snd (m s)) = trace s) -> within 0 m.
Proof. intros Hm s. exists []. now rewrite Hm, app_nil_r. Qed.

Lemma within_ret {A} (a : A) : within 0 (ret a).
Proof. now apply within_silent. Qed.

Lemma within_raise {A} e : within 0 (@raise A e).
Proof. now apply within_silent. Qed.

Lemma within_lift {A} (r : result A) : within 0 (lift r).
Proof. destruct r; [apply within_ret | apply within_raise]. Qed.

Lemma within_tick : within 0 tick.
Proof. now apply within_silent. Qed.

Lemma within_get_processed : within 0 get_processed.
Proof. now apply within_silent. Qed.

Lemma within_add_processed m : within 0 (add_processed m).
Proof. now apply within_silent. Qed.

Lemma within_emit e : is_request e = false -> within 0 (emit e).
Proof. intros He s. exists [e]. split; [reflexivity |]. unfold requests. simpl. now rewrite He. Qed.

Lemma within_bind n1 n2 {A B} (m : M A) (k : A -> M B) :
  within n1 m -> (forall a, within n2 (k a)) -> within (n1 + n2) (bind m k).
Proof.
  intros Hm Hk s. unfold bind. destruct (Hm s) as (evs1 & E1 & H1).
  destruct (m s) as [[a | e |] s1]; simpl in *;
    try (exists evs1; split; [exact E1 | lia]).
  destruct (Hk a s1) as (evs2 & E2 & H2).
  exists (evs1 ++ evs2). rewrite E2, E1, app_assoc, requests_app. split; [reflexivity | lia].
Qed.

Lemma within_try_except n1 n2 {A} (m : M A) handler :
  within n1 m ->
  (forall e k, handler e = Some k -> within n2 k) ->
  within (n1 + n2) (try_except m handler).
Proof.
  intros Hm Hh s. unfold try_except. destruct (Hm s) as (evs1 & E1 & H1).
  destruct (m s) as [[a | e |] s1]; simpl in *;
    try (exists evs1; split; [exact E1 | lia]).
  destruct (handler e) as [k |] eqn:Hk; simpl;
    [| exists evs1; split; [exact E1 | lia]].
  destruct (Hh e k Hk s1) as (evs2 & E2 & H2).
  exists (evs1 ++ evs2). rewrite E2, E1, app_assoc, requests_app. split; [reflexivity | lia].
Qed.

Lemma within_for_each n {A} (l : list A) (body : A -> M unit) :
  (forall x, In x l -> within n (body x)) ->
  within (List.length l * n) (for_each l body).
Proof.
  induction l as [| x l IH]; intros Hbody; simpl.
  - apply within_ret.
  - apply within_bind.
    + apply Hbody. now left.
    + intros _. apply IH. intros y Hy. apply Hbody. now right.
Qed.

(** The semaphore makes no request. *)
Lemma within_with_semaphore n {A} (body : M A) :
  within n body -> within n (with_semaphore body).
Proof.
  intros Hb s. unfold with_semaphore, acquire.
  destruct (metadata_semaphore s) as [| p].
  { exists []. split; [simpl; now rewrite app_nil_r | unfold requests; simpl; lia]. }
  match goal with |- context [body ?s1] => destruct (Hb s1) as (evs & E & Hevs);
    destruct (body s1) as [[a | e |] s2] end; simpl in *.
  - exists ([Acquired] ++ evs ++ [Released]). rewrite E, <- !app_assoc.
    split; [reflexivity |]. rewrite !requests_app.
    change (requests [Acquired]) with 0. change (requests [Released]) with 0. lia.
  - exists ([Acquired] ++ evs ++ [Released]). rewrite E, <- !app_assoc.
    split; [reflexivity |]. rewrite !requests_app.
    change (requests [Acquired]) with 0. change (requests [Released]) with 0. lia.
  - exists ([Acquired] ++ evs). rewrite E, <- !app_assoc.
    split; [reflexivity |]. rewrite !requests_app.
    change (requests [Acquired]) with 0. lia.
Qed.

Section Calls.
Variable w : world.

Lemma within_post r : within 1 (post w r).
Proof. intros s. rewrite post_run. exists [Sent r]. now split. Qed.

Lemma within_fetch : within 1 (fetch_new_pump_fun_tokens w).
Proof. intros s. rewrite FetchFacts.fetch_run. exists [Sent (GetFeed PUMP_FUN_API_URL)]. now split. Qed.

(** A request, then steps that make none. *)
Ltac quiet :=
  repeat first
    [ apply within_ret | apply within_raise | apply within_lift
    | apply (within_bind 0 0); [| intros ?]
    | match goal with
      | |- within _ (if ?b then _ else _) => destruct b
      | |- within _ (match ?x with _ => _ end) => destruct x
      end ].

Ltac handled :=
  let e := fresh "e" in
  let k := fresh "k" in
  let Hk := fresh "Hk" in
  intros e k Hk;
  first [ (simpl in Hk; injection Hk as <-)
        | (destruct e; simpl in Hk; try discriminate Hk; injection Hk as <-) ];
  quiet.

Lemma within_get_sol_balance public_key rpc_url :
  within 1 (SolanaRpc.get_sol_balance w public_key rpc_url).
Proof.
  unfold SolanaRpc.get_sol_balance, SolanaRpc.handler.
  apply (within_try_except 1 0); [| handled].
  apply (within_bind 1 0); [apply within_post |]. intros resp. quiet.
Qed.

Lemma within_get_transaction_count public_key rpc_url :
  within 1 (SolanaRpc.get_transaction_count w public_key rpc_url).
Proof.
  unfold SolanaRpc.get_transaction_count, SolanaRpc.handler.
  apply (within_try_except 1 0); [| handled].
  apply (within_bind 1 0); [apply within_post |]. intros resp. quiet.
Qed.

Lemma within_send_telegram_message bot_token chat_id message :
  within 1 (TelegramBot.send_telegram_message w bot_token chat_id message).
Proof.
  unfold TelegramBot.send_telegram_message.
  destruct bot_token as [token |], chat_id as [chat |];
    try (apply (within_weaken 0); [lia | apply within_ret]).
  destruct (_ || _); [apply (within_weaken 0); [lia | apply within_ret] |].
  apply (within_try_except 1 0); [| handled].
  apply (within_bind 1 0); [apply within_post |]. intros resp. quiet.
Qed.

Variable cfg : config.

Lemma within_get_token_metadata_enriched mint_address :
  within 1 (get_token_metadata_enriched w cfg mint_address).
Proof.
  unfold get_token_metadata_enriched. apply within_with_semaphore.
  destruct (COMMERCIAL_METADATA_API_URL cfg) as [url |];
    [| apply (within_weaken 0); [lia | apply within_ret]].
  destruct (negb _); [apply (within_weaken 0); [lia | apply within_ret] |].
  apply (within_try_except 1 0); [| handled].
  apply (within_bind 1 0); [apply within_post |]. intros resp. quiet.
Qed.

Lemma within_creator_info creator_address :
  within 2 (creator_info w cfg creator_address).
Proof.
  unfold creator_info.
  destruct creator_address as [address |];
    [| apply (within_weaken 0); [lia | apply within_ret]].
  destruct (truthy_str _); [| apply (within_weaken 0); [lia | apply within_ret]].
  apply (within_try_except 2 0); [| handled].
  apply (within_bind 0 2); [now apply within_emit |]. intros _.
  apply (within_bind 1 1); [apply within_get_sol_balance |]. intros balance.
  apply (within_try_except 1 0); [| handled].
  apply (within_bind 0 1); [now apply within_emit |]. intros _.
  apply (within_bind 1 0); [apply within_get_transaction_count |]. intros count.
  apply within_ret.
Qed.

(** A candidate costs at most four requests: one to the metadata
    endpoint, two to the RPC endpoint and one to the messaging
    endpoint. *)
Lemma within_process_token token : within 4 (process_token w cfg token).
Proof.
  unfold process_token.
  apply (within_bind 0 4); [now apply within_emit |]. intros _.
  apply (within_bind 1 3); [apply within_get_token_metadata_enriched |]. intros md.
  apply (within_bind 0 3); [apply within_lift |]. intros [tg tw].
  apply (within_bind 0 3); [apply within_lift |]. intros accepted.
  destruct (negb accepted);
    [apply (within_weaken 0); [lia | apply within_add_processed] |].
  apply (within_bind 2 1); [apply within_creator_info |]. intros [balance count].
  destruct tg; try (apply (within_weaken 0); [lia | apply within_raise]).
  destruct tw; try (apply (within_weaken 0); [lia | apply within_raise]).
  apply (within_bind 0 1); [now apply within_emit |]. intros _.
  apply (within_bind 0 1); [apply within_lift |]. intros message.
  apply (within_bind 0 1); [now apply within_emit |]. intros _.
  apply (within_bind 1 0); [apply within_send_telegram_message |].
  intros [|]; [apply within_add_processed | apply within_ret].
Qed.

End Calls.

End CostRules.

(** ** The loop as a whole *)

Module LoopFacts.
Import Py World Main Obs Outcomes NetFacts FetchFacts EnricherFacts Traces.
Import Frame Components Pipeline DedupFacts EndRules CostRules.
Local Open Scope list_scope.
#[local] Set Warnings "-clear-no-such-hyp".

(** The enricher never raises: it returns, or waits for a permit. *)
Lemma enricher_outcome w cfg mint_address s :
  metadata_semaphore (snd (get_token_metadata_enriched w cfg mint_address s))
  = metadata_semaphore s
  /\ match fst (get_token_metadata_enriched w cfg mint_address s) with
     | Returns _ => (0 < metadata_semaphore s)%nat
     | Raises _ => False
     | Hangs => metadata_semaphore s = 0%nat
     end.
Proof.
  destruct (metadata_semaphore s) as [| n] eqn:E.
  - rewrite enricher_waits by exact E. now split.
  - assert (Hs : (0 < metadata_semaphore s)%nat) by lia.
    destruct (truthy_str (COMMERCIAL_METADATA_API_URL cfg)) eqn:Hurl.
    + destruct (COMMERCIAL_METADATA_API_URL cfg) as [url |] eqn:U;
        [| discriminate Hurl].
      rewrite (enricher_configured w cfg mint_address s url Hs U Hurl).
      simpl. split; [exact E | lia].
    + rewrite (enricher_unconfigured w cfg mint_address s Hs Hurl).
      simpl. split; [exact E | lia].
Qed.

Lemma enricher_with_permit w cfg mint_address :
  ends has_permit nothing False (get_token_metadata_enriched w cfg mint_address).
Proof.
  intros s Hs. destruct (enricher_outcome w cfg mint_address s) as [Hp Ho].
  unfold has_permit in *. rewrite Hp. split; [exact Hs |].
  destruct (fst _); simpl; [trivial | exact Ho | lia].
Qed.

Lemma enricher_never_raises w cfg mint_address :
  ends (fun _ => True) nothing True (get_token_metadata_enriched w cfg mint_address).
Proof.
  intros s _. destruct (enricher_outcome w cfg mint_address s) as [_ Ho].
  split; [trivial |]. destruct (fst _); simpl; trivial.
Qed.

(** X16: with a permit in the semaphore, the loop never blocks on it: no
    run of any number of cycles ends waiting. *)
Theorem loop_never_waits w cfg n s :
  has_permit s -> fst (cycles w cfg n s) <> Hangs.
Proof.
  intros Hs.
  destruct (ends_cycles has_permit False
              ltac:(unfold has_permit; intros ? ? ->; trivial)
              w cfg (enricher_with_permit w cfg) n s Hs) as [_ Ho].
  intros E. now rewrite E in Ho.
Qed.

(** X18: no failed request ends the loop: the exception that ends a run
    is never a timeout or another transport error, nor a JSON decoding
    error, nor the [NameError] of the RPC functions. *)
Theorem loop_absorbs_request_errors w cfg n s e :
  fst (cycles w cfg n s) = Raises e ->
  is_RequestError e = false /\ e <> JSONDecodeError /\ e <> NameError.
Proof.
  intros E.
  destruct (ends_cycles (fun _ => True) True ltac:(trivial)
              w cfg (enricher_never_raises w cfg) n s Logic.I) as [_ Ho].
  rewrite E in Ho. simpl in Ho. unfold fatal in Ho.
  destruct Ho as [-> | [-> | [-> | ->]]]; repeat split; discriminate.
Qed.

(** *** One cycle *)

Lemma handle_tokens_run w cfg tokens s :
  handle_tokens w cfg tokens s
  = for_each (newly_found_tokens (processed_tokens s) (valid_tokens tokens))
             (process_token w cfg) s.
Proof. reflexivity. Qed.

(** A cycle ends at the fetch, when the feed answers with an error
    status, or goes on with the candidates that the fetcher returns. *)
Lemma cycle_cases w cfg s :
  (offered (feed w (clock s)) = []
   /\ cycle w cfg s = (Raises HTTPStatusError, fetched s))
  \/ cycle w cfg s
     = match for_each (new_candidates w s) (process_token w cfg) (fetched s) with
       | (Returns _, s') => (Returns tt, slept cfg s')
       | (Raises e, s') => (Raises e, s')
       | (Hangs, s') => (Hangs, s')
       end.
Proof.
  assert (Hfetched : forall s0 : state,
             sent (GetFeed PUMP_FUN_API_URL)
                  (snd (emit (Called fetch_new_pump_fun_tokens_) s0)) = fetched s0).
  { intros s0. unfold fetched, sent. simpl. apply state_eq; trivial.
    now rewrite <- app_assoc. }
  assert (Hgo : forall tokens,
             fst (fetch_new_pump_fun_tokens w
                    (snd (emit (Called fetch_new_pump_fun_tokens_) s)))
             = Returns tokens ->
             tokens = offered (feed w (clock s)) ->
             cycle w cfg s
             = match for_each (new_candidates w s) (process_token w cfg) (fetched s) with
               | (Returns _, s') => (Returns tt, slept cfg s')
               | (Raises e, s') => (Raises e, s')
               | (Hangs, s') => (Hangs, s')
               end).
  { intros tokens Hfetch ->. unfold cycle, bind at 1.
    change (emit (Called fetch_new_pump_fun_tokens_) s)
      with (Returns tt, snd (emit (Called fetch_new_pump_fun_tokens_) s)).
    cbv iota. unfold bind at 1.
    rewrite fetch_run in Hfetch |- *. cbn [fst snd] in Hfetch |- *.
    rewrite Hfetch, Hfetched. unfold bind at 1. rewrite handle_tokens_run.
    change (processed_tokens (fetched s)) with (processed_tokens s).
    fold (new_candidates w s).
    destruct (for_each _ _ (fetched s)) as [[[] | e |] s']; try reflexivity.
    unfold bind, save_processed_tokens, bind, get_processed, emit, slept. simpl.
    f_equal. apply state_eq; trivial. now rewrite <- app_assoc. }
  destruct (feed w (clock s)) as [| | [ok [tokens |]]] eqn:F;
    try (right; apply (Hgo []); [rewrite fetch_run; simpl; now rewrite F | reflexivity]).
  - destruct ok.
    + right. apply (Hgo tokens); [rewrite fetch_run; simpl; now rewrite F | reflexivity].
    + left. split; [reflexivity |].
      unfold cycle, bind at 1.
      change (emit (Called fetch_new_pump_fun_tokens_) s)
        with (Returns tt, snd (emit (Called fetch_new_pump_fun_tokens_) s)).
      cbv iota. unfold bind at 1.
      rewrite fetch_run, Hfetched. simpl. now rewrite F.
  - destruct ok.
    + right. apply (Hgo []); [rewrite fetch_run; simpl; now rewrite F | reflexivity].
    + left. split; [reflexivity |].
      unfold cycle, bind at 1.
      change (emit (Called fetch_new_pump_fun_tokens_) s)
        with (Returns tt, snd (emit (Called fetch_new_pump_fun_tokens_) s)).
      cbv iota. unfold bind at 1.
      rewrite fetch_run, Hfetched. simpl. now rewrite F.
Qed.

Lemma fetched_trace (s : state) :
  trace (fetched s)
  = trace s ++ [Called fetch_new_pump_fun_tokens_; Sent (GetFeed PUMP_FUN_API_URL)].
Proof. reflexivity. Qed.

Lemma bind_emit {B} e (k : unit -> M B) s : bind (emit e) k s = k tt (snd (emit e s)).
Proof. reflexivity. Qed.

Lemma bind_hangs {A B} (m : M A) (k : A -> M B) s s' :
  m s = (Hangs, s') -> bind m k s = (Hangs, s').
Proof. intros E. unfold bind. now rewrite E. Qed.

Lemma process_token_waits w cfg token s :
  metadata_semaphore s = 0%nat ->
  process_token w cfg token s
  = (Hangs, snd (emit (Called (get_token_metadata_enriched_ (mint token))) s)).
Proof.
  intros Hs. unfold process_token. rewrite bind_emit.
  apply bind_hangs. now apply enricher_waits.
Qed.

(** X17: with no permit in the semaphore, a cycle blocks at its first
    new candidate: the enricher is called and waits; no request is made
    for the candidate and the set is not saved. *)
Theorem no_permit_blocks w cfg s token rest :
  metadata_semaphore s = 0%nat ->
  new_candidates w s = token :: rest ->
  fst (cycle w cfg s) = Hangs
  /\ new_events s (snd (cycle w cfg s))
     = [Called fetch_new_pump_fun_tokens_; Sent (GetFeed PUMP_FUN_API_URL);
        Called (get_token_metadata_enriched_ (mint token))].
Proof.
  intros Hs Hnew.
  destruct (cycle_cases w cfg s) as [[Hoff _] | ->].
  { unfold new_candidates in Hnew. rewrite Hoff in Hnew. discriminate Hnew. }
  rewrite Hnew. cbn [for_each].
  rewrite (bind_hangs _ _ _ _ (process_token_waits w cfg token (fetched s) Hs)).
  split; [reflexivity |]. apply new_events_appended. simpl. now rewrite <- app_assoc.
Qed.

(** X19: a cycle makes one request to the feed and at most four for each
    new candidate. *)
Theorem cycle_request_budget w cfg s :
  (requests (new_events s (snd (cycle w cfg s)))
   <= 1 + 4 * List.length (new_candidates w s))%nat.
Proof.
  assert (Hfetch : requests [Called fetch_new_pump_fun_tokens_;
                             Sent (GetFeed PUMP_FUN_API_URL)] = 1%nat) by reflexivity.
  destruct (cycle_cases w cfg s) as [[_ ->] | ->].
  { cbn [snd]. rewrite (new_events_appended s _ _ (fetched_trace s)), Hfetch. lia. }
  destruct (within_for_each 4 (new_candidates w s) (process_token w cfg)
              (fun token _ => within_process_token w cfg token) (fetched s))
    as (evs & E & Hevs).
  rewrite fetched_trace, <- app_assoc in E.
  destruct (for_each _ _ (fetched s)) as [[[] | e |] s']; cbn [snd] in *.
  - rewrite (new_events_appended s _
               (([Called fetch_new_pump_fun_tokens_; Sent (GetFeed PUMP_FUN_API_URL)]
                 ++ evs)
                ++ [Called (save_processed_tokens_ (processed_tokens s'));
                    Called (sleep_ (POLLING_INTERVAL_SECONDS cfg))])).
    + rewrite !requests_app, Hfetch.
      change (requests [Called _; Called _]) with 0%nat. lia.
    + simpl. rewrite E. now rewrite <- !app_assoc.
  - rewrite (new_events_appended s _ _ E), requests_app, Hfetch. lia.
  - rewrite (new_events_appended s _ _ E), requests_app, Hfetch. lia.
Qed.

(** X20: an identifier enters the dedup set in a cycle only if the feed
    offered in this cycle a candidate with this identifier, not empty,
    and with an owning account. *)
Theorem cycle_marks_offered_only w cfg s m :
  m ∈ processed_tokens (snd (cycle w cfg s)) ->
  m ∈ processed_tokens s
  \/ (truthy_str m = true
      /\ exists token,
           In token (offered (feed w (clock s)))
           /\ mint token = m /\ truthy_str (creator token) = true).
Proof.
  intros Hm.
  assert (Hnew : forall token,
             In token (new_candidates w s) ->
             truthy_str (mint token) = true
             /\ In token (offered (feed w (clock s)))
             /\ truthy_str (creator token) = true).
  { intros token H. unfold new_candidates, newly_found_tokens in H.
    apply filter_In in H as [H _].
    apply FilterFacts.in_valid_tokens in H. tauto. }
  destruct (cycle_cases w cfg s) as [[_ E] | E]; rewrite E in Hm; clear E.
  { now left. }
  pose (ms := list_to_set (map mint (new_candidates w s)) : gset (option string)).
  assert (Hkeeps : keeps (on_processed (fun p p' => p' ⊆ ms ∪ p))
                         (for_each (new_candidates w s) (process_token w cfg))).
  { apply keeps_for_each. intros t Ht.
    apply (processed_process_token (fun p p' => p' ⊆ ms ∪ p)).
    intros p. assert (mint t ∈ ms); [| set_solver].
    apply elem_of_list_to_set, list_elem_of_In, in_map, Ht. }
  specialize (Hkeeps (fetched s)). unfold on_processed in Hkeeps.
  assert (Hin : m ∈ processed_tokens
                      (snd (for_each (new_candidates w s) (process_token w cfg)
                              (fetched s)))).
  { destruct (for_each _ _ (fetched s)) as [[[] | e |] s']; exact Hm. }
  apply Hkeeps, elem_of_union in Hin as [Hin | Hin]; [| now left].
  right.
  apply elem_of_list_to_set, list_elem_of_In, in_map_iff in Hin as (token & <- & Ht).
  destruct (Hnew token Ht) as (H1 & H2 & H3).
  split; [exact H1 |]. now exists token.
Qed.

(** *** The events of a cycle *)

Section Events.
Variable P : event -> bool.
Hypothesis HP : forall e, is_enrichment e || is_downstream e = true -> P e = true.
Variables (w : world) (cfg : config).

Lemma appends_add_processed m : keeps (appends P) (add_processed m).
Proof. intros s. now apply appends_nothing. Qed.

Lemma appends_publish message : keeps (appends P) (publish w cfg message).
Proof.
  apply keeps_publish with (ok := P);
    first [ exact _ | exact (appends_emit P) | exact (appends_tick P) | idtac ].
  intros e He. apply HP. unfold is_downstream. rewrite He. now rewrite !orb_true_r.
Qed.

(** Processing a candidate adds events of the enricher, of the
    chain-info lookup, of the formatter and of the publisher only. *)
Lemma appends_process_token token : keeps (appends P) (process_token w cfg token).
Proof.
  intros s. rewrite process_token_phases. revert s. apply keeps_bind.
  - unfold prepare. apply keeps_bind.
    + apply appends_enrich_and_filter. intros e He. apply HP. now rewrite He.
    + intros [[tg tw] accepted]. destruct accepted; simpl.
      * apply keeps_bind; [| intros; apply keeps_ret].
        apply appends_lookup_and_format. intros e He. apply HP.
        unfold is_downstream. rewrite He. now rewrite !orb_true_r.
      * apply keeps_bind; [apply appends_add_processed | intros; apply keeps_ret].
  - intros [message |]; simpl; [| apply keeps_ret].
    apply keeps_bind; [apply appends_publish |].
    intros [|]; simpl; [apply appends_add_processed | apply keeps_ret].
Qed.

End Events.

(** X21: the set is saved at the end of a cycle that runs to its end, as
    it then is, and nowhere else: a cycle that an exception cuts, or that
    waits, saves nothing. *)
Theorem save_closes_cycle w cfg s :
  let s' := snd (cycle w cfg s) in
  match fst (cycle w cfg s) with
  | Returns _ =>
      exists evs,
        new_events s s'
        = evs ++ [Called (save_processed_tokens_ (processed_tokens s'));
                  Called (sleep_ (POLLING_INTERVAL_SECONDS cfg))]
        /\ forallb (fun e => negb (is_save e)) evs = true
  | _ => forallb (fun e => negb (is_save e)) (new_events s s') = true
  end.
Proof.
  cbv zeta.
  destruct (cycle_cases w cfg s) as [[_ ->] | ->].
  { cbn [fst snd]. now rewrite (new_events_appended s _ _ (fetched_trace s)). }
  assert (Hloop : keeps (appends (fun e => negb (is_save e)))
                        (for_each (new_candidates w s) (process_token w cfg))).
  { apply keeps_for_each. intros token _. apply appends_process_token.
    now intros [[] | [] | |]. }
  destruct (Hloop (fetched s)) as (evs & E & Hevs).
  rewrite fetched_trace, <- app_assoc in E.
  destruct (for_each _ _ (fetched s)) as [[[] | e |] s1]; cbn [fst snd] in *.
  - exists ([Called fetch_new_pump_fun_tokens_; Sent (GetFeed PUMP_FUN_API_URL)] ++ evs).
    split.
    + apply new_events_appended. simpl. rewrite E. now rewrite <- !app_assoc.
    + now rewrite forallb_app, Hevs.
  - rewrite (new_events_appended s _ _ E), forallb_app, Hevs. reflexivity.
  - rewrite (new_events_appended s _ _ E), forallb_app, Hevs. reflexivity.
Qed.

End LoopFacts.

(** ** What each call returns *)

Module CallFacts.
Import Py World Main Obs Outcomes NetFacts EnricherFacts RpcFacts.
Local Open Scope list_scope.

Arguments assoc : simpl never.

(** Case analysis on a run: on the result of each step that makes no
    call, on each test and on the exception that reaches the handler. *)
Ltac cases :=
  repeat (simpl;
          match goal with
          | |- context [lift ?r] => destruct r
          | |- context [SolanaRpc.handler ?e] => destruct e
          | |- context [if ?b then _ else _] => destruct b
          end);
  simpl.

Lemma get_sol_balance_state w public_key rpc_url s :
  snd (SolanaRpc.get_sol_balance w public_key rpc_url s)
  = sent (PostGetBalance rpc_url public_key) s.
Proof.
  unfold SolanaRpc.get_sol_balance, try_except, bind. rewrite post_run.
  destruct (client_call _); cases; reflexivity.
Qed.

Lemma get_transaction_count_state w public_key rpc_url s :
  snd (SolanaRpc.get_transaction_count w public_key rpc_url s)
  = sent (PostGetSignatures rpc_url public_key SolanaRpc.signatures_limit) s.
Proof.
  unfold SolanaRpc.get_transaction_count, try_except, bind. rewrite post_run.
  destruct (client_call _); cases; reflexivity.
Qed.

(** X8: [get_sol_balance] makes one request and returns, or raises
    [NameError]: on a timeout and on another transport error it returns
    [None]; on an error status and on a body that is not JSON, the
    exception reaches the clause [except json.JSONDecodeError] of a module
    that does not import [json]. *)
Theorem get_sol_balance_outcomes w public_key rpc_url s :
  let req := PostGetBalance rpc_url public_key in
  let got := answer w (clock s) req in
  let ran := SolanaRpc.get_sol_balance w public_key rpc_url s in
  snd ran = sent req s
  /\ ((exists balance, fst ran = Returns balance) \/ fst ran = Raises NameError)
  /\ (got = TimedOut \/ got = TransportFailed -> fst ran = Returns None)
  /\ (forall resp,
        got = Received resp ->
        status_ok resp = false \/ body resp = None ->
        fst ran = Raises NameError).
Proof.
  cbv zeta. split; [| split; [| split]].
  - apply get_sol_balance_state.
  - unfold SolanaRpc.get_sol_balance, try_except, bind. rewrite post_run.
    destruct (client_call _); cases; eauto.
  - unfold SolanaRpc.get_sol_balance, try_except, bind. rewrite post_run.
    intros [-> | ->]; reflexivity.
  - unfold SolanaRpc.get_sol_balance, try_except, bind. rewrite post_run.
    intros resp -> [Hr | Hr]; simpl; unfold raise_for_status, response_json.
    + now rewrite Hr.
    + rewrite Hr. now destruct (status_ok resp).
Qed.

(** X9: [get_transaction_count] makes one request and returns, or raises
    [NameError], as [get_sol_balance] does; a JSON object without a list
    under ["result"] gives the count 0, and a count is never negative. *)
Theorem get_transaction_count_outcomes w public_key rpc_url s :
  let req := PostGetSignatures rpc_url public_key SolanaRpc.signatures_limit in
  let got := answer w (clock s) req in
  let ran := SolanaRpc.get_transaction_count w public_key rpc_url s in
  snd ran = sent req s
  /\ ((exists count, fst ran = Returns count) \/ fst ran = Raises NameError)
  /\ (got = TimedOut \/ got = TransportFailed -> fst ran = Returns None)
  /\ (forall resp,
        got = Received resp ->
        status_ok resp = false \/ body resp = None ->
        fst ran = Raises NameError)
  /\ (forall kvs,
        got = Json (JObj kvs) ->
        (forall entries, assoc "result" kvs <> Some (JArr entries)) ->
        fst ran = Returns (Some 0))
  /\ (forall n, fst ran = Returns (Some n) -> 0 <= n).
Proof.
  cbv zeta. split; [| split; [| split; [| split; [| split]]]].
  - apply get_transaction_count_state.
  - unfold SolanaRpc.get_transaction_count, try_except, bind. rewrite post_run.
    destruct (client_call _); cases; eauto.
  - unfold SolanaRpc.get_transaction_count, try_except, bind. rewrite post_run.
    intros [-> | ->]; reflexivity.
  - unfold SolanaRpc.get_transaction_count, try_except, bind. rewrite post_run.
    intros resp -> [Hr | Hr]; simpl; unfold raise_for_status, response_json.
    + now rewrite Hr.
    + rewrite Hr. now destruct (status_ok resp).
  - unfold SolanaRpc.get_transaction_count, try_except, bind. rewrite post_run.
    intros kvs -> Hno. simpl. unfold SolanaRpc.has_result_list.
    destruct kvs as [| kv kvs]; [reflexivity |]. simpl.
    destruct (assoc "result" (kv :: kvs)) as [[| | | | | entries |] |] eqn:E;
      try reflexivity.
    now destruct (Hno entries).
  - intros n Hn.
    unfold SolanaRpc.get_transaction_count, try_except, bind in Hn.
    rewrite post_run in Hn.
    destruct (answer w (clock s) _) as [| | [ok [data |]]]; simpl in *;
      try discriminate Hn; destruct ok; simpl in *; try discriminate Hn.
    unfold SolanaRpc.has_result_list in Hn.
    destruct data as [| b | z | f | str | l | kvs]; crunch Hn.
Qed.

(** With a token and a chat identifier, the publisher makes one request
    and returns whether the reply acknowledges. *)
Lemma send_telegram_message_run w bot_token chat_id message s token chat :
  bot_token = Some token -> chat_id = Some chat ->
  truthy_str bot_token && truthy_str chat_id = true ->
  TelegramBot.send_telegram_message w bot_token chat_id message s
  = (Returns (acknowledged (answer w (clock s) (PostSendMessage token chat message))),
     sent (PostSendMessage token chat message) s).
Proof.
  intros -> -> H. unfold TelegramBot.send_telegram_message.
  apply andb_true_iff in H as [-> ->]. cbn [negb orb].
  unfold try_except, bind. rewrite post_run. unfold acknowledged.
  destruct (answer w (clock s) _) as [| | [ok [data |]]]; simpl; trivial;
    destruct ok; simpl; trivial.
  destruct data as [| | | | | | kvs]; simpl; trivial.
  unfold assoc. fold assoc.
  destruct (assoc "ok" kvs) as [v |]; simpl; [| reflexivity].
  now destruct (truthy v).
Qed.

(** X11: [send_telegram_message] always returns a boolean.  Without a
    token or a chat identifier it returns [False] and makes no request;
    otherwise it makes one request and returns [True] exactly when the
    reply has a success status and a JSON object whose ["ok"] is true. *)
Theorem send_telegram_message_outcomes w bot_token chat_id message s :
  let ran := TelegramBot.send_telegram_message w bot_token chat_id message s in
  (truthy_str bot_token && truthy_str chat_id = false -> ran = (Returns false, s))
  /\ (forall token chat,
        bot_token = Some token -> chat_id = Some chat ->
        truthy_str bot_token && truthy_str chat_id = true ->
        let req := PostSendMessage token chat message in
        ran = (Returns (acknowledged (answer w (clock s) req)), sent req s)).
Proof.
  cbv zeta. split.
  - unfold TelegramBot.send_telegram_message.
    destruct bot_token as [token |], chat_id as [chat |]; try reflexivity.
    intros H. destruct (truthy_str (Some token)), (truthy_str (Some chat));
      try discriminate H; reflexivity.
  - intros token chat. apply send_telegram_message_run.
Qed.

Lemma nothing_raised {A} (o : outcome A) :
  ends_in nothing False o -> exists a, o = Returns a.
Proof. destruct o as [a | e |]; simpl; [now exists a | intros [] | intros []]. Qed.

(** X13: on two strings, the filter decides as the two URL validations
    do: the comparisons with the default ["Not found"] never change the
    decision, since the default is not a valid URL. *)
Theorem filter_is_two_validations a b :
  accepts (JStr a) (JStr b) = Ok (Url.is_valid_url a && Url.is_valid_url b).
Proof.
  rewrite FilterFacts.accepts_str. f_equal.
  destruct (Url.is_valid_url a) eqn:Ha, (Url.is_valid_url b) eqn:Hb;
    rewrite ?andb_false_r, ?andb_false_l, ?andb_true_r; trivial.
  now rewrite (FilterFacts.valid_found a Ha), (FilterFacts.valid_found b Hb).
Qed.

(** X10: the chain-info lookup of [main_loop] always returns: it absorbs
    the exceptions of the two RPC functions.  Without an owning account it
    makes no request; and when the balance lookup raises, both fields stay
    absent and the activity count is not requested. *)
Theorem creator_info_absorbs w cfg creator_address s :
  let ran := creator_info w cfg creator_address s in
  (exists balance count, fst ran = Returns (balance, count))
  /\ (truthy_str creator_address = false -> ran = (Returns (None, None), s))
  /\ (forall address e,
        creator_address = Some address -> address <> "" ->
        fst (SolanaRpc.get_sol_balance w address (SOLANA_RPC_URL cfg)
               (snd (emit (Called (get_sol_balance_ address)) s))) = Raises e ->
        fst ran = Returns (None, None)
        /\ new_events s (snd ran)
           = [Called (get_sol_balance_ address);
              Sent (PostGetBalance (SOLANA_RPC_URL cfg) address)]).
Proof.
  cbv zeta. split; [| split].
  - destruct (EndRules.ends_creator_info (fun _ => True) False ltac:(trivial)
                w cfg creator_address s Logic.I) as [_ Ho].
    apply nothing_raised in Ho as [[balance count] Ho]. now exists balance, count.
  - unfold creator_info. destruct creator_address as [address |]; [| reflexivity].
    now intros ->.
  - intros address e -> Hne Hraise.
    assert (Ht : truthy_str (Some address) = true).
    { simpl. destruct (String.eqb_spec address ""); [contradiction | reflexivity]. }
    assert (Hrun : creator_info w cfg (Some address) s
                   = (Returns (None, None),
                      sent (PostGetBalance (SOLANA_RPC_URL cfg) address)
                           (snd (emit (Called (get_sol_balance_ address)) s)))).
    { unfold creator_info. rewrite Ht. unfold try_except at 1.
      rewrite LoopFacts.bind_emit. unfold bind at 1.
      pose proof (get_sol_balance_state w address (SOLANA_RPC_URL cfg)
                    (snd (emit (Called (get_sol_balance_ address)) s))) as Hstate.
      destruct (SolanaRpc.get_sol_balance _ _ _ _) as [o s1].
      simpl in Hraise, Hstate. now subst o s1. }
    rewrite Hrun. split; [reflexivity |]. apply Traces.new_events_appended.
    simpl. now rewrite <- app_assoc.
Qed.

(** X12: with a permit and an endpoint, the enricher returns metadata
    exactly when the reply has a success status and a JSON object with a
    list under ["result"] whose first entry is an object; the links are
    those of this first entry, [telegram_url] before [telegram] and
    [twitter_url] before [twitter]. *)
Theorem enricher_reads_first_result w cfg mint_address s url md :
  (0 < metadata_semaphore s)%nat ->
  COMMERCIAL_METADATA_API_URL cfg = Some url -> url <> "" ->
  fst (get_token_metadata_enriched w cfg mint_address s) = Returns (Some md)
  <-> exists kvs first rest,
        answer w (clock s) (metadata_request cfg url mint_address) = Json (JObj kvs)
        /\ assoc "result" kvs = Some (JArr (JObj first :: rest))
        /\ md = {| telegram_url := or_else (field first "telegram_url")
                                           (field first "telegram");
                   twitter_url := or_else (field first "twitter_url")
                                          (field first "twitter") |}.
Proof.
  intros Hs Hurl Hne.
  assert (Ht : truthy_str (Some url) = true).
  { simpl. destruct (String.eqb_spec url ""); [contradiction | reflexivity]. }
  rewrite (enricher_configured w cfg mint_address s url Hs Hurl Ht). cbn [fst].
  unfold enrichment_of. split.
  - destruct (answer w (clock s) _) as [| | [ok [data |]]]; simpl; try discriminate;
      destruct ok; simpl; try discriminate.
    unfold parse_metadata, first_result.
    destruct data as [| | | | | | kvs]; simpl; try discriminate;
      try (match goal with |- context [if ?b then _ else _] => destruct b end;
           discriminate).
    destruct kvs as [| kv kvs]; [discriminate |]. simpl.
    unfold field.
    destruct (assoc "result" (kv :: kvs)) as [[| | | | | [| api rest] |] |] eqn:E;
      simpl; try discriminate.
    destruct api as [| | | | | | first]; simpl; try discriminate.
    intros [= <-]. exists (kv :: kvs), first, rest. now split.
  - intros (kvs & first & rest & -> & Hres & ->). simpl.
    unfold parse_metadata, first_result.
    rewrite (assoc_truthy _ _ _ Hres). simpl. rewrite Hres. reflexivity.
Qed.

End CallFacts.

(** ** The publication of an accepted candidate *)

Module PublishFacts.
Import Py World Main Obs Outcomes NetFacts Components Pipeline Traces CycleFacts.
Local Open Scope list_scope.
#[local] Set Warnings "-clear-no-such-hyp".

(** X25: an accepted candidate for which the lookup gives a balance and
    the formatter a message is published once, with that message; its
    processing returns, and its identifier joins the dedup set exactly
    when the messaging endpoint acknowledges. *)
Theorem accepted_candidate_is_published
    w cfg token s telegram twitter s1 balance count s2 message bot_token chat_id :
  enrich_and_filter w cfg token s = (Returns (JStr telegram, JStr twitter, true), s1) ->
  creator_info w cfg (creator token) s1 = (Returns (Some balance, count), s2) ->
  Format.format_token_message token (Some balance) count telegram twitter = Ok message ->
  TELEGRAM_BOT_TOKEN cfg = Some bot_token -> bot_token <> "" ->
  TELEGRAM_CHANNEL_ID cfg = Some chat_id -> chat_id <> "" ->
  let req := PostSendMessage bot_token chat_id message in
  let ran := process_token w cfg token s in
  fst ran = Returns tt
  /\ publish_calls (new_events s (snd ran)) = 1%nat
  /\ In (Called (send_telegram_message_ message)) (new_events s (snd ran))
  /\ In (Sent req) (new_events s (snd ran))
  /\ processed_tokens (snd ran)
     = if acknowledged (answer w (clock s2) req)
       then {[ mint token ]} ∪ processed_tokens s
       else processed_tokens s.
Proof.
  intros Hfilter Hinfo Hformat Hbot Hbne Hchat Hcne req ran.
  set (s3 := snd (emit (Called (format_token_message_ token)) s2)).
  set (s4 := snd (emit (Called (send_telegram_message_ message)) s3)).
  assert (Hprep : prepare w cfg token s = (Returns (Some message), s3)).
  { unfold prepare, bind at 1. rewrite Hfilter. cbn [negb].
    unfold bind at 1, lookup_and_format, bind at 1. rewrite Hinfo.
    rewrite LoopFacts.bind_emit. fold s3. now rewrite Hformat. }
  assert (Hsend : TelegramBot.send_telegram_message w (TELEGRAM_BOT_TOKEN cfg)
                    (TELEGRAM_CHANNEL_ID cfg) message s4
                  = (Returns (acknowledged (answer w (clock s2) req)), sent req s4)).
  { apply (CallFacts.send_telegram_message_run w _ _ message s4 bot_token chat_id
             Hbot Hchat).
    rewrite Hbot, Hchat. simpl.
    destruct (String.eqb_spec bot_token ""); [contradiction |].
    destruct (String.eqb_spec chat_id ""); [contradiction | reflexivity]. }
  assert (Hran : ran = (Returns tt,
                        if acknowledged (answer w (clock s2) req)
                        then marked (mint token) (sent req s4)
                        else sent req s4)).
  { subst ran. rewrite process_token_phases. unfold bind at 1. rewrite Hprep.
    cbn [publish_and_record]. unfold bind at 1, publish.
    rewrite LoopFacts.bind_emit. fold s4. rewrite Hsend.
    unfold record. now destruct (acknowledged _). }
  pose proof (processed_enrich_and_filter eq w cfg token s) as Hp1.
  pose proof (processed_creator_info eq w cfg (creator token) s1) as Hp2.
  pose proof (appends_enrich_and_filter (fun e => negb (is_publish_call e))
                w cfg token) as Ht1.
  pose proof (appends_creator_info (fun e => negb (is_publish_call e))
                w cfg (creator token)) as Ht2.
  specialize (Ht1 ltac:(now intros [[] | [] | |]) s) as (evs1 & E1 & Hevs1).
  specialize (Ht2 ltac:(now intros [[] | [] | |]) s1) as (evs2 & E2 & Hevs2).
  rewrite Hfilter in Hp1, E1. rewrite Hinfo in Hp2, E2.
  unfold on_processed in Hp1, Hp2. simpl in Hp1, Hp2, E1, E2.
  assert (Hevents :
    new_events s (snd ran)
    = evs1 ++ evs2 ++ [Called (format_token_message_ token);
                       Called (send_telegram_message_ message); Sent req]).
  { apply new_events_appended. rewrite Hran.
    assert (Htrace : trace (sent req s4)
                     = trace s ++ evs1 ++ evs2
                       ++ [Called (format_token_message_ token);
                           Called (send_telegram_message_ message); Sent req]).
    { simpl. rewrite E2, E1. now rewrite <- !app_assoc. }
    now destruct (acknowledged _). }
  split; [now rewrite Hran | split; [| split; [| split]]].
  - rewrite Hevents. unfold publish_calls.
    rewrite !List.filter_app, !List.length_app.
    fold (publish_calls evs1). fold (publish_calls evs2).
    unfold publish_calls at 1 2.
    rewrite (none_counted _ _ Hevs1), (none_counted _ _ Hevs2). reflexivity.
  - rewrite Hevents, !in_app_iff. right. right. simpl. tauto.
  - rewrite Hevents, !in_app_iff. right. right. simpl. tauto.
  - rewrite Hran. destruct (acknowledged _); simpl; congruence.
Qed.

End PublishFacts.

(** ** Runs of the examples *)

Module Runs.
Import Py World Main Obs Example.
Local Open Scope list_scope.

(** Evaluates each conjunct of a closed goal. *)
Ltac evaluate :=
  lazymatch goal with
  | |- _ /\ _ => split; [vm_compute; reflexivity | evaluate]
  | _ => vm_compute; reflexivity
  end.

(** The first example of the specification: the twitter link is
    rewritten, the filter accepts, the message is published and the
    identifier enters the dedup set. *)
Lemma healthy_run :
  let r := cycle healthy cfg s0 in
  fst r = Returns tt
  /\ processed_tokens (snd r) = {[ Some "M1" ]}
  /\ publish_calls (trace (snd r)) = 1%nat
  /\ metadata_semaphore (snd r) = 5%nat.
Proof. cbv zeta. evaluate. Qed.

Lemma healthy_links :
  links (enrichment_of both_links)
  = Ok (JStr "https://t.me/x", JStr "https://twitter.com/y").
Proof. vm_compute. reflexivity. Qed.

(** The second example: a telegram link only; the filter rejects, the
    identifier enters the dedup set and nothing is published. *)
Lemma telegram_only_run :
  let r := cycle telegram_only cfg s0 in
  fst r = Returns tt
  /\ processed_tokens (snd r) = {[ Some "M1" ]}
  /\ publish_calls (trace (snd r)) = 0%nat.
Proof. cbv zeta. evaluate. Qed.

(** C1: an accepted candidate whose balance lookup fails (here the
    request times out, and the balance stays [None]) is not published:
    formatting the message raises [TypeError], which ends the cycle and
    the loop; no publish call is made and the identifier is not marked. *)
Theorem absent_balance_blocks_publication :
  let r := cycle balance_down cfg s0 in
  fst (enrich_and_filter balance_down cfg moon_dog s0)
  = Returns (JStr "https://t.me/x", JStr "https://twitter.com/y", true)
  /\ fst r = Raises TypeError
  /\ publish_calls (trace (snd r)) = 0%nat
  /\ processed_tokens (snd r) = ∅
  /\ fst (cycles balance_down cfg 2 s0) = Raises TypeError.
Proof. cbv zeta. evaluate. Qed.

(** An absent activity count alone does not block the publication. *)
Lemma absent_count_is_published :
  let r := cycle signatures_down cfg s0 in
  fst r = Returns tt
  /\ processed_tokens (snd r) = {[ Some "M1" ]}
  /\ publish_calls (trace (snd r)) = 1%nat.
Proof. cbv zeta. evaluate. Qed.

(** C5: the feed fetcher does raise to its caller on a response whose
    body is not valid JSON when the status of that response is an error:
    [HTTPStatusError] leaves the fetcher, then the cycle and the loop;
    nothing is returned. *)
Theorem error_status_escapes_fetcher :
  feed feed_error_status (clock s0) = Received {| status_ok := false; body := None |}
  /\ fst (fetch_new_pump_fun_tokens feed_error_status s0) = Raises HTTPStatusError
  /\ fst (cycle feed_error_status cfg s0) = Raises HTTPStatusError
  /\ fst (cycles feed_error_status cfg 3 s0) = Raises HTTPStatusError.
Proof. evaluate. Qed.

(** The rewriting of the twitter link comes before the filter: a link
    that passes the validation as returned by the enricher can fail it
    once rewritten. *)
Lemma rewritten_link_can_fail :
  Url.is_valid_url long_label = true
  /\ links (Some {| telegram_url := JStr "https://t.me/x";
                    twitter_url := JStr long_label |})
     = Ok (JStr "https://t.me/x", JStr (replace "x.com" "twitter.com" long_label))
  /\ Url.is_valid_url (replace "x.com" "twitter.com" long_label) = false.
Proof. cbv zeta. evaluate. Qed.

(** The count is the length of the list the RPC returns: a reply that
    ignores the limit of the query gives a count above it. *)
Lemma count_beyond_limit :
  fst (SolanaRpc.get_transaction_count beyond_limit "C1" (SOLANA_RPC_URL cfg) s0)
  = Returns (Some 101).
Proof. vm_compute. reflexivity. Qed.

(** C7, as stated, fails: the feed is unchanged and the second cycle
    makes a publish call, for the candidate whose publish attempt failed
    in the first cycle. *)
Lemma unchanged_feed_republishes :
  let s1 := snd (cycle publisher_down cfg s0) in
  (forall n, feed publisher_down n = Json [moon_dog])
  /\ fst (cycle publisher_down cfg s0) = Returns tt
  /\ publish_calls (new_events s1 (snd (cycle publisher_down cfg s1))) = 1%nat.
Proof. cbv zeta. split; [intros n; reflexivity | evaluate]. Qed.

(** C9, as stated, fails: a candidate with an identifier and no owning
    account has one of the two, and is discarded. *)
Lemma orphan_is_discarded :
  ~ (forall all_tokens token,
        In token all_tokens ->
        (In token (valid_tokens all_tokens)
         <-> truthy_str (mint token) = true \/ truthy_str (creator token) = true)).
Proof.
  intros H. specialize (H [orphan] orphan (or_introl eq_refl)).
  destruct H as [_ H]. destruct (H (or_introl eq_refl)).
Qed.

End Runs.

(** ** Instances of the theorems on the examples *)

Module Witnesses.
Import Py World Main Obs Example.
Local Open Scope list_scope.

Lemma failed_publish_is_retried_witness :
  prepare publisher_down cfg moon_dog s0
  = (Returns (Some prepared_message), prepared_state)
  /\ publish publisher_down cfg prepared_message prepared_state
     = (Returns false, unpublished_state)
  /\ process_token publisher_down cfg moon_dog s0 = (Returns tt, unpublished_state)
  /\ processed_tokens unpublished_state = processed_tokens s0.
Proof.
  assert (H1 : prepare publisher_down cfg moon_dog s0
               = (Returns (Some prepared_message), prepared_state))
    by (vm_compute; reflexivity).
  assert (H2 : publish publisher_down cfg prepared_message prepared_state
               = (Returns false, unpublished_state))
    by (vm_compute; reflexivity).
  split; [exact H1 | split; [exact H2 |]].
  destruct (CycleFacts.failed_publish_is_retried
              publisher_down cfg moon_dog [] s0 _ _ _ H1 H2) as (Ha & Hb & _).
  split; assumption.
Defined.

Lemma rejected_is_marked_and_skipped_witness :
  enrich_and_filter telegram_only cfg moon_dog s0
  = (Returns (JStr "https://t.me/x", JStr NOT_FOUND, false), filtered_state)
  /\ process_token telegram_only cfg moon_dog s0
     = (Returns tt, marked (mint moon_dog) filtered_state)
  /\ processed_tokens (marked (mint moon_dog) filtered_state)
     = {[ mint moon_dog ]} ∪ processed_tokens s0.
Proof.
  assert (H : enrich_and_filter telegram_only cfg moon_dog s0
              = (Returns (JStr "https://t.me/x", JStr NOT_FOUND, false), filtered_state))
    by (vm_compute; reflexivity).
  split; [exact H |].
  destruct (DedupFacts.rejected_is_marked_and_skipped
              telegram_only cfg moon_dog s0 _ _ _ H) as (Ha & Hb & _).
  split; assumption.
Defined.

Lemma fetch_absorbs_failures_witness :
  feed_failure (feed feed_down (clock s0)) = true
  /\ fst (fetch_new_pump_fun_tokens feed_down s0) = Returns [].
Proof.
  split; [reflexivity |].
  apply (FetchFacts.fetch_absorbs_failures feed_down s0). reflexivity.
Defined.

Lemma gate_is_balanced_witness :
  (0 < metadata_semaphore s0)%nat
  /\ exists md net,
       get_token_metadata_enriched healthy cfg (Some "M1") s0
       = (Returns md, enriched net s0)
       /\ metadata_semaphore (enriched net s0) = metadata_semaphore s0.
Proof.
  assert (H : (0 < metadata_semaphore s0)%nat) by (simpl; lia).
  split; [exact H |].
  destruct (EnricherFacts.gate_is_balanced healthy cfg (Some "M1") s0 H)
    as (md & net & Hrun & Hsem & _).
  exists md, net. split; assumption.
Defined.

Lemma second_cycle_is_idle_witness :
  configured cfg = true
  /\ publisher_acknowledges healthy
  /\ (forall n, feed healthy n = Json [moon_dog])
  /\ cycle healthy cfg s0 = (Returns tt, after_first_cycle)
  /\ cycle healthy cfg after_first_cycle = (Returns tt, idle_cycle cfg after_first_cycle)
  /\ publish_calls (new_events after_first_cycle (idle_cycle cfg after_first_cycle))
     = 0%nat.
Proof.
  assert (H1 : configured cfg = true) by reflexivity.
  assert (H2 : publisher_acknowledges healthy) by (intros n b c t; reflexivity).
  assert (H3 : forall n, feed healthy n = Json [moon_dog]) by (intros n; reflexivity).
  assert (H4 : cycle healthy cfg s0 = (Returns tt, after_first_cycle))
    by (vm_compute; reflexivity).
  repeat (split; [assumption |]).
  destruct (CycleFacts.second_cycle_is_idle healthy cfg [moon_dog] s0 _ H1 H2 H3 H4)
    as (_ & Ha & Hb).
  split; assumption.
Defined.

Lemma chain_info_values_witness :
  fst (SolanaRpc.get_sol_balance healthy "C1" (SOLANA_RPC_URL cfg) s0)
  = Returns (Some half)
  /\ fst (SolanaRpc.get_transaction_count healthy "C1" (SOLANA_RPC_URL cfg) s0)
     = Returns (Some 5)
  /\ 0 <= 5 <= 100.
Proof.
  destruct (RpcFacts.chain_info_values healthy "C1" (SOLANA_RPC_URL cfg) s0)
    as (Hbalance & Hcount & Hlimit).
  split; [| split].
  - etransitivity; [eapply Hbalance; reflexivity | vm_compute; reflexivity].
  - etransitivity; [eapply Hcount; reflexivity | reflexivity].
  - apply Hlimit; [reflexivity |].
    etransitivity; [eapply Hcount; reflexivity | reflexivity].
Defined.

Lemma valid_tokens_need_both_witness :
  In orphan [orphan; moon_dog]
  /\ ~ In orphan (valid_tokens [orphan; moon_dog])
  /\ In moon_dog (valid_tokens [orphan; moon_dog]).
Proof.
  assert (H1 : In orphan [orphan; moon_dog]) by (left; reflexivity).
  assert (H2 : In moon_dog [orphan; moon_dog]) by (right; left; reflexivity).
  split; [exact H1 | split].
  - destruct (FilterFacts.valid_tokens_need_both _ _ H1) as [_ [_ H]].
    apply H. right. reflexivity.
  - destruct (FilterFacts.valid_tokens_need_both _ _ H2) as [[_ H] _].
    apply H. split; reflexivity.
Defined.

Lemma dedup_set_monotone_witness :
  load_processed_tokens (Stored ["M0"])
  ⊆ processed_tokens (snd (cycles healthy cfg 2 (initial_state cfg (Stored ["M0"])))).
Proof.
  destruct (DedupFacts.dedup_set_monotone healthy cfg) as (_ & _ & _ & H).
  apply (H (Stored ["M0"]) 2%nat
           (fst (cycles healthy cfg 2 (initial_state cfg (Stored ["M0"]))))).
  vm_compute. reflexivity.
Defined.

End Witnesses.

(** ** Instances of the further theorems *)

Module Instances.
Import Py World Main Obs Example Lang Markdown Outcomes Cases.
Local Open Scope list_scope.

Lemma url_ignores_case_witness :
  isascii "HTTPS://T.ME/Chan" = true
  /\ Url.is_valid_url (lower "HTTPS://T.ME/Chan") = Url.is_valid_url "HTTPS://T.ME/Chan".
Proof.
  split; [reflexivity |].
  apply (UrlFacts.url_ignores_case "HTTPS://T.ME/Chan"). reflexivity.
Defined.

Lemma url_needs_scheme_witness :
  isascii "https://t.me/x" = true
  /\ Url.is_valid_url "https://t.me/x" = true
  /\ exists scheme rest,
       "https://t.me/x" = (scheme ++ rest)%string /\ In (lower scheme) schemes.
Proof.
  split; [reflexivity |]. split; [vm_compute; reflexivity |].
  apply (UrlFacts.url_needs_scheme "https://t.me/x");
    [reflexivity | vm_compute; reflexivity].
Defined.

Lemma url_final_newline_witness :
  isascii "https://t.me/x" = true
  /\ Url.is_valid_url "https://t.me/x" = true
  /\ Url.is_valid_url ("https://t.me/x" ++ newline)%string = true.
Proof.
  split; [reflexivity |]. split; [vm_compute; reflexivity |].
  apply (UrlFacts.url_final_newline "https://t.me/x"); [reflexivity |].
  split; vm_compute; reflexivity.
Defined.

Lemma url_has_no_space_witness :
  isascii "https://t.me/x" = true
  /\ Url.is_valid_url "https://t.me/x" = true
  /\ exists body,
       ("https://t.me/x" = body \/ "https://t.me/x" = (body ++ newline)%string)
       /\ all_chars no_space body = true.
Proof.
  split; [reflexivity |]. split; [vm_compute; reflexivity |].
  apply (UrlFacts.url_has_no_space "https://t.me/x");
    [reflexivity | vm_compute; reflexivity].
Defined.

Lemma small_supply_is_exact_witness :
  0 <= 1000000000000000 < 2 ^ 53
  /\ Format.format_supply (JInt 1000000000000000)
     = Ok (Format.commas (Format.decimal 1000000000000000)).
Proof.
  assert (H : 0 <= 1000000000000000 < 2 ^ 53) by (split; [discriminate | reflexivity]).
  split; [exact H |].
  apply (FormatFacts.small_supply_is_exact 1000000000000000 H).
Defined.

Lemma rewritten_link_has_no_alias_witness :
  normalize_twitter (JStr "https://x.com/y") = Ok (JStr "https://twitter.com/y")
  /\ substring_of "x.com" "https://twitter.com/y" = false.
Proof.
  assert (H : normalize_twitter (JStr "https://x.com/y")
              = Ok (JStr "https://twitter.com/y")) by (vm_compute; reflexivity).
  split; [exact H |].
  apply (RewriteFacts.rewritten_link_has_no_alias "https://x.com/y" _ H).
Defined.

Lemma get_sol_balance_outcomes_witness :
  fst (SolanaRpc.get_sol_balance balance_down "C1" (SOLANA_RPC_URL cfg) s0)
  = Returns None
  /\ fst (SolanaRpc.get_sol_balance rpc_error_status "C1" (SOLANA_RPC_URL cfg) s0)
     = Raises NameError.
Proof.
  split.
  - destruct (CallFacts.get_sol_balance_outcomes
                balance_down "C1" (SOLANA_RPC_URL cfg) s0) as (_ & _ & H & _).
    apply H. left. reflexivity.
  - destruct (CallFacts.get_sol_balance_outcomes
                rpc_error_status "C1" (SOLANA_RPC_URL cfg) s0) as (_ & _ & _ & H).
    apply (H {| status_ok := false; body := None |}); [reflexivity |].
    left. reflexivity.
Defined.

Lemma get_transaction_count_outcomes_witness :
  fst (SolanaRpc.get_transaction_count signatures_down "C1" (SOLANA_RPC_URL cfg) s0)
  = Returns None
  /\ fst (SolanaRpc.get_transaction_count rpc_error_status "C1" (SOLANA_RPC_URL cfg) s0)
     = Raises NameError.
Proof.
  split.
  - destruct (CallFacts.get_transaction_count_outcomes
                signatures_down "C1" (SOLANA_RPC_URL cfg) s0) as (_ & _ & H & _).
    apply H. left. reflexivity.
  - destruct (CallFacts.get_transaction_count_outcomes
                rpc_error_status "C1" (SOLANA_RPC_URL cfg) s0) as (_ & _ & _ & H & _).
    apply (H {| status_ok := false; body := None |}); [reflexivity |].
    left. reflexivity.
Defined.

Lemma creator_info_absorbs_witness :
  creator_info healthy cfg None s0 = (Returns (None, None), s0)
  /\ fst (SolanaRpc.get_sol_balance rpc_error_status "C1" (SOLANA_RPC_URL cfg)
            before_balance) = Raises NameError
  /\ fst (creator_info rpc_error_status cfg (Some "C1") s0) = Returns (None, None).
Proof.
  assert (H : fst (SolanaRpc.get_sol_balance rpc_error_status "C1" (SOLANA_RPC_URL cfg)
                     before_balance) = Raises NameError) by (vm_compute; reflexivity).
  split; [| split; [exact H |]].
  - destruct (CallFacts.creator_info_absorbs healthy cfg None s0) as (_ & Hnone & _).
    apply Hnone. reflexivity.
  - destruct (CallFacts.creator_info_absorbs rpc_error_status cfg (Some "C1") s0)
      as (_ & _ & Hraise).
    destruct (Hraise "C1" NameError eq_refl ltac:(discriminate) H) as [Hfst _].
    exact Hfst.
Defined.

Lemma send_telegram_message_outcomes_witness :
  TelegramBot.send_telegram_message healthy None (Some "@channel") "text" s0
  = (Returns false, s0)
  /\ fst (TelegramBot.send_telegram_message healthy (Some "bot-token")
            (Some "@channel") "text" s0) = Returns true.
Proof.
  split.
  - destruct (CallFacts.send_telegram_message_outcomes
                healthy None (Some "@channel") "text" s0) as [H _].
    apply H. reflexivity.
  - destruct (CallFacts.send_telegram_message_outcomes
                healthy (Some "bot-token") (Some "@channel") "text" s0) as [_ H].
    rewrite (H "bot-token" "@channel" eq_refl eq_refl eq_refl). reflexivity.
Defined.

Lemma enricher_reads_first_result_witness :
  (0 < metadata_semaphore s0)%nat
  /\ COMMERCIAL_METADATA_API_URL cfg = Some "https://metadata.example"
  /\ fst (get_token_metadata_enriched healthy cfg (Some "M1") s0)
     = Returns (Some both_links_metadata).
Proof.
  assert (Hs : (0 < metadata_semaphore s0)%nat) by (simpl; lia).
  split; [exact Hs |]. split; [reflexivity |].
  apply (CallFacts.enricher_reads_first_result
           healthy cfg (Some "M1") s0 "https://metadata.example" both_links_metadata
           Hs eq_refl ltac:(discriminate)).
  exists [("result", JArr [JObj [("telegram", JStr "https://t.me/x");
                                 ("twitter", JStr "https://x.com/y")]])],
         [("telegram", JStr "https://t.me/x"); ("twitter", JStr "https://x.com/y")],
         [].
  split; [reflexivity |]. split; reflexivity.
Defined.

Lemma permits_main_loop_witness :
  main_loop healthy cfg Absent 1 = Some (Returns tt, after_first_cycle)
  /\ metadata_semaphore after_first_cycle = CONCURRENT_METADATA_FETCHES cfg.
Proof.
  assert (H : main_loop healthy cfg Absent 1 = Some (Returns tt, after_first_cycle))
    by (vm_compute; reflexivity).
  split; [exact H |].
  apply (Permits.permits_main_loop healthy cfg Absent 1 (Returns tt) after_first_cycle H).
Defined.

Lemma loop_never_waits_witness :
  has_permit s0 /\ fst (cycles healthy cfg 2 s0) <> Hangs.
Proof.
  assert (H : has_permit s0) by (unfold has_permit; simpl; lia).
  split; [exact H |].
  apply (LoopFacts.loop_never_waits healthy cfg 2 s0 H).
Defined.

Lemma no_permit_blocks_witness :
  metadata_semaphore blocked = 0%nat
  /\ new_candidates healthy blocked = [moon_dog]
  /\ fst (cycle healthy no_permits blocked) = Hangs.
Proof.
  assert (H : new_candidates healthy blocked = [moon_dog]) by (vm_compute; reflexivity).
  split; [reflexivity |]. split; [exact H |].
  destruct (LoopFacts.no_permit_blocks healthy no_permits blocked moon_dog []
              eq_refl H) as [Hfst _].
  exact Hfst.
Defined.

Lemma loop_absorbs_request_errors_witness :
  fst (cycles balance_down cfg 2 s0) = Raises TypeError
  /\ is_RequestError TypeError = false.
Proof.
  assert (H : fst (cycles balance_down cfg 2 s0) = Raises TypeError)
    by (vm_compute; reflexivity).
  split; [exact H |].
  destruct (LoopFacts.loop_absorbs_request_errors balance_down cfg 2 s0 TypeError H)
    as [Hreq _].
  exact Hreq.
Defined.

Lemma cycle_marks_offered_only_witness :
  Some "M1" ∈ processed_tokens after_first_cycle
  /\ (Some "M1" ∈ processed_tokens s0
      \/ (truthy_str (Some "M1") = true
          /\ exists token,
               In token (offered (feed healthy (clock s0)))
               /\ mint token = Some "M1" /\ truthy_str (creator token) = true)).
Proof.
  assert (H : Some "M1" ∈ processed_tokens after_first_cycle).
  { assert (E : processed_tokens after_first_cycle = {[ Some "M1" ]})
      by (vm_compute; reflexivity).
    rewrite E. now apply elem_of_singleton. }
  split; [exact H |].
  apply (LoopFacts.cycle_marks_offered_only healthy cfg s0 (Some "M1") H).
Defined.

Lemma accepted_candidate_is_published_witness :
  enrich_and_filter healthy cfg moon_dog s0
  = (Returns (JStr "https://t.me/x", JStr "https://twitter.com/y", true), accepted_state)
  /\ creator_info healthy cfg (creator moon_dog) accepted_state
     = (Returns (Some half, Some 5), looked_up_state)
  /\ fst (process_token healthy cfg moon_dog s0) = Returns tt
  /\ publish_calls (new_events s0 (snd (process_token healthy cfg moon_dog s0))) = 1%nat.
Proof.
  assert (H1 : enrich_and_filter healthy cfg moon_dog s0
               = (Returns (JStr "https://t.me/x", JStr "https://twitter.com/y", true),
                  accepted_state)) by (vm_compute; reflexivity).
  assert (H2 : creator_info healthy cfg (creator moon_dog) accepted_state
               = (Returns (Some half, Some 5), looked_up_state))
    by (vm_compute; reflexivity).
  assert (H3 : Format.format_token_message moon_dog (Some half) (Some 5)
                 "https://t.me/x" "https://twitter.com/y" = Ok healthy_message)
    by (vm_compute; reflexivity).
  split; [exact H1 | split; [exact H2 |]].
  destruct (PublishFacts.accepted_candidate_is_published
              healthy cfg moon_dog s0 _ _ _ _ _ _ healthy_message "bot-token" "@channel"
              H1 H2 H3 eq_refl ltac:(discriminate) eq_refl ltac:(discriminate))
    as (Ha & Hb & _).
  split; assumption.
Defined.

End Instances.
